(** * The messaging substrate of the hierarchical network system

    A shallow embedding of [core/communication]: the [Message] envelope
    (message.py), the per-agent [CommunicationProtocol] endpoint
    (protocol.py) and the [MessageRouter] (router.py), with the
    properties of the design document proved about them; and, after
    these, of the state manager, the capability registry and the table
    of sub-networks of [core/base_network].

    Conventions.
    - A Python [dict] is a [gmap]; iteration over it follows
      [map_to_list], which fixes one order per map (the design leaves
      the iteration order of the registry open).
    - Objects that the code shares by reference and mutates (protocol
      endpoints, futures) live in a store indexed by addresses; a
      [Message] is threaded through the call that mutates it.
    - A Python call that may raise returns a [Result].  Only instances of
      [Exception] are modelled: the interpreter's exit and cancellation
      signals (KeyboardInterrupt, SystemExit, CancelledError), which sit
      outside [Exception], are not part of the model.
    - A coroutine is split at its suspension points; what the rest of the
      program does while it is suspended is given as a script of
      deliveries, one window of deliveries per wait.  A wait ends when its
      window is over: with the result if the future has one by then, and
      by a timeout otherwise.
    - The background task of the router ([start], [stop] and the loop
      over its priority queues) is not modelled: nothing feeds these
      queues.  The loop of an endpoint only logs what is queued; it runs
      where a statement names it, and not during a call of
      [send_message]. *)

From Stdlib Require Import ZArith NArith String Ascii.
From Stdlib Require Import Floats.SpecFloat.
From Equations Require Import Equations.
From Equations.Prop Require Import Logic.
From stdpp Require Import gmap strings list fin_maps pretty.

#[local] Set Warnings "-register-all".

(** ** Python values and exceptions *)

(** The values a serialised message holds ([Dict[str, Any]]). *)
Inductive PyVal : Type :=
| PNone
| PBool (b : bool)
| PInt (z : Z)
| PFloat (f : spec_float)
| PStr (s : string)
| PList (l : list PyVal)
| PDict (d : gmap string PyVal).

Abbreviation PyDict := (gmap string PyVal).

(** [bool(d)] for a dict: false exactly on the empty one. *)
Definition dict_truthy (d : PyDict) : bool := negb (Nat.eqb (size d) 0).

(** [bool(s)] for a str. *)
Definition str_truthy (s : string) : bool :=
  match s with EmptyString => false | String _ _ => true end.

Inductive Exception : Type :=
| KeyError (key : string)
| ValueError (msg : string)
| TypeError (msg : string)
| RuntimeError (msg : string).

(** [str(e)] *)
Definition str_of_exception (e : Exception) : string :=
  match e with
  | KeyError k => "'" +:+ k +:+ "'"
  | ValueError s | TypeError s | RuntimeError s => s
  end.

Inductive Result (A : Type) : Type :=
| Ok (a : A)
| Raise (e : Exception).
Arguments Ok {A} a.
Arguments Raise {A} e.

#[export] Instance Result_ret : MRet Result := @Ok.
#[export] Instance Result_bind : MBind Result := λ A B f r,
  match r with Ok a => f a | Raise e => Raise e end.

(** [data[key]] *)
Definition getitem (data : PyDict) (key : string) : Result PyVal :=
  match data !! key with
  | Some v => Ok v
  | None => Raise (KeyError key)
  end.

(** [data.get(key, dflt)] *)
Definition dict_get (data : PyDict) (key : string) (dflt : PyVal) : PyVal :=
  default dflt (data !! key).

(** ** message.py: the enumerations *)

Inductive MessageType : Type :=
| QUERY | SUB_QUERY | QUERY_RESPONSE
| REGISTER | UNREGISTER | HEARTBEAT | STATUS_UPDATE
| DATA_REQUEST | DATA_RESPONSE | KNOWLEDGE_SHARE
| PERFORMANCE_REPORT | QUALITY_ASSESSMENT | REWARD_SIGNAL | PRUNING_NOTICE
| IDEA_PROPOSAL | HYPOTHESIS_TEST | EXPERIMENT_RESULT
| ADMIN_COMMAND | ADMIN_FEEDBACK | SYSTEM_LOG.

Definition all_MessageType : list MessageType :=
  [ QUERY; SUB_QUERY; QUERY_RESPONSE;
    REGISTER; UNREGISTER; HEARTBEAT; STATUS_UPDATE;
    DATA_REQUEST; DATA_RESPONSE; KNOWLEDGE_SHARE;
    PERFORMANCE_REPORT; QUALITY_ASSESSMENT; REWARD_SIGNAL; PRUNING_NOTICE;
    IDEA_PROPOSAL; HYPOTHESIS_TEST; EXPERIMENT_RESULT;
    ADMIN_COMMAND; ADMIN_FEEDBACK; SYSTEM_LOG ].

(** [t.value] *)
Definition MessageType_value (t : MessageType) : string :=
  match t with
  | QUERY => "query"
  | SUB_QUERY => "sub_query"
  | QUERY_RESPONSE => "query_response"
  | REGISTER => "register"
  | UNREGISTER => "unregister"
  | HEARTBEAT => "heartbeat"
  | STATUS_UPDATE => "status_update"
  | DATA_REQUEST => "data_request"
  | DATA_RESPONSE => "data_response"
  | KNOWLEDGE_SHARE => "knowledge_share"
  | PERFORMANCE_REPORT => "performance_report"
  | QUALITY_ASSESSMENT => "quality_assessment"
  | REWARD_SIGNAL => "reward_signal"
  | PRUNING_NOTICE => "pruning_notice"
  | IDEA_PROPOSAL => "idea_proposal"
  | HYPOTHESIS_TEST => "hypothesis_test"
  | EXPERIMENT_RESULT => "experiment_result"
  | ADMIN_COMMAND => "admin_command"
  | ADMIN_FEEDBACK => "admin_feedback"
  | SYSTEM_LOG => "system_log"
  end.

(** [MessageType(v)]: the member whose value is [v]. *)
Definition MessageType_of_value (v : string) : option MessageType :=
  list_find (λ t, MessageType_value t = v) all_MessageType ≫= λ p, Some p.2.

Inductive MessagePriority : Type := LOW | NORMAL | HIGH | CRITICAL.

Definition MessagePriority_value (p : MessagePriority) : Z :=
  match p with LOW => 0 | NORMAL => 1 | HIGH => 2 | CRITICAL => 3 end.

Definition MessagePriority_of_value (v : Z) : option MessagePriority :=
  match v with
  | 0 => Some LOW | 1 => Some NORMAL | 2 => Some HIGH | 3 => Some CRITICAL
  | _ => None
  end%Z.

#[export] Instance MessageType_eq_dec : EqDecision MessageType.
Proof. solve_decision. Defined.

#[export] Instance MessageType_countable : Countable MessageType :=
  inj_countable MessageType_value MessageType_of_value
    ltac:(by intros []).

#[export] Instance MessagePriority_eq_dec : EqDecision MessagePriority.
Proof. solve_decision. Defined.

(** ** datetime

    [Message.timestamp] is a naive [datetime] (the default factory is
    [datetime.utcnow]).  Only the two library functions the envelope
    calls are modelled: [isoformat] and [fromisoformat]. *)

Record datetime : Type := mkdatetime {
  year : N; month : N; day : N;
  hour : N; minute : N; second : N; microsecond : N
}.

Definition is_leap (y : N) : bool :=
  ((y mod 4 =? 0) && (negb (y mod 100 =? 0) || (y mod 400 =? 0)))%N.

Definition days_in_month (y m : N) : N :=
  match m with
  | 2 => if is_leap y then 29 else 28
  | 4 | 6 | 9 | 11 => 30
  | _ => 31
  end%N.

(** The ranges the [datetime] constructor enforces. *)
Definition valid_datetime (d : datetime) : bool :=
  ((1 <=? year d) && (year d <=? 9999) &&
   (1 <=? month d) && (month d <=? 12) &&
   (1 <=? day d) && (day d <=? days_in_month (year d) (month d)) &&
   (hour d <? 24) && (minute d <? 60) && (second d <? 60) &&
   (microsecond d <? 1000000))%N.

Definition digit_char (d : N) : ascii := ascii_of_N (48 + d).

Definition char_digit (c : ascii) : option N :=
  let n := N_of_ascii c in
  if ((48 <=? n) && (n <=? 57))%N then Some (n - 48)%N else None.

(** ["%0wd" % n], for [n] below [10 ^ w]. *)
Fixpoint zfill (w : nat) (n : N) : string :=
  match w with
  | O => ""
  | S w' => String (digit_char ((n / 10 ^ N.of_nat w') mod 10)) (zfill w' n)
  end.

(** [d.isoformat()]: [YYYY-MM-DDTHH:MM:SS], followed by [.ffffff] when the
    microsecond is not zero. *)
Definition isoformat (d : datetime) : string :=
  zfill 4 (year d) +:+ "-" +:+ zfill 2 (month d) +:+ "-" +:+ zfill 2 (day d)
  +:+ "T" +:+ zfill 2 (hour d) +:+ ":" +:+ zfill 2 (minute d)
  +:+ ":" +:+ zfill 2 (second d)
  +:+ (if (microsecond d =? 0)%N then "" else "." +:+ zfill 6 (microsecond d)).

Fixpoint read_digits (w : nat) (acc : N) (s : string) : option (N * string) :=
  match w with
  | O => Some (acc, s)
  | S w' =>
      match s with
      | String c s' => d ← char_digit c; read_digits w' (acc * 10 + d)%N s'
      | EmptyString => None
      end
  end.

Definition read_char (c : ascii) (s : string) : option string :=
  match s with
  | String c' s' => if decide (c' = c) then Some s' else None
  | EmptyString => None
  end.

Definition read_any (s : string) : option string :=
  match s with
  | String _ s' => Some s'
  | EmptyString => None
  end.

(** [datetime.fromisoformat(s)], on the two layouts [isoformat] emits for a
    naive datetime (any single character separates date and time); [None]
    stands for ValueError. *)
Definition fromisoformat (s : string) : option datetime :=
  '(y, s) ← read_digits 4 0 s;
  s ← read_char "-" s;
  '(mo, s) ← read_digits 2 0 s;
  s ← read_char "-" s;
  '(d, s) ← read_digits 2 0 s;
  s ← read_any s;
  '(h, s) ← read_digits 2 0 s;
  s ← read_char ":" s;
  '(mi, s) ← read_digits 2 0 s;
  s ← read_char ":" s;
  '(se, s) ← read_digits 2 0 s;
  '(us, s) ← match s with
             | EmptyString => Some (0%N, s)
             | _ => s ← read_char "." s; read_digits 6 0 s
             end;
  let dt := mkdatetime y mo d h mi se us in
  if str_truthy s then None
  else if valid_datetime dt then Some dt else None.

(** ** message.py: the envelope *)

Record Message : Type := mkMessage {
  message_id : string;
  message_type : MessageType;
  sender_id : string;
  receiver_id : string;                (* the empty string means broadcast *)
  priority : MessagePriority;
  timestamp : datetime;
  payload : PyDict;
  metadata : PyDict;
  parent_message_id : option string;
  requires_response : bool;
  timeout_seconds : spec_float;
  retry_count : Z;
  max_retries : Z
}.

(** The float [30.0]: [0x1.E p4]. *)
Definition float_30 : spec_float := S754_finite false 8444249301319680 (-48).

(** The two default factories of the dataclass draw on the environment:
    [uid] stands for [str(uuid.uuid4())] and [now] for [datetime.utcnow()]
    at the point where a [Message] is constructed. *)

Definition set_sender_id (v : string) (m : Message) : Message :=
  mkMessage (message_id m) (message_type m) v (receiver_id m) (priority m)
    (timestamp m) (payload m) (metadata m) (parent_message_id m)
    (requires_response m) (timeout_seconds m) (retry_count m) (max_retries m).

Definition set_receiver_id (v : string) (m : Message) : Message :=
  mkMessage (message_id m) (message_type m) (sender_id m) v (priority m)
    (timestamp m) (payload m) (metadata m) (parent_message_id m)
    (requires_response m) (timeout_seconds m) (retry_count m) (max_retries m).

Definition set_requires_response (v : bool) (m : Message) : Message :=
  mkMessage (message_id m) (message_type m) (sender_id m) (receiver_id m)
    (priority m) (timestamp m) (payload m) (metadata m) (parent_message_id m)
    v (timeout_seconds m) (retry_count m) (max_retries m).

Definition set_retry_count (v : Z) (m : Message) : Message :=
  mkMessage (message_id m) (message_type m) (sender_id m) (receiver_id m)
    (priority m) (timestamp m) (payload m) (metadata m) (parent_message_id m)
    (requires_response m) (timeout_seconds m) v (max_retries m).

Definition PyVal_of_optstr (o : option string) : PyVal :=
  match o with Some s => PStr s | None => PNone end.

(** [Message.to_dict] *)
Definition to_dict (self : Message) : PyDict :=
  list_to_map [
    ("message_id", PStr (message_id self));
    ("message_type", PStr (MessageType_value (message_type self)));
    ("sender_id", PStr (sender_id self));
    ("receiver_id", PStr (receiver_id self));
    ("priority", PInt (MessagePriority_value (priority self)));
    ("timestamp", PStr (isoformat (timestamp self)));
    ("payload", PDict (payload self));
    ("metadata", PDict (metadata self));
    ("parent_message_id", PyVal_of_optstr (parent_message_id self));
    ("requires_response", PBool (requires_response self));
    ("timeout_seconds", PFloat (timeout_seconds self));
    ("retry_count", PInt (retry_count self));
    ("max_retries", PInt (max_retries self)) ].

(** The record is typed after the annotations of the dataclass.  Python
    stores whatever object the mapping holds; a value of another type than
    the annotated one has no image in the record, and the projections
    below report it as a TypeError. *)
Definition as_str (v : PyVal) : Result string :=
  match v with PStr s => Ok s | _ => Raise (TypeError "str expected") end.

Definition as_dict (v : PyVal) : Result PyDict :=
  match v with PDict d => Ok d | _ => Raise (TypeError "dict expected") end.

Definition as_optstr (v : PyVal) : Result (option string) :=
  match v with
  | PNone => Ok None
  | PStr s => Ok (Some s)
  | _ => Raise (TypeError "str or None expected")
  end.

Definition as_bool (v : PyVal) : Result bool :=
  match v with PBool b => Ok b | _ => Raise (TypeError "bool expected") end.

Definition as_float (v : PyVal) : Result spec_float :=
  match v with PFloat f => Ok f | _ => Raise (TypeError "float expected") end.

Definition as_int (v : PyVal) : Result Z :=
  match v with PInt z => Ok z | _ => Raise (TypeError "int expected") end.

(** [MessageType(v)] on an arbitrary object: ValueError unless [v] is the
    value of a member. *)
Definition MessageType_call (v : PyVal) : Result MessageType :=
  match v with
  | PStr s =>
      match MessageType_of_value s with
      | Some t => Ok t
      | None => Raise (ValueError (s +:+ " is not a valid MessageType"))
      end
  | _ => Raise (ValueError "not a valid MessageType")
  end.

(** The integer a float is equal to, if there is one. *)
Definition float_integer (f : spec_float) : option Z :=
  match f with
  | S754_zero _ => Some 0%Z
  | S754_finite s m e =>
      let v :=
        if (0 <=? e)%Z then Some (Z.pos m * 2 ^ e)%Z
        else if (Z.pos m mod 2 ^ (- e) =? 0)%Z
             then Some (Z.pos m / 2 ^ (- e))%Z
             else None in
      (λ z, if s then (- z)%Z else z) <$> v
  | S754_infinity _ | S754_nan => None
  end.

(** [MessagePriority(v)]: the lookup is by equality with a member's value,
    and in Python [True == 1], [False == 0] and [1.0 == 1]. *)
Definition MessagePriority_call (v : PyVal) : Result MessagePriority :=
  let lookup z :=
    match MessagePriority_of_value z with
    | Some p => Ok p
    | None => Raise (ValueError (pretty z +:+ " is not a valid MessagePriority"))
    end in
  match v with
  | PInt z => lookup z
  | PBool b => lookup (if b then 1 else 0)%Z
  | PFloat f =>
      match float_integer f with
      | Some z => lookup z
      | None => Raise (ValueError "not a valid MessagePriority")
      end
  | _ => Raise (ValueError "not a valid MessagePriority")
  end.

(** [datetime.fromisoformat(v)] on an arbitrary object. *)
Definition fromisoformat_call (v : PyVal) : Result datetime :=
  match v with
  | PStr s =>
      match fromisoformat s with
      | Some d => Ok d
      | None => Raise (ValueError ("Invalid isoformat string: " +:+ s))
      end
  | _ => Raise (TypeError "fromisoformat: argument must be str")
  end.

(** [Message.from_dict]; the keyword arguments are evaluated in the order
    in which they are written. *)
Definition from_dict (data : PyDict) : Result Message :=
  v_id ← getitem data "message_id"; id ← as_str v_id;
  v_ty ← getitem data "message_type"; ty ← MessageType_call v_ty;
  v_s ← getitem data "sender_id"; s ← as_str v_s;
  v_r ← getitem data "receiver_id"; r ← as_str v_r;
  v_p ← getitem data "priority"; p ← MessagePriority_call v_p;
  v_ts ← getitem data "timestamp"; ts ← fromisoformat_call v_ts;
  v_pl ← getitem data "payload"; pl ← as_dict v_pl;
  md ← as_dict (dict_get data "metadata" (PDict ∅));
  par ← as_optstr (dict_get data "parent_message_id" PNone);
  rr ← as_bool (dict_get data "requires_response" (PBool false));
  tmo ← as_float (dict_get data "timeout_seconds" (PFloat float_30));
  rc ← as_int (dict_get data "retry_count" (PInt 0));
  mr ← as_int (dict_get data "max_retries" (PInt 3));
  Ok (mkMessage id ty s r p ts pl md par rr tmo rc mr).

(** The keys [from_dict] reads with [data.get], and a serialised message
    from which some keys have been left out. *)
Definition optional_keys : list string :=
  ["metadata"; "parent_message_id"; "requires_response";
   "timeout_seconds"; "retry_count"; "max_retries"].

Definition without_keys (ks : list string) (data : PyDict) : PyDict :=
  foldr delete data ks.

(** What [from_dict] builds from a serialised message that lacks the keys
    [ks], all of them optional. *)
Definition with_defaults (ks : list string) (m : Message) : Message :=
  {| message_id := message_id m;
     message_type := message_type m;
     sender_id := sender_id m;
     receiver_id := receiver_id m;
     priority := priority m;
     timestamp := timestamp m;
     payload := payload m;
     metadata := if decide ("metadata" ∈ ks) then ∅ else metadata m;
     parent_message_id :=
       if decide ("parent_message_id" ∈ ks) then None
       else parent_message_id m;
     requires_response :=
       if decide ("requires_response" ∈ ks) then false
       else requires_response m;
     timeout_seconds :=
       if decide ("timeout_seconds" ∈ ks) then float_30
       else timeout_seconds m;
     retry_count := if decide ("retry_count" ∈ ks) then 0 else retry_count m;
     max_retries := if decide ("max_retries" ∈ ks) then 3 else max_retries m
  |}.

(** [Message.create_response]; [metadata or {}] replaces [None] and the
    empty dict by a new empty dict. *)
Definition create_response (self : Message) (uid : string) (now : datetime)
    (payload' : PyDict) (metadata' : option PyDict) : Message :=
  {| message_id := uid;
     message_type := QUERY_RESPONSE;
     sender_id := receiver_id self;
     receiver_id := sender_id self;
     priority := priority self;
     timestamp := now;
     payload := payload';
     metadata := match metadata' with
                 | Some d => if dict_truthy d then d else ∅
                 | None => ∅
                 end;
     parent_message_id := Some (message_id self);
     requires_response := false;
     timeout_seconds := float_30;
     retry_count := 0;
     max_retries := 3 |}.

(** [Message.should_retry] *)
Definition should_retry (self : Message) : bool :=
  bool_decide (retry_count self < max_retries self)%Z.

(** [Message.increment_retry] *)
Definition increment_retry (self : Message) : Message :=
  set_retry_count (retry_count self + 1) self.

(** ** The store

    Endpoints are objects that the router and their agents share; they are
    kept in a store and named by their address.  The futures an endpoint
    creates are kept with it, also by address: [_pending_responses] and
    the suspended [send_message] refer to the same future.  The queue of
    an endpoint holds the messages as they are when they are put on it. *)

Inductive LogLevel : Type := DEBUG | INFO | WARNING | ERROR.

(** What can be observed of a run: the structured log, and two marks that
    are not in the source, one at each call of [receive_message] and one
    at each call of a registered handler; a handler is a black box. *)
Inductive Event : Type :=
| EvLog (level : LogLevel) (event : string) (fields : list (string * PyVal))
| EvReceive (a : nat) (m : Message)
| EvHandler (a : nat) (m : Message).

(** [asyncio.Future] *)
Inductive Future : Type :=
| FPending
| FResult (m : Message)
| FCancelled.

(** [future.done()] *)
Definition done (f : Future) : bool :=
  match f with FPending => false | FResult _ | FCancelled => true end.

(** A handler is an async callable: awaited on a message, it returns or
    raises. *)
Definition Handler : Type := Message → Result unit.

Record CommunicationProtocol : Type := mkProtocol {
  network_id : string;
  _handlers : gmap MessageType Handler;
  _pending_responses : gmap string nat;     (* message id ↦ future *)
  _message_queue : list Message;
  _connections : gset string;
  _is_running : bool;
  futures : list Future                      (* the futures created here *)
}.

(** [CommunicationProtocol.__init__] *)
Definition CommunicationProtocol_init (network_id : string)
    : CommunicationProtocol :=
  {| network_id := network_id;
     _handlers := ∅;
     _pending_responses := ∅;
     _message_queue := [];
     _connections := ∅;
     _is_running := false;
     futures := [] |}.

Definition set_handlers (v : gmap MessageType Handler)
    (p : CommunicationProtocol) : CommunicationProtocol :=
  mkProtocol (network_id p) v (_pending_responses p) (_message_queue p)
    (_connections p) (_is_running p) (futures p).

Definition set_pending_responses (v : gmap string nat)
    (p : CommunicationProtocol) : CommunicationProtocol :=
  mkProtocol (network_id p) (_handlers p) v (_message_queue p)
    (_connections p) (_is_running p) (futures p).

Definition set_message_queue (v : list Message)
    (p : CommunicationProtocol) : CommunicationProtocol :=
  mkProtocol (network_id p) (_handlers p) (_pending_responses p) v
    (_connections p) (_is_running p) (futures p).

Definition set_futures (v : list Future)
    (p : CommunicationProtocol) : CommunicationProtocol :=
  mkProtocol (network_id p) (_handlers p) (_pending_responses p)
    (_message_queue p) (_connections p) (_is_running p) v.

Record MessageRouter : Type := mkRouter {
  _networks : gmap string nat;               (* network id ↦ endpoint *)
  _network_capabilities : gmap string (gset string);
  _message_log : list PyDict;
  _max_log_size : Z
}.

(** [MessageRouter.__init__].  The priority queues and the router task are
    left out: no delivery path puts a message on them. *)
Definition MessageRouter_init : MessageRouter :=
  {| _networks := ∅;
     _network_capabilities := ∅;
     _message_log := [];
     _max_log_size := 10000 |}.

Record World : Type := mkWorld {
  protocols : list CommunicationProtocol;
  router : MessageRouter;
  trace : list Event;
  uuid4 : nat → string;      (* the identifiers [uuid.uuid4] will draw *)
  utcnow : nat → datetime;   (* the instants [datetime.utcnow] will read *)
  created : nat              (* messages built by the default factories *)
}.

Definition set_protocols (v : list CommunicationProtocol) (w : World) : World :=
  mkWorld v (router w) (trace w) (uuid4 w) (utcnow w) (created w).

Definition set_router (v : MessageRouter) (w : World) : World :=
  mkWorld (protocols w) v (trace w) (uuid4 w) (utcnow w) (created w).

Definition set_trace (v : list Event) (w : World) : World :=
  mkWorld (protocols w) (router w) v (uuid4 w) (utcnow w) (created w).

Definition set_created (v : nat) (w : World) : World :=
  mkWorld (protocols w) (router w) (trace w) (uuid4 w) (utcnow w) v.

(** A computation on the store that returns or raises. *)
Definition M (A : Type) : Type := World → Result A * World.

#[export] Instance M_ret : MRet M := λ A a w, (Ok a, w).
#[export] Instance M_bind : MBind M := λ A B f m w,
  match m w with
  | (Ok a, w') => f a w'
  | (Raise e, w') => (Raise e, w')
  end.

Definition raise {A} (e : Exception) : M A := λ w, (Raise e, w).

Definition emit (e : Event) : M unit :=
  λ w, (Ok tt, set_trace (trace w ++ [e]) w).

(** Reading and writing the endpoint at an address.  An address outside the
    store denotes no object; no operation creates one. *)
Definition get_protocol (a : nat) : M CommunicationProtocol :=
  λ w, match protocols w !! a with
       | Some p => (Ok p, w)
       | None => (Raise (RuntimeError "no endpoint at this address"), w)
       end.

Definition put_protocol (a : nat) (p : CommunicationProtocol) : M unit :=
  λ w, (Ok tt, set_protocols (<[a := p]> (protocols w)) w).

Definition get_router : M MessageRouter := λ w, (Ok (router w), w).

Definition put_router (r : MessageRouter) : M unit :=
  λ w, (Ok tt, set_router r w).

(** The logger of an endpoint is bound to its [network_id]. *)
Definition protocol_log (self : CommunicationProtocol) (level : LogLevel)
    (event : string) (fields : list (string * PyVal)) : M unit :=
  emit (EvLog level event (("network_id", PStr (network_id self)) :: fields)).

Definition router_log (level : LogLevel) (event : string)
    (fields : list (string * PyVal)) : M unit :=
  emit (EvLog level event fields).

(** [Message(...)] with the default factories: the next identifier and the
    next instant. *)
Definition fresh : M (string * datetime) :=
  λ w, (Ok (uuid4 w (created w), utcnow w (created w)),
        set_created (S (created w)) w).

(** Allocating an endpoint: [CommunicationProtocol(network_id)]. *)
Definition new_protocol (network_id : string) : M nat :=
  λ w, (Ok (length (protocols w)),
        set_protocols (protocols w ++ [CommunicationProtocol_init network_id]) w).

(** ** protocol.py *)

(** [CommunicationProtocol.register_handler] *)
Definition register_handler (a : nat) (ty : MessageType) (handler : Handler)
    : M unit :=
  self ← get_protocol a;
  put_protocol a (set_handlers (<[ty := handler]> (_handlers self)) self);;
  protocol_log self DEBUG "handler_registered"
    [("message_type", PStr (MessageType_value ty))].

(** The test that opens [receive_message]:
    [message.parent_message_id and message.parent_message_id in
    self._pending_responses]; [None] and the empty string are false. *)
Definition pending_future (self : CommunicationProtocol) (message : Message)
    : option (string * nat) :=
  pid ← parent_message_id message;
  if str_truthy pid
  then f ← _pending_responses self !! pid; Some (pid, f)
  else None.

(** [CommunicationProtocol.receive_message] *)
Definition receive_message (a : nat) (message : Message) : M unit :=
  emit (EvReceive a message);;
  self ← get_protocol a;
  protocol_log self INFO "receiving_message"
    [("message_id", PStr (message_id message));
     ("message_type", PStr (MessageType_value (message_type message)));
     ("sender_id", PStr (sender_id message))];;
  match pending_future self message with
  | Some (pid, f) =>
      (* future = self._pending_responses.pop(message.parent_message_id) *)
      let self := set_pending_responses
                    (delete pid (_pending_responses self)) self in
      match futures self !! f with
      | Some future =>
          if negb (done future)
          then put_protocol a
                 (set_futures (<[f := FResult message]> (futures self)) self)
          else put_protocol a self
      | None => raise (RuntimeError "no future at this address")
      end
  | None =>
      match _handlers self !! message_type message with
      | Some handler =>
          emit (EvHandler a message);;
          match handler message with
          | Ok _ => mret tt
          | Raise e =>
              protocol_log self ERROR "handler_error"
                [("message_id", PStr (message_id message));
                 ("message_type",
                  PStr (MessageType_value (message_type message)));
                 ("error", PStr (str_of_exception e));
                 ("exc_info", PBool true)]
          end
      | None =>
          protocol_log self WARNING "no_handler_found"
            [("message_type",
              PStr (MessageType_value (message_type message)))]
      end
  end.

(** While a coroutine is suspended the rest of the program runs.  What it
    does to the endpoints is a list of deliveries, each a call of
    [receive_message] on an endpoint; such a call is made by another task,
    and what it returns or raises does not reach the suspended one. *)
Definition Delivery : Type := nat * Message.

Definition deliver (d : Delivery) : M unit :=
  λ w, (Ok tt, (receive_message d.1 d.2 w).2).

Fixpoint deliver_all (ds : list Delivery) : M unit :=
  match ds with
  | [] => mret tt
  | d :: ds => deliver d;; deliver_all ds
  end.

(** [send_message], from its entry to the point where it suspends; returns
    the message as it has mutated it and the future it will wait for. *)
Definition send_message_begin (a : nat) (message : Message)
    (wait_for_response : bool) : M (Message * option nat) :=
  self ← get_protocol a;
  let message := set_sender_id (network_id self) message in
  protocol_log self INFO "sending_message"
    [("message_id", PStr (message_id message));
     ("message_type", PStr (MessageType_value (message_type message)));
     ("receiver_id", PStr (receiver_id message));
     ("priority", PInt (MessagePriority_value (priority message)))];;
  let '(self, message, response_future) :=
    if wait_for_response
    then
      let f := length (futures self) in
      (set_pending_responses
         (<[message_id message := f]> (_pending_responses self))
         (set_futures (futures self ++ [FPending]) self),
       set_requires_response true message,
       Some f)
    else (self, message, None) in
  put_protocol a
    (set_message_queue (_message_queue self ++ [message]) self);;
  mret (message, response_future).

(** [await asyncio.wait_for(response_future, timeout)]: the deliveries of
    the window happen, then the waiter resumes: with the result if the
    future has one, and otherwise with TimeoutError ([None] here), the
    future having been cancelled by [wait_for].  No delivery and no call
    of [send_message] cancels a future otherwise. *)
Definition wait_for (a f : nat) (window : list Delivery)
    : M (option Message) :=
  deliver_all window;;
  self ← get_protocol a;
  match futures self !! f with
  | Some (FResult response) => mret (Some response)
  | Some _ =>
      put_protocol a
        (set_futures (<[f := FCancelled]> (futures self)) self);;
      mret None
  | None => raise (RuntimeError "no future at this address")
  end.

(** The handler of [asyncio.TimeoutError], up to the test for a retry. *)
Definition send_message_timeout (a : nat) (message : Message) : M unit :=
  self ← get_protocol a;
  protocol_log self WARNING "message_timeout"
    [("message_id", PStr (message_id message))];;
  put_protocol a
    (set_pending_responses
       (delete (message_id message) (_pending_responses self)) self).

(** [CommunicationProtocol.send_message].  [script] lists, for each wait in
    turn, the deliveries that happen during it (none once the script is
    used up).  Returns the response and the message as mutated. *)
Equations? send_message (a : nat) (message : Message)
    (wait_for_response : bool) (script : list (list Delivery)) (w : World)
    : Result (option Message * Message) * World
    by wf (Z.to_nat (max_retries message - retry_count message)) lt :=
  send_message a message wait_for_response script w
    with inspect (send_message_begin a message wait_for_response w) := {
    | exist _ (Raise e, w1) _ => (Raise e, w1)
    | exist _ (Ok (message1, None), w1) _ => (Ok (None, message1), w1)
    | exist _ (Ok (message1, Some f), w1) Hbegin
        with wait_for a f (hd [] script) w1 := {
        | (Raise e, w2) => (Raise e, w2)
        | (Ok (Some response), w2) => (Ok (Some response, message1), w2)
        | (Ok None, w2) with send_message_timeout a message1 w2 := {
            | (Raise e, w3) => (Raise e, w3)
            | (Ok _, w3) with inspect (should_retry message1) := {
                | exist _ true Hretry =>
                    send_message a (increment_retry message1)
                      wait_for_response (tl script) w3
                | exist _ false _ => (Ok (None, message1), w3) } } } }.
Proof.
  assert (retry_count message1 = retry_count message
          ∧ max_retries message1 = max_retries message) as [Hrc Hmr].
  { revert Hbegin. unfold send_message_begin, get_protocol, protocol_log, emit,
      put_protocol, mbind, M_bind, mret, M_ret; simpl.
    destruct (protocols w !! a); [|done].
    destruct wait_for_response; intros [= <- _ _]; done. }
  apply bool_decide_eq_true in Hretry. unfold increment_retry. simpl. lia.
Qed.

(** ** router.py *)

Definition set_message_log (v : list PyDict) (r : MessageRouter)
    : MessageRouter :=
  mkRouter (_networks r) (_network_capabilities r) v (_max_log_size r).

(** [MessageRouter.register_network] *)
Definition register_network (network_id : string) (protocol : nat)
    (capabilities : gset string) : M unit :=
  r ← get_router;
  put_router
    (mkRouter (<[network_id := protocol]> (_networks r))
       (<[network_id := capabilities]> (_network_capabilities r))
       (_message_log r) (_max_log_size r));;
  router_log INFO "network_registered"
    [("network_id", PStr network_id);
     ("capabilities", PList (PStr <$> elements capabilities))].

(** [MessageRouter.unregister_network] *)
Definition unregister_network (network_id : string) : M unit :=
  r ← get_router;
  put_router
    (mkRouter (delete network_id (_networks r))
       (delete network_id (_network_capabilities r))
       (_message_log r) (_max_log_size r));;
  router_log INFO "network_unregistered" [("network_id", PStr network_id)].

(** [MessageRouter.find_networks_by_capability] *)
Definition find_networks_by_capability (r : MessageRouter)
    (capability : string) : list string :=
  (filter (λ item : string * gset string, capability ∈ item.2)
     (map_to_list (_network_capabilities r))).*1.

(** [l[i:]] *)
Definition slice_from {A} (i : Z) (l : list A) : list A :=
  let n := Z.of_nat (length l) in
  let start := if (i <? 0)%Z then Z.max (n + i) 0 else Z.min i n in
  drop (Z.to_nat start) l.

(** [MessageRouter._log_message] *)
Definition _log_message (message : Message) : M unit :=
  r ← get_router;
  let log := _message_log r ++ [to_dict message] in
  let log :=
    if bool_decide (Z.of_nat (length log) > _max_log_size r)%Z
    then slice_from (- _max_log_size r) log
    else log in
  put_router (set_message_log log r).

(** The loop of [_broadcast]: one copy for every registered network other
    than the sender. *)
Fixpoint broadcast_tasks (message : Message) (items : list (string * nat))
    : M (list Delivery) :=
  match items with
  | [] => mret []
  | (network_id, protocol) :: items =>
      if bool_decide (network_id ≠ sender_id message)
      then
        '(uid, now) ← fresh;
        let msg :=
          {| message_id := uid;
             message_type := message_type message;
             sender_id := sender_id message;
             receiver_id := network_id;
             priority := priority message;
             timestamp := now;
             payload := payload message;
             metadata := metadata message;
             parent_message_id := None;
             requires_response := false;
             timeout_seconds := float_30;
             retry_count := 0;
             max_retries := 3 |} in
        tasks ← broadcast_tasks message items;
        mret ((protocol, msg) :: tasks)
      else broadcast_tasks message items
  end.

(** [MessageRouter._broadcast].  [asyncio.gather] with
    [return_exceptions=True] starts the calls of [receive_message] in the
    order of the list and keeps what each returns or raises to itself; a
    handler being a black box, each call runs to its end. *)
Definition _broadcast (message : Message) : M unit :=
  r ← get_router;
  tasks ← broadcast_tasks message (map_to_list (_networks r));
  match tasks with
  | [] => mret tt
  | _ => deliver_all tasks
  end.

(** [MessageRouter.route_message] *)
Definition route_message (message : Message) : M bool :=
  _log_message message;;
  if negb (str_truthy (receiver_id message))
  then _broadcast message;; mret true
  else
    r ← get_router;
    match _networks r !! receiver_id message with
    | None =>
        router_log WARNING "receiver_not_found"
          [("message_id", PStr (message_id message));
           ("receiver_id", PStr (receiver_id message))];;
        mret false
    | Some protocol => receive_message protocol message;; mret true
    end.

(** The loop of [route_by_capability] that builds the requests. *)
Fixpoint capability_tasks (r : MessageRouter) (message : Message)
    (network_ids : list string) : M (list (nat * Message)) :=
  match network_ids with
  | [] => mret []
  | network_id :: network_ids =>
      protocol ← match _networks r !! network_id with
                 | Some protocol => mret protocol
                 | None => raise (KeyError network_id)
                 end;
      '(uid, now) ← fresh;
      let msg :=
        {| message_id := uid;
           message_type := message_type message;
           sender_id := sender_id message;
           receiver_id := network_id;
           priority := priority message;
           timestamp := now;
           payload := payload message;
           metadata := metadata message;
           parent_message_id := Some (message_id message);
           requires_response := true;
           timeout_seconds := float_30;
           retry_count := 0;
           max_retries := 3 |} in
      tasks ← capability_tasks r message network_ids;
      mret ((protocol, msg) :: tasks)
  end.

(** *** [asyncio.gather] over calls of [send_message]

    The requests of one fan-out are built with the same timeout and are
    started together, so their waits begin and end together: the tasks
    advance in rounds.  In a round the deliveries of one window happen,
    then every task that is still waiting resumes, in the order of the
    list.  A task is [send_message] cut at its suspension point. *)
Inductive Task : Type :=
| Waiting (a : nat) (message : Message) (f : nat)
| Finished (r : Result (option Message)).

Definition is_finished (t : Task) : bool :=
  match t with Finished _ => true | Waiting _ _ _ => false end.

(** With [return_exceptions=True] what a task raises becomes its result. *)
Definition task_start (a : nat) (message : Message) (w : World)
    : Task * World :=
  match send_message_begin a message true w with
  | (Ok (message1, Some f), w1) => (Waiting a message1 f, w1)
  | (Ok (message1, None), w1) => (Finished (Ok None), w1)
  | (Raise e, w1) => (Finished (Raise e), w1)
  end.

Definition task_resume (t : Task) (w : World) : Task * World :=
  match t with
  | Finished _ => (t, w)
  | Waiting a message f =>
      match wait_for a f [] w with
      | (Raise e, w2) => (Finished (Raise e), w2)
      | (Ok (Some response), w2) => (Finished (Ok (Some response)), w2)
      | (Ok None, w2) =>
          match send_message_timeout a message w2 with
          | (Raise e, w3) => (Finished (Raise e), w3)
          | (Ok _, w3) =>
              if should_retry message
              then task_start a (increment_retry message) w3
              else (Finished (Ok None), w3)
          end
      end
  end.

Fixpoint start_all (ts : list (nat * Message)) (w : World)
    : list Task * World :=
  match ts with
  | [] => ([], w)
  | (a, message) :: ts =>
      let '(t, w1) := task_start a message w in
      let '(ts', w2) := start_all ts w1 in
      (t :: ts', w2)
  end.

Fixpoint resume_all (ts : list Task) (w : World) : list Task * World :=
  match ts with
  | [] => ([], w)
  | t :: ts =>
      let '(t', w1) := task_resume t w in
      let '(ts', w2) := resume_all ts w1 in
      (t' :: ts', w2)
  end.

(** The waits a task may still go through. *)
Definition task_budget (t : Task) : nat :=
  match t with
  | Finished _ => 0
  | Waiting _ message _ =>
      S (Z.to_nat (max_retries message - retry_count message))
  end.

Definition tasks_budget (ts : list Task) : nat :=
  foldr (λ t n, task_budget t + n) 0 ts.

Definition task_result (t : Task) : Result (option Message) :=
  match t with
  | Finished r => r
  | Waiting _ _ _ => Ok None
  end.

(** Resuming never adds to the budget, and takes from it when a task was
    waiting: the rounds of [gather_loop] come to an end. *)
Lemma send_message_begin_retries a message wait w message1 fut w1 :
  send_message_begin a message wait w = (Ok (message1, fut), w1) →
  retry_count message1 = retry_count message
  ∧ max_retries message1 = max_retries message.
Proof.
  unfold send_message_begin, protocol_log, get_protocol, emit, put_protocol,
    mbind, M_bind, mret, M_ret; simpl.
  destruct (protocols w !! a); [|done].
  destruct wait; intros [= <- _ _]; done.
Qed.

Lemma task_start_budget a message w :
  task_budget (task_start a message w).1
  ≤ S (Z.to_nat (max_retries message - retry_count message)).
Proof.
  unfold task_start.
  destruct (send_message_begin a message true w) as [[[m1 [f|]]|e] w1] eqn:Hb;
    simpl; try lia.
  apply send_message_begin_retries in Hb as [-> ->]. lia.
Qed.

Lemma task_resume_budget t w :
  task_budget (task_resume t w).1 ≤ task_budget t
  ∧ (is_finished t = false → task_budget (task_resume t w).1 < task_budget t).
Proof.
  destruct t as [a message f|r]; simpl; [|split; [lia|done]].
  destruct (wait_for a f [] w) as [[[response|]|e] w2]; simpl; try lia.
  destruct (send_message_timeout a message w2) as [[[]|e] w3]; simpl; try lia.
  destruct (should_retry message) eqn:Hretry; simpl; [|lia].
  apply bool_decide_eq_true in Hretry.
  pose proof (task_start_budget a (increment_retry message) w3) as Hs.
  change (max_retries (increment_retry message))
    with (max_retries message) in Hs.
  change (retry_count (increment_retry message))
    with (retry_count message + 1)%Z in Hs.
  lia.
Qed.

Lemma resume_all_budget ts w :
  tasks_budget (resume_all ts w).1 ≤ tasks_budget ts
  ∧ (forallb is_finished ts = false →
     tasks_budget (resume_all ts w).1 < tasks_budget ts).
Proof.
  revert w. induction ts as [|t ts IH]; intros w; simpl; [split; [lia|done]|].
  pose proof (task_resume_budget t w) as [Ht Ht'].
  destruct (task_resume t w) as [t' w1]; simpl in *.
  specialize (IH w1) as [IH IH'].
  destruct (resume_all ts w1) as [ts' w2]; simpl in *.
  split; [lia|]. intros [Hf|Hf]%andb_false_iff.
  - specialize (Ht' Hf). lia.
  - specialize (IH' Hf). lia.
Qed.

(** The rounds, until every task has finished. *)
Equations? gather_loop (ts : list Task) (script : list (list Delivery))
    (w : World) : list (Result (option Message)) * World
    by wf (tasks_budget ts) lt :=
  gather_loop ts script w with inspect (forallb is_finished ts) := {
    | exist _ true _ => (task_result <$> ts, w)
    | exist _ false Hwaiting =>
        gather_loop (resume_all ts (deliver_all (hd [] script) w).2).1
          (tl script) (resume_all ts (deliver_all (hd [] script) w).2).2 }.
Proof. by apply resume_all_budget. Qed.

(** [await asyncio.gather] of the tasks, with [return_exceptions=True], over calls of
    [send_message(msg, wait_for_response=True)]. *)
Definition gather_send (ts : list (nat * Message))
    (script : list (list Delivery)) : M (list (Result (option Message))) :=
  λ w, let '(tasks, w1) := start_all ts w in
       let '(responses, w2) := gather_loop tasks script w1 in
       (Ok responses, w2).

(** [r is not None and not isinstance(r, Exception)] *)
Definition valid_response (r : Result (option Message)) : option Message :=
  match r with
  | Ok (Some response) => Some response
  | Ok None | Raise _ => None
  end.

(** [MessageRouter.route_by_capability] *)
Definition route_by_capability (message : Message) (capability : string)
    (script : list (list Delivery)) : M (list Message) :=
  r ← get_router;
  let network_ids := find_networks_by_capability r capability in
  match network_ids with
  | [] =>
      router_log WARNING "no_networks_with_capability"
        [("capability", PStr capability)];;
      mret []
  | _ =>
      tasks ← capability_tasks r message network_ids;
      responses ← gather_send tasks script;
      mret (omap valid_response responses)
  end.

(** ** The public operations of the router, as a history *)

Inductive RouterCall : Type :=
| CallRegister (network_id : string) (protocol : nat)
    (capabilities : gset string)
| CallUnregister (network_id : string)
| CallRouteMessage (message : Message)
| CallRouteByCapability (message : Message) (capability : string)
    (script : list (list Delivery)).

Definition run_call (c : RouterCall) (w : World) : World :=
  match c with
  | CallRegister network_id protocol capabilities =>
      (register_network network_id protocol capabilities w).2
  | CallUnregister network_id => (unregister_network network_id w).2
  | CallRouteMessage message => (route_message message w).2
  | CallRouteByCapability message capability script =>
      (route_by_capability message capability script w).2
  end.

Definition run_calls (cs : list RouterCall) (w : World) : World :=
  foldl (λ w c, run_call c w) w cs.

(** The messages handed to [route_message], in the order of arrival. *)
Definition arrivals (cs : list RouterCall) : list Message :=
  omap (λ c, match c with CallRouteMessage m => Some m | _ => None end) cs.

(** The [n] most recent elements of a list. *)
Definition last_n {A} (n : nat) (l : list A) : list A :=
  drop (length l - n) l.

(** A call that the program can make: an endpoint that is registered
    exists. *)
Definition valid_call (w : World) (c : RouterCall) : Prop :=
  match c with
  | CallRegister _ protocol _ => protocol < length (protocols w)
  | _ => True
  end.

(** ** The vocabulary of the statements

    The entries the operations write to the log, what a trace records,
    the answers to a request, and what each step of [send_message] and
    [receive_message] does to the endpoint it runs on. *)

(** The entries [receive_message] writes to the log. *)
Definition receiving_message_entry (self : CommunicationProtocol)
    (message : Message) : Event :=
  EvLog INFO "receiving_message"
    [("network_id", PStr (network_id self));
     ("message_id", PStr (message_id message));
     ("message_type", PStr (MessageType_value (message_type message)));
     ("sender_id", PStr (sender_id message))].

Definition handler_error_entry (self : CommunicationProtocol)
    (message : Message) (e : Exception) : Event :=
  EvLog ERROR "handler_error"
    [("network_id", PStr (network_id self));
     ("message_id", PStr (message_id message));
     ("message_type", PStr (MessageType_value (message_type message)));
     ("error", PStr (str_of_exception e));
     ("exc_info", PBool true)].

Definition no_handler_entry (self : CommunicationProtocol)
    (message : Message) : Event :=
  EvLog WARNING "no_handler_found"
    [("network_id", PStr (network_id self));
     ("message_type", PStr (MessageType_value (message_type message)))].

Definition sending_message_entry (p : CommunicationProtocol) (m : Message)
    : Event :=
  EvLog INFO "sending_message"
    [("network_id", PStr (network_id p));
     ("message_id", PStr (message_id m));
     ("message_type", PStr (MessageType_value (message_type m)));
     ("receiver_id", PStr (receiver_id m));
     ("priority", PInt (MessagePriority_value (priority m)))].

Definition message_timeout_entry (p : CommunicationProtocol) (m : Message)
    : Event :=
  EvLog WARNING "message_timeout"
    [("network_id", PStr (network_id p));
     ("message_id", PStr (message_id m))].

Definition no_networks_entry (capability : string) : Event :=
  EvLog WARNING "no_networks_with_capability"
    [("capability", PStr capability)].

(** The calls of [receive_message] and of handlers that a trace records. *)
Definition received (tr : list Event) : list Delivery :=
  omap (λ e, match e with EvReceive a m => Some (a, m) | _ => None end) tr.

Definition handled (tr : list Event) : list Delivery :=
  omap (λ e, match e with EvHandler a m => Some (a, m) | _ => None end) tr.

(** The delivery [d] brings, to the endpoint [a], a response to the request
    whose identifier is [uid]. *)
Definition answers (a : nat) (uid : string) (d : Delivery) : Prop :=
  d.1 = a ∧ parent_message_id d.2 = Some uid.

#[export] Instance answers_dec a uid d : Decision (answers a uid d).
Proof. unfold answers. apply _. Defined.

(** The first such response in a sequence of windows. *)
Definition first_answer (a : nat) (uid : string)
    (windows : list (list Delivery)) : option Message :=
  snd <$> head (filter (answers a uid) (concat windows)).

(** What [receive_message] does to the endpoint it is called on. *)
Definition receive_effect (m : Message) (p : CommunicationProtocol)
    : CommunicationProtocol :=
  match pending_future p m with
  | Some (pid, f) =>
      match futures p !! f with
      | Some fut =>
          set_futures
            (if done fut then futures p else <[f := FResult m]> (futures p))
            (set_pending_responses (delete pid (_pending_responses p)) p)
      | None => p
      end
  | None => p
  end.

(** What the first part of [send_message] does to the message and to the
    endpoint, when the caller waits for the response. *)
Definition begin_message (p : CommunicationProtocol) (m : Message) : Message :=
  set_requires_response true (set_sender_id (network_id p) m).

Definition begin_effect (m : Message) (p : CommunicationProtocol)
    : CommunicationProtocol :=
  set_message_queue (_message_queue p ++ [begin_message p m])
    (set_pending_responses
       (<[message_id m := length (futures p)]> (_pending_responses p))
       (set_futures (futures p ++ [FPending]) p)).

(** What a timeout does to the endpoint: [wait_for] cancels the future and
    the handler of the timeout removes the entry. *)
Definition cancel_effect (f : nat) (p : CommunicationProtocol)
    : CommunicationProtocol :=
  set_futures (<[f := FCancelled]> (futures p)) p.

Definition timeout_effect (uid : string) (p : CommunicationProtocol)
    : CommunicationProtocol :=
  set_pending_responses (delete uid (_pending_responses p)) p.

(** The copy [_broadcast] builds for the network [network_id]. *)
Definition broadcast_copy (message : Message) (network_id uid : string)
    (now : datetime) : Message :=
  {| message_id := uid;
     message_type := message_type message;
     sender_id := sender_id message;
     receiver_id := network_id;
     priority := priority message;
     timestamp := now;
     payload := payload message;
     metadata := metadata message;
     parent_message_id := None;
     requires_response := false;
     timeout_seconds := float_30;
     retry_count := 0;
     max_retries := 3 |}.

(** The copies for a list of registry items, the [n]-th draw of the
    factories being the next one. *)
Fixpoint broadcast_copies (uuid : nat → string) (now : nat → datetime)
    (message : Message) (n : nat) (items : list (string * nat))
    : list Delivery :=
  match items with
  | [] => []
  | (network_id, protocol) :: items =>
      if bool_decide (network_id ≠ sender_id message)
      then (protocol,
            broadcast_copy message network_id (uuid n) (now n))
           :: broadcast_copies uuid now message (S n) items
      else broadcast_copies uuid now message n items
  end.

(** The request [route_by_capability] builds for the network
    [network_id]; its retry budget is that of a new message: four
    attempts. *)
Definition capability_request (message : Message) (network_id uid : string)
    (now : datetime) : Message :=
  {| message_id := uid;
     message_type := message_type message;
     sender_id := sender_id message;
     receiver_id := network_id;
     priority := priority message;
     timestamp := now;
     payload := payload message;
     metadata := metadata message;
     parent_message_id := Some (message_id message);
     requires_response := true;
     timeout_seconds := float_30;
     retry_count := 0;
     max_retries := 3 |}.

(** The requests for a list of network ids, each with the endpoint it is
    sent from, the [n]-th draw of the factories being the next one. *)
Fixpoint capability_requests (r : MessageRouter) (uuid : nat → string)
    (now : nat → datetime) (message : Message) (n : nat)
    (network_ids : list string) : list (nat * Message) :=
  match network_ids with
  | [] => []
  | network_id :: network_ids =>
      match _networks r !! network_id with
      | Some protocol =>
          [(protocol,
            capability_request message network_id (uuid n) (now n))]
      | None => []
      end ++ capability_requests r uuid now message (S n) network_ids
  end.


(** What a caller of [send_message] gets, as [asyncio.gather] with
    [return_exceptions=True] reports it. *)
Definition gathered (r : Result (option Message * Message))
    : Result (option Message) :=
  match r with
  | Ok (response, _) => Ok response
  | Raise e => Raise e
  end.

(** ** Invariants

    A store is well formed when every future named by a table of pending
    responses exists, every endpoint named by the registry exists, the two
    maps of the registry have the same keys, and the capacity of the audit
    log is the one [__init__] sets. *)

(** The futures that the pending table of [p] names exist. *)
Definition protocol_wf (p : CommunicationProtocol) : Prop :=
  map_Forall (λ _ f, f < length (futures p)) (_pending_responses p).

Definition world_wf (w : World) : Prop :=
  map_Forall (λ _ a, a < length (protocols w)) (_networks (router w))
  ∧ Forall protocol_wf (protocols w)
  ∧ dom (_networks (router w)) = dom (_network_capabilities (router w))
  ∧ _max_log_size (router w) = 10000%Z.

Definition futures_wf (w : World) : Prop := Forall protocol_wf (protocols w).

(** The endpoint [p] holds the correlation [uid] with the future [f], which
    is still pending and is the future of no other correlation. *)
Definition holds_pending (uid : string) (f : nat)
    (p : CommunicationProtocol) : Prop :=
  _pending_responses p !! uid = Some f
  ∧ futures p !! f = Some FPending
  ∧ ∀ k, _pending_responses p !! k = Some f → k = uid.

(** The future [f] of the endpoint [p] has the result [r]. *)
Definition holds_result (f : nat) (r : Message)
    (p : CommunicationProtocol) : Prop :=
  futures p !! f = Some (FResult r).

Definition at_endpoint (w : World) (a : nat)
    (Q : CommunicationProtocol → Prop) : Prop :=
  ∃ p, protocols w !! a = Some p ∧ Q p.

(** The endpoint [p'] has the name and the queue of [p]. *)
Definition same_outbox (p p' : CommunicationProtocol) : Prop :=
  network_id p' = network_id p ∧ _message_queue p' = _message_queue p.

(** A step from [w] to [w'] that belongs to the request [uid] of the
    endpoint [a] leaves the other correlations as they are, keeps the
    results that futures have, and keeps the store well formed. *)
Definition preserves (a : nat) (uid : string) (w w' : World) : Prop :=
  (∀ a2 uid2 f2, (a2 = a → uid2 ≠ uid) →
     at_endpoint w a2 (holds_pending uid2 f2) →
     at_endpoint w' a2 (holds_pending uid2 f2))
  ∧ (∀ a2 f2 r,
       at_endpoint w a2 (holds_result f2 r) →
       at_endpoint w' a2 (holds_result f2 r))
  ∧ (futures_wf w → futures_wf w')
  ∧ length (protocols w') = length (protocols w).

(** A step keeps the endpoints in place and the store well formed. *)
Definition store_ok (w w' : World) : Prop :=
  length (protocols w') = length (protocols w)
  ∧ (futures_wf w → futures_wf w').

(** The correlation a waiting task stands for. *)
Definition task_key (t : Task) : option (nat * string) :=
  match t with
  | Waiting a m _ => Some (a, message_id m)
  | Finished _ => None
  end.

(** A waiting task between two rounds: its correlation is pending. *)
Definition task_inv (w : World) (t : Task) : Prop :=
  match t with
  | Waiting a m f =>
      message_id m ≠ "" ∧ at_endpoint w a (holds_pending (message_id m) f)
  | Finished _ => True
  end.

(** A waiting task after the deliveries of a window: its future has the
    first answer of the window, or its correlation is still pending. *)
Definition task_post (w : World) (window : list Delivery) (t : Task) : Prop :=
  match t with
  | Waiting a m f =>
      message_id m ≠ ""
      ∧ match first_answer a (message_id m) [window] with
        | Some r => at_endpoint w a (holds_result f r)
        | None => at_endpoint w a (holds_pending (message_id m) f)
        end
  | Finished _ => True
  end.

(** What resuming makes of a task after a window. *)
Definition resumed (window : list Delivery) (t t' : Task) : Prop :=
  match t with
  | Finished r => t' = Finished r
  | Waiting a m f =>
      match first_answer a (message_id m) [window] with
      | Some r => t' = Finished (Ok (Some r))
      | None =>
          if should_retry m
          then ∃ m' f',
              t' = Waiting a m' f'
              ∧ message_id m' = message_id m
              ∧ retry_count m' = (retry_count m + 1)%Z
              ∧ max_retries m' = max_retries m
          else t' = Finished (Ok None)
      end
  end.

(** What a task comes to under a script: the first answer within the
    waits it may still go through. *)
Definition task_outcome (script : list (list Delivery)) (t : Task)
    : Result (option Message) :=
  match t with
  | Finished r => r
  | Waiting a m f =>
      Ok (first_answer a (message_id m) (take (task_budget t) script))
  end.

Definition keys (ts : list Task) : list (nat * string) := omap task_key ts.

(** ** Sample data for the examples *)

(** A sample envelope for the examples. *)
Definition sample_message : Message :=
  {| message_id := "m-1"; message_type := DATA_REQUEST;
     sender_id := "alpha"; receiver_id := "beta"; priority := HIGH;
     timestamp := mkdatetime 2024 2 29 23 59 7 123;
     payload := {[ "q" := PStr "ping" ]}; metadata := ∅;
     parent_message_id := None; requires_response := false;
     timeout_seconds := float_30; retry_count := 0; max_retries := 3 |}.

Definition sample_uuid4 (n : nat) : string := "uuid-" +:+ pretty n.
Definition sample_utcnow (n : nat) : datetime :=
  mkdatetime 2024 1 1 0 0 (N.of_nat n) 0.

Definition world_init : World :=
  {| protocols := [];
     router := MessageRouter_init;
     trace := [];
     uuid4 := sample_uuid4;
     utcnow := sample_utcnow;
     created := 0 |}.

(** Two agents with the capability "search", and one without. *)
Definition sample_world : World :=
  let w := world_init in
  let w := (new_protocol "A" w).2 in
  let w := (new_protocol "B" w).2 in
  let w := (new_protocol "C" w).2 in
  let w := (register_network "A" 0 {[ "search" ]} w).2 in
  let w := (register_network "B" 1 {[ "search"; "plan" ]} w).2 in
  let w := (register_network "C" 2 {[ "plan" ]} w).2 in
  w.

(** An endpoint with one pending request ["req-1"] and two handlers, one of
    which fails. *)
Definition sample_protocol : CommunicationProtocol :=
  {| network_id := "A";
     _handlers := {[ DATA_REQUEST := (λ _, Raise (ValueError "boom"));
                     HEARTBEAT := (λ _, Ok tt) ]};
     _pending_responses := {[ "req-1" := 0 ]};
     _message_queue := [];
     _connections := ∅;
     _is_running := true;
     futures := [FPending] |}.

Definition sample_protocol_world : World :=
  set_protocols [sample_protocol] world_init.

Definition sample_response : Message :=
  {| message_id := "m-2"; message_type := QUERY_RESPONSE;
     sender_id := "beta"; receiver_id := "A"; priority := HIGH;
     timestamp := mkdatetime 2024 2 29 23 59 8 0;
     payload := {[ "a" := PStr "pong" ]}; metadata := ∅;
     parent_message_id := Some "req-1"; requires_response := false;
     timeout_seconds := float_30; retry_count := 0; max_retries := 3 |}.

(** An endpoint that sends a request whose [message_id] is the empty
    string and waits for the response: a state the operations reach. *)
Definition empty_id_request : Message :=
  {| message_id := ""; message_type := DATA_REQUEST;
     sender_id := ""; receiver_id := "beta"; priority := NORMAL;
     timestamp := mkdatetime 2024 2 29 23 59 7 0;
     payload := ∅; metadata := ∅;
     parent_message_id := None; requires_response := false;
     timeout_seconds := float_30; retry_count := 0; max_retries := 3 |}.

Definition empty_id_world : World :=
  let w := world_init in
  let w := (new_protocol "A" w).2 in
  let w := (register_handler 0 QUERY_RESPONSE (λ _, Ok tt) w).2 in
  (send_message_begin 0 empty_id_request true w).2.

Definition empty_id_response : Message :=
  {| message_id := "m-3"; message_type := QUERY_RESPONSE;
     sender_id := "beta"; receiver_id := "A"; priority := NORMAL;
     timestamp := mkdatetime 2024 2 29 23 59 8 0;
     payload := ∅; metadata := ∅;
     parent_message_id := Some ""; requires_response := false;
     timeout_seconds := float_30; retry_count := 0; max_retries := 3 |}.

Definition broadcast_sample : Message :=
  {| message_id := "m-4"; message_type := HEARTBEAT;
     sender_id := "A"; receiver_id := ""; priority := LOW;
     timestamp := mkdatetime 2024 2 29 23 59 9 0;
     payload := ∅; metadata := ∅;
     parent_message_id := None; requires_response := false;
     timeout_seconds := float_30; retry_count := 0; max_retries := 3 |}.

Definition search_request : Message :=
  {| message_id := "q-1"; message_type := SUB_QUERY;
     sender_id := "master"; receiver_id := ""; priority := NORMAL;
     timestamp := mkdatetime 2024 3 1 12 0 0 0;
     payload := {[ "q" := PStr "what" ]}; metadata := ∅;
     parent_message_id := None; requires_response := false;
     timeout_seconds := float_30; retry_count := 0; max_retries := 3 |}.

(** The answer of endpoint [a] to the request [uid]. *)
Definition search_answer (a : nat) (uid body : string) : Delivery :=
  (a, {| message_id := "r-" +:+ uid; message_type := QUERY_RESPONSE;
         sender_id := "worker"; receiver_id := "master"; priority := NORMAL;
         timestamp := mkdatetime 2024 3 1 12 0 1 0;
         payload := {[ "a" := PStr body ]}; metadata := ∅;
         parent_message_id := Some uid; requires_response := false;
         timeout_seconds := float_30; retry_count := 0; max_retries := 3 |}).


(** * The rest of the code

    What follows covers the operations of [core/communication] that the
    design document does not single out, and, of [core/base_network], the
    state manager, the capability registry and the table of
    sub-networks. *)

(** ** message.py: the keys [from_dict] reads with [data[key]] *)

Definition required_keys : list string :=
  ["message_id"; "message_type"; "sender_id"; "receiver_id"; "priority";
   "timestamp"; "payload"].

(** ** protocol.py: broadcast and the life cycle of an endpoint *)

Definition set_is_running (v : bool) (p : CommunicationProtocol)
    : CommunicationProtocol :=
  mkProtocol (network_id p) (_handlers p) (_pending_responses p)
    (_message_queue p) (_connections p) v (futures p).

(** [CommunicationProtocol.broadcast_message]: the receiver is set to the
    empty string and the message is sent without waiting, so the call
    does not suspend.  Returns the message as mutated. *)
Definition broadcast_message (a : nat) (message : Message) (w : World)
    : Result Message * World :=
  match send_message a (set_receiver_id "" message) false [] w with
  | (Ok (_, message1), w1) => (Ok message1, w1)
  | (Raise e, w1) => (Raise e, w1)
  end.

(** [CommunicationProtocol.start].  The task it creates runs
    [_process_messages] below; what the model keeps of it is the flag
    [_is_running], which the loop tests. *)
Definition start (a : nat) : M unit :=
  self ← get_protocol a;
  if _is_running self then mret tt
  else
    put_protocol a (set_is_running true self);;
    protocol_log self INFO "protocol_started" [].

(** [if not future.done(): future.cancel()] on the future at [f]. *)
Definition cancel_pending (fs : list Future) (f : nat) : list Future :=
  match fs !! f with
  | Some future => if done future then fs else <[f := FCancelled]> fs
  | None => fs
  end.

(** [CommunicationProtocol.stop].  It suspends once, where it awaits the
    cancelled task; [window] lists the deliveries that happen meanwhile.
    Then it cancels the futures the pending table names and clears the
    table.  A coroutine that waits on a future cancelled here is resumed
    with CancelledError, which is outside the model: the statements about
    [stop] describe the endpoint it leaves behind. *)
Definition stop (a : nat) (window : list Delivery) : M unit :=
  self ← get_protocol a;
  if negb (_is_running self) then mret tt
  else
    put_protocol a (set_is_running false self);;
    deliver_all window;;
    self ← get_protocol a;
    let fs := foldl cancel_pending (futures self)
                (map_to_list (_pending_responses self)).*2 in
    put_protocol a (set_futures fs (set_pending_responses ∅ self));;
    protocol_log self INFO "protocol_stopped" [].

(** [CommunicationProtocol._process_messages], for the [n] iterations of
    its loop that the scheduler lets it make: an iteration takes the
    message at the head of the queue and logs it, or, the queue being
    empty, ends by the timeout of [wait_for] and goes on; the loop ends
    when [_is_running] is false. *)
Fixpoint _process_messages (a : nat) (n : nat) : M unit :=
  match n with
  | 0 => mret tt
  | S n =>
      self ← get_protocol a;
      if _is_running self
      then
        match _message_queue self with
        | [] => _process_messages a n
        | message :: queue =>
            put_protocol a (set_message_queue queue self);;
            protocol_log self DEBUG "message_processed"
              [("message_id", PStr (message_id message))];;
            _process_messages a n
        end
      else mret tt
  end.

(** What the deliveries that happen while [stop] is suspended keep of the
    endpoint [p] it was called on: the flag is down; the futures that
    were done are as they were; a future that the pending table named
    is done, or the table still names it. *)
Definition stopping (p p2 : CommunicationProtocol) : Prop :=
  _is_running p2 = false
  ∧ _handlers p2 = _handlers p
  ∧ _message_queue p2 = _message_queue p
  ∧ length (futures p2) = length (futures p)
  ∧ protocol_wf p2
  ∧ (∀ f fut, futures p !! f = Some fut → done fut = true →
       futures p2 !! f = Some fut)
  ∧ (∀ uid f, _pending_responses p !! uid = Some f →
       (∃ fut, futures p2 !! f = Some fut ∧ done fut = true)
       ∨ (∃ uid', _pending_responses p2 !! uid' = Some f)).

(** The entry [_process_messages] writes to the log for a message. *)
Definition message_processed_entry (p : CommunicationProtocol) (m : Message)
    : Event :=
  EvLog DEBUG "message_processed"
    [("network_id", PStr (network_id p)); ("message_id", PStr (message_id m))].

(** ** router.py: what a step shows to the endpoints

    A step from [w] to [w'] is quiet when it calls [receive_message] on
    no endpoint and invokes no handler. *)
Definition quiet (w w' : World) : Prop :=
  received (trace w') = received (trace w)
  ∧ handled (trace w') = handled (trace w).

(** ** Properties that every endpoint keeps

    A step from [w] to [w'] keeps the property [Q] of endpoints when [Q]
    holds of every endpoint of [w'] if it holds of every endpoint of
    [w]. *)
Definition keeps (Q : CommunicationProtocol → Prop) (w w' : World) : Prop :=
  Forall Q (protocols w) → Forall Q (protocols w').

(** Every message on the queue of the endpoint names the endpoint as its
    sender. *)
Definition stamped (p : CommunicationProtocol) : Prop :=
  Forall (λ m, sender_id m = network_id p) (_message_queue p).

(** ** network_state.py: the states of a network and their manager *)

Module network_state.

Inductive StateType : Type :=
| INITIALIZING | IDLE | PROCESSING | WAITING | ERROR | SHUTDOWN | OFFLINE
| MAINTENANCE.

Definition StateType_value (s : StateType) : string :=
  match s with
  | INITIALIZING => "initializing"
  | IDLE => "idle"
  | PROCESSING => "processing"
  | WAITING => "waiting"
  | ERROR => "error"
  | SHUTDOWN => "shutdown"
  | OFFLINE => "offline"
  | MAINTENANCE => "maintenance"
  end.

#[export] Instance StateType_eq_dec : EqDecision StateType.
Proof. solve_decision. Defined.

(** [timestamp] is drawn by [datetime.utcnow] where a state is built; the
    operations below take it as [now]. *)
Record NetworkState : Type := mkNetworkState {
  network_id : string;
  state_type : StateType;
  timestamp : datetime;
  message : string;
  context : PyDict;
  previous_state : option StateType;
  error_info : option PyDict
}.

(** [NetworkState.to_dict]; a member of an [Enum] is true, so
    [previous_state] is written as its value unless it is [None]. *)
Definition to_dict (self : NetworkState) : PyDict :=
  list_to_map [
    ("network_id", PStr (network_id self));
    ("state_type", PStr (StateType_value (state_type self)));
    ("timestamp", PStr (isoformat (timestamp self)));
    ("message", PStr (message self));
    ("context", PDict (context self));
    ("previous_state",
     match previous_state self with
     | Some s => PStr (StateType_value s)
     | None => PNone
     end);
    ("error_info",
     match error_info self with Some d => PDict d | None => PNone end) ].

(** The three properties of a state. *)
Definition is_operational (self : NetworkState) : bool :=
  bool_decide (state_type self ∈ [IDLE; PROCESSING; WAITING]).

Definition is_available (self : NetworkState) : bool :=
  bool_decide (state_type self = IDLE).

Definition requires_attention (self : NetworkState) : bool :=
  bool_decide (state_type self ∈ [ERROR; MAINTENANCE]).

Record StateManager : Type := mkStateManager {
  manager_id : string;                    (* [self.network_id] *)
  _current_state : NetworkState;
  _state_history : list NetworkState;
  _max_history : Z
}.

(** [StateManager.__init__] *)
Definition StateManager_init (network_id : string) (now : datetime)
    : StateManager :=
  {| manager_id := network_id;
     _current_state :=
       mkNetworkState network_id OFFLINE now "" ∅ None None;
     _state_history := [];
     _max_history := 100 |}.

(** The first lines of [transition_to] and of [set_error]: the current
    state goes to the history, and [pop(0)] removes the oldest entry when
    the history has grown beyond [_max_history]. *)
Definition push_history (self : StateManager) : list NetworkState :=
  let history := _state_history self ++ [_current_state self] in
  if bool_decide (Z.of_nat (length history) > _max_history self)%Z
  then drop 1 history
  else history.

(** [StateManager.transition_to]; [context or {}] replaces [None] and the
    empty dict by a new empty dict.  Returns the new state and the
    manager. *)
Definition transition_to (self : StateManager) (new_state : StateType)
    (message : string) (context : option PyDict) (now : datetime)
    : NetworkState * StateManager :=
  let state :=
    {| network_id := manager_id self;
       state_type := new_state;
       timestamp := now;
       message := message;
       context := match context with
                  | Some d => if dict_truthy d then d else ∅
                  | None => ∅
                  end;
       previous_state := Some (state_type (_current_state self));
       error_info := None |} in
  (state,
   mkStateManager (manager_id self) state (push_history self)
     (_max_history self)).

(** [StateManager.set_error] *)
Definition set_error (self : StateManager) (message : string)
    (error_info : option PyDict) (now : datetime)
    : NetworkState * StateManager :=
  let state :=
    {| network_id := manager_id self;
       state_type := ERROR;
       timestamp := now;
       message := message;
       context := ∅;
       previous_state := Some (state_type (_current_state self));
       error_info := error_info |} in
  (state,
   mkStateManager (manager_id self) state (push_history self)
     (_max_history self)).

(** The properties [current_state] and [state_history] (a copy of the
    list). *)
Definition current_state (self : StateManager) : NetworkState :=
  _current_state self.

Definition state_history (self : StateManager) : list NetworkState :=
  _state_history self.

(** [StateManager.get_last_n_states]:
    [self._state_history[-n:] if n > 0 else []]. *)
Definition get_last_n_states (self : StateManager) (n : Z)
    : list NetworkState :=
  if bool_decide (n > 0)%Z then slice_from (- n) (_state_history self)
  else [].

(** The calls that change a manager, as a history. *)
Inductive StateCall : Type :=
| CallTransitionTo (new_state : StateType) (message : string)
    (context : option PyDict) (now : datetime)
| CallSetError (message : string) (error_info : option PyDict)
    (now : datetime).

Definition run_call (c : StateCall) (self : StateManager) : StateManager :=
  match c with
  | CallTransitionTo new_state message context now =>
      (transition_to self new_state message context now).2
  | CallSetError message error_info now =>
      (set_error self message error_info now).2
  end.

Definition run_calls (cs : list StateCall) (self : StateManager)
    : StateManager :=
  foldl (λ self c, run_call c self) self cs.

(** The states a manager leaves, one per call, oldest first. *)
Fixpoint left_states (cs : list StateCall) (self : StateManager)
    : list NetworkState :=
  match cs with
  | [] => []
  | c :: cs => _current_state self :: left_states cs (run_call c self)
  end.

(** Each state of the list names the type of the state before it as its
    [previous_state]. *)
Definition linked (l : list NetworkState) : Prop :=
  ∀ i s s',
    l !! i = Some s → l !! S i = Some s' →
    previous_state s' = Some (state_type s).

End network_state.

(** ** network_capability.py: the capability registry *)

Module network_capability.

Inductive CapabilityType : Type :=
| NLP_PROCESSING | VISION_PROCESSING | AUDIO_PROCESSING | TEXT_GENERATION
| IMAGE_GENERATION | LOGICAL_REASONING | CAUSAL_INFERENCE
| PATTERN_RECOGNITION | ABSTRACT_REASONING | ANALOGICAL_REASONING
| SEMANTIC_SEARCH | KNOWLEDGE_RETRIEVAL | CONCEPT_LINKING | MEMORY_STORAGE
| FACT_VERIFICATION | IDEA_GENERATION | HYPOTHESIS_FORMATION
| CREATIVE_SYNTHESIS | BRAINSTORMING | NOVELTY_DETECTION
| PERFORMANCE_MONITORING | QUALITY_ASSESSMENT | ANOMALY_DETECTION
| EFFICIENCY_ANALYSIS | QUERY_ROUTING | RESULT_AGGREGATION
| CONFLICT_RESOLUTION | RESOURCE_ALLOCATION
| NATURAL_LANGUAGE_UNDERSTANDING | EMOTIONAL_INTELLIGENCE
| CONTEXT_MANAGEMENT | DIALOGUE_MANAGEMENT.

Definition CapabilityType_value (t : CapabilityType) : string :=
  match t with
  | NLP_PROCESSING => "nlp_processing"
  | VISION_PROCESSING => "vision_processing"
  | AUDIO_PROCESSING => "audio_processing"
  | TEXT_GENERATION => "text_generation"
  | IMAGE_GENERATION => "image_generation"
  | LOGICAL_REASONING => "logical_reasoning"
  | CAUSAL_INFERENCE => "causal_inference"
  | PATTERN_RECOGNITION => "pattern_recognition"
  | ABSTRACT_REASONING => "abstract_reasoning"
  | ANALOGICAL_REASONING => "analogical_reasoning"
  | SEMANTIC_SEARCH => "semantic_search"
  | KNOWLEDGE_RETRIEVAL => "knowledge_retrieval"
  | CONCEPT_LINKING => "concept_linking"
  | MEMORY_STORAGE => "memory_storage"
  | FACT_VERIFICATION => "fact_verification"
  | IDEA_GENERATION => "idea_generation"
  | HYPOTHESIS_FORMATION => "hypothesis_formation"
  | CREATIVE_SYNTHESIS => "creative_synthesis"
  | BRAINSTORMING => "brainstorming"
  | NOVELTY_DETECTION => "novelty_detection"
  | PERFORMANCE_MONITORING => "performance_monitoring"
  | QUALITY_ASSESSMENT => "quality_assessment"
  | ANOMALY_DETECTION => "anomaly_detection"
  | EFFICIENCY_ANALYSIS => "efficiency_analysis"
  | QUERY_ROUTING => "query_routing"
  | RESULT_AGGREGATION => "result_aggregation"
  | CONFLICT_RESOLUTION => "conflict_resolution"
  | RESOURCE_ALLOCATION => "resource_allocation"
  | NATURAL_LANGUAGE_UNDERSTANDING => "natural_language_understanding"
  | EMOTIONAL_INTELLIGENCE => "emotional_intelligence"
  | CONTEXT_MANAGEMENT => "context_management"
  | DIALOGUE_MANAGEMENT => "dialogue_management"
  end.

Record NetworkCapability : Type := mkNetworkCapability {
  capability_type : CapabilityType;
  name : string;
  description : string;
  version : string;
  confidence_score : spec_float;
  processing_time_ms : spec_float;
  accuracy_score : spec_float;
  supported_inputs : gset string;
  supported_outputs : gset string;
  dependencies : gset string;
  metadata : PyDict
}.

(** [CapabilityRegistry]: the capabilities registered for each type, in
    the order of registration, and the types each network provides. *)
Record CapabilityRegistry : Type := mkCapabilityRegistry {
  _capabilities : gmap string (list NetworkCapability);
  _network_capabilities : gmap string (gset string)
}.

(** [CapabilityRegistry.__init__] *)
Definition CapabilityRegistry_init : CapabilityRegistry :=
  {| _capabilities := ∅; _network_capabilities := ∅ |}.

(** [CapabilityRegistry.register_capability] *)
Definition register_capability (self : CapabilityRegistry)
    (network_id : string) (capability : NetworkCapability)
    : CapabilityRegistry :=
  let capability_key := CapabilityType_value (capability_type capability) in
  {| _capabilities :=
       <[capability_key :=
           default [] (_capabilities self !! capability_key)
           ++ [capability]]> (_capabilities self);
     _network_capabilities :=
       <[network_id :=
           default ∅ (_network_capabilities self !! network_id)
           ∪ {[ capability_key ]}]> (_network_capabilities self) |}.

(** [cap.metadata.get("network_id") != network_id]: a value is equal to
    the identifier only when it is that string. *)
Definition not_tagged (network_id : string) (cap : NetworkCapability)
    : bool :=
  match metadata cap !! "network_id" with
  | Some (PStr s) => negb (String.eqb s network_id)
  | _ => true
  end.

(** The body of the loop of [unregister_network], for one key. *)
Definition remove_tagged (network_id : string)
    (capabilities : gmap string (list NetworkCapability)) (cap_key : string)
    : gmap string (list NetworkCapability) :=
  match capabilities !! cap_key with
  | Some caps =>
      <[cap_key := filter (λ cap, not_tagged network_id cap = true) caps]>
        capabilities
  | None => capabilities
  end.

(** [CapabilityRegistry.unregister_network] *)
Definition unregister_network (self : CapabilityRegistry)
    (network_id : string) : CapabilityRegistry :=
  match _network_capabilities self !! network_id with
  | Some capabilities =>
      {| _capabilities :=
           foldl (remove_tagged network_id) (_capabilities self)
             (elements capabilities);
         _network_capabilities := delete network_id (_network_capabilities self)
      |}
  | None => self
  end.

(** [CapabilityRegistry.get_network_capabilities] *)
Definition get_network_capabilities (self : CapabilityRegistry)
    (network_id : string) : gset string :=
  default ∅ (_network_capabilities self !! network_id).

(** [CapabilityRegistry.get_all_capability_types] *)
Definition get_all_capability_types (self : CapabilityRegistry)
    : list string :=
  (map_to_list (_capabilities self)).*1.

End network_capability.

(** ** network_interface.py: a network and its sub-networks

    [BaseNetwork] is abstract; what it implements itself for its table of
    sub-networks is modelled here.  Networks are objects that refer to
    each other, so they live in a heap and are named by their address;
    each has a metadata object of its own.
    [start] and [stop] run code of the subclasses and are left out, as
    are the counters. *)

Module network_interface.

Inductive NetworkType : Type :=
| MASTER | DEPARTMENT | SPECIALIST | INNOVATION | QUALITY_CONTROL.

Record NetworkMetadata : Type := mkNetworkMetadata {
  network_id : string;
  name : string;
  network_type : NetworkType;
  version : string;
  created_at : datetime;
  updated_at : datetime;
  parent_id : option string;
  department : option string;
  description : string;
  capabilities : gset string;
  tags : gset string
}.

Definition set_parent_id (v : option string) (md : NetworkMetadata)
    : NetworkMetadata :=
  mkNetworkMetadata (network_id md) (name md) (network_type md) (version md)
    (created_at md) (updated_at md) v (department md) (description md)
    (capabilities md) (tags md).

Record BaseNetwork : Type := mkBaseNetwork {
  metadata : NetworkMetadata;
  _sub_networks : gmap string nat;          (* network id ↦ network *)
  _is_active : bool;
  _performance_metrics : gmap string spec_float;
  _request_count : Z;
  _error_count : Z;
  _last_active : option datetime
}.

(** [BaseNetwork.__init__] *)
Definition BaseNetwork_init (metadata : NetworkMetadata) : BaseNetwork :=
  {| metadata := metadata;
     _sub_networks := ∅;
     _is_active := false;
     _performance_metrics := ∅;
     _request_count := 0;
     _error_count := 0;
     _last_active := None |}.

Definition set_metadata (v : NetworkMetadata) (n : BaseNetwork)
    : BaseNetwork :=
  mkBaseNetwork v (_sub_networks n) (_is_active n) (_performance_metrics n)
    (_request_count n) (_error_count n) (_last_active n).

Definition set_sub_networks (v : gmap string nat) (n : BaseNetwork)
    : BaseNetwork :=
  mkBaseNetwork (metadata n) v (_is_active n) (_performance_metrics n)
    (_request_count n) (_error_count n) (_last_active n).

(** The heap of networks and the log. *)
Record Networks : Type := mkNetworks {
  heap : list BaseNetwork;
  log : list Event
}.

(** The logger of a network is bound to its identifier and its name. *)
Definition network_log (n : BaseNetwork) (event : string)
    (fields : list (string * PyVal)) : Event :=
  EvLog INFO event
    (("network_id", PStr (network_id (metadata n)))
     :: ("network_name", PStr (name (metadata n))) :: fields).

(** [BaseNetwork.register_sub_network]; [None] when an address names no
    object.  The sub-network is read again after the table has been
    written: a network may be registered under itself. *)
Definition register_sub_network (self network : nat) (s : Networks)
    : option Networks :=
  this ← heap s !! self;
  sub ← heap s !! network;
  let h1 :=
    <[self := set_sub_networks
                (<[network_id (metadata sub) := network]>
                   (_sub_networks this)) this]> (heap s) in
  sub1 ← h1 !! network;
  let h2 :=
    <[network := set_metadata
                   (set_parent_id (Some (network_id (metadata this)))
                      (metadata sub1)) sub1]> h1 in
  Some
    (mkNetworks h2
       (log s
        ++ [network_log this "sub_network_registered"
              [("sub_network_id", PStr (network_id (metadata sub)));
               ("sub_network_name", PStr (name (metadata sub)))]])).

(** [BaseNetwork.unregister_sub_network]: the network that was registered
    under the identifier, if any; an object of the class is true. *)
Definition unregister_sub_network (self : nat) (network_id : string)
    (s : Networks) : option (option nat * Networks) :=
  this ← heap s !! self;
  match _sub_networks this !! network_id with
  | Some network =>
      Some
        (Some network,
         mkNetworks
           (<[self := set_sub_networks
                        (delete network_id (_sub_networks this)) this]>
              (heap s))
           (log s
            ++ [network_log this "sub_network_unregistered"
                  [("sub_network_id", PStr network_id);
                   ("reason", PStr "manual_unregister")]]))
  | None => Some (None, s)
  end.

(** [BaseNetwork.get_sub_network] and [BaseNetwork.get_sub_networks] *)
Definition get_sub_network (self : nat) (network_id : string)
    (s : Networks) : option (option nat) :=
  this ← heap s !! self;
  Some (_sub_networks this !! network_id).

Definition get_sub_networks (self : nat) (s : Networks)
    : option (list nat) :=
  this ← heap s !! self;
  Some (map_to_list (_sub_networks this)).*2.

End network_interface.


(** * Properties *)

(** ** The enumerations and the timestamp *)

Lemma MessageType_of_value_value t :
  MessageType_of_value (MessageType_value t) = Some t.
Proof. by destruct t. Qed.

Lemma MessagePriority_of_value_value p :
  MessagePriority_of_value (MessagePriority_value p) = Some p.
Proof. by destruct p. Qed.

Example isoformat_ex1 :
  isoformat (mkdatetime 2024 2 29 23 59 7 0) = "2024-02-29T23:59:07".
Proof. reflexivity. Qed.

Example isoformat_ex2 :
  isoformat (mkdatetime 987 12 1 0 0 0 4200) = "0987-12-01T00:00:00.004200".
Proof. reflexivity. Qed.

Example fromisoformat_ex1 :
  fromisoformat "2024-02-29 23:59:07.000123"
  = Some (mkdatetime 2024 2 29 23 59 7 123).
Proof. reflexivity. Qed.

Example fromisoformat_ex2 : fromisoformat "2023-02-29T23:59:07" = None.
Proof. reflexivity. Qed.

Lemma char_digit_digit_char d : (d < 10)%N → char_digit (digit_char d) = Some d.
Proof.
  intros Hd. unfold char_digit, digit_char.
  rewrite N_ascii_embedding by lia.
  replace ((48 <=? 48 + d) && (48 + d <=? 57))%N with true.
  - f_equal. lia.
  - symmetry. apply andb_true_iff. split; apply N.leb_le; lia.
Qed.

Lemma append_String c s r : String c s +:+ r = String c (s +:+ r).
Proof. reflexivity. Qed.

Lemma append_EmptyString r : "" +:+ r = r.
Proof. reflexivity. Qed.

Lemma append_nil_r s : s +:+ "" = s.
Proof. induction s as [|c s IH]; [done|]. by rewrite append_String, IH. Qed.

Lemma read_digits_zfill w n acc rest :
  read_digits w acc (zfill w n +:+ rest)
  = Some ((acc * 10 ^ N.of_nat w + n mod 10 ^ N.of_nat w)%N, rest).
Proof.
  revert acc. induction w as [|w IH]; intros acc.
  - simpl. rewrite N.mod_1_r. do 2 f_equal. lia.
  - cbn [zfill read_digits]. rewrite append_String.
    rewrite char_digit_digit_char by (apply N.mod_upper_bound; lia).
    cbn [mbind option_bind]. rewrite IH. do 2 f_equal.
    rewrite Nat2N.inj_succ, N.pow_succ_r'.
    set (p := (10 ^ N.of_nat w)%N).
    assert (Hp : (0 < p)%N) by (apply N.neq_0_lt_0, N.pow_nonzero; lia).
    rewrite (N.mul_comm 10 p), N.Div0.mod_mul_r. lia.
Qed.

Lemma read_digits_zfill_small w n rest :
  (n < 10 ^ N.of_nat w)%N →
  read_digits w 0 (zfill w n +:+ rest) = Some (n, rest).
Proof.
  intros Hn. rewrite read_digits_zfill, N.mod_small by done. by rewrite N.mul_0_l.
Qed.

Lemma fromisoformat_isoformat d :
  valid_datetime d = true → fromisoformat (isoformat d) = Some d.
Proof.
  intros Hv. pose proof Hv as Hv'. unfold valid_datetime in Hv'.
  repeat (apply andb_true_iff in Hv' as [Hv' ?]).
  repeat match goal with
         | H : (_ <=? _)%N = true |- _ => apply N.leb_le in H
         | H : (_ <? _)%N = true |- _ => apply N.ltb_lt in H
         end.
  assert (Hdim : (days_in_month (year d) (month d) <= 31)%N).
  { unfold days_in_month. repeat case_match; lia. }
  destruct d as [y mo dd h mi se us]; simpl in *.
  unfold fromisoformat, isoformat; cbn [year month day hour minute second microsecond].
  pose proof Hv as Hv''. clear Hv.
  repeat first
    [ rewrite read_digits_zfill_small by (simpl; lia); cbn [mbind option_bind]
    | rewrite append_String, append_EmptyString; cbn [read_char read_any];
      rewrite ?decide_True by done; cbn [mbind option_bind] ].
  destruct (N.eqb_spec us 0) as [->|Hus].
  - cbn [mbind option_bind str_truthy]. by rewrite Hv''.
  - cbn [read_char]. rewrite decide_True by done. cbn [mbind option_bind].
    rewrite <- (append_nil_r (zfill 6 us)).
    rewrite read_digits_zfill_small by (simpl; lia).
    cbn [mbind option_bind str_truthy]. by rewrite Hv''.
Qed.

Example from_dict_to_dict_sample :
  from_dict (to_dict sample_message) = Ok sample_message.
Proof. vm_compute. reflexivity. Qed.

Example from_dict_missing_required :
  from_dict (delete "payload" (to_dict sample_message))
  = Raise (KeyError "payload").
Proof. vm_compute. reflexivity. Qed.

(** ** The envelope *)

Lemma to_dict_lookup (m : Message) :
  to_dict m !! "message_id" = Some (PStr (message_id m))
  ∧ to_dict m !! "message_type"
    = Some (PStr (MessageType_value (message_type m)))
  ∧ to_dict m !! "sender_id" = Some (PStr (sender_id m))
  ∧ to_dict m !! "receiver_id" = Some (PStr (receiver_id m))
  ∧ to_dict m !! "priority"
    = Some (PInt (MessagePriority_value (priority m)))
  ∧ to_dict m !! "timestamp" = Some (PStr (isoformat (timestamp m)))
  ∧ to_dict m !! "payload" = Some (PDict (payload m))
  ∧ to_dict m !! "metadata" = Some (PDict (metadata m))
  ∧ to_dict m !! "parent_message_id"
    = Some (PyVal_of_optstr (parent_message_id m))
  ∧ to_dict m !! "requires_response" = Some (PBool (requires_response m))
  ∧ to_dict m !! "timeout_seconds" = Some (PFloat (timeout_seconds m))
  ∧ to_dict m !! "retry_count" = Some (PInt (retry_count m))
  ∧ to_dict m !! "max_retries" = Some (PInt (max_retries m)).
Proof. repeat split; reflexivity. Qed.

Lemma lookup_without_keys (ks : list string) (data : PyDict) (k : string) :
  without_keys ks data !! k = if decide (k ∈ ks) then None else data !! k.
Proof.
  unfold without_keys. induction ks as [|k' ks IH]; cbn [foldr].
  - rewrite decide_False; [done|]. by intros ?%elem_of_nil.
  - destruct (decide (k' = k)) as [->|Hne].
    + rewrite lookup_delete_eq, decide_True; [done|]. by left.
    + rewrite lookup_delete_ne, IH by done.
      destruct (decide (k ∈ ks)) as [Hin|Hnin].
      * rewrite decide_True; [done|]. by right.
      * rewrite decide_False; [done|].
        intros [?|?]%elem_of_cons; [congruence|done].
Qed.

Lemma required_key_kept (ks : list string) (k : string) :
  ks ⊆ optional_keys → k ∉ optional_keys → k ∉ ks.
Proof. intros Hks Hk Hin. by apply Hk, Hks. Qed.

Lemma from_dict_without_keys (m : Message) (ks : list string) :
  valid_datetime (timestamp m) = true →
  ks ⊆ optional_keys →
  from_dict (without_keys ks (to_dict m)) = Ok (with_defaults ks m).
Proof.
  intros Hts Hks.
  destruct (to_dict_lookup m)
    as (Hid & Hty & Hs & Hr & Hp & Hti & Hpl & Hmd & Hpar & Hrr & Htmo & Hrc & Hmr).
  assert (Hreq : ∀ k, k ∉ optional_keys →
            without_keys ks (to_dict m) !! k = to_dict m !! k).
  { intros k Hk. rewrite lookup_without_keys, decide_False; [done|].
    by apply required_key_kept. }
  unfold from_dict, getitem, dict_get.
  rewrite (Hreq "message_id"), (Hreq "message_type"), (Hreq "sender_id"),
    (Hreq "receiver_id"), (Hreq "priority"), (Hreq "timestamp"),
    (Hreq "payload"), Hid, Hty, Hs, Hr, Hp, Hti, Hpl
    by (unfold optional_keys; rewrite !not_elem_of_cons;
        repeat split; (discriminate || apply not_elem_of_nil)).
  cbn [mbind Result_bind as_str as_dict MessageType_call MessagePriority_call
       fromisoformat_call].
  rewrite MessageType_of_value_value, MessagePriority_of_value_value,
    fromisoformat_isoformat by done.
  rewrite !lookup_without_keys, Hmd, Hpar, Hrr, Htmo, Hrc, Hmr.
  unfold with_defaults.
  repeat case_decide; destruct (parent_message_id m); reflexivity.
Qed.

(** C8. [m.create_response(p)] is a new message of the response type whose
    [parent_message_id] is [m.message_id], whose sender is [m]'s receiver
    and whose receiver is [m]'s sender: it is addressed back to the sender
    of the request.  This holds for every message, payload and metadata,
    whatever identifier and instant the default factories draw. *)
Theorem create_response_correlates (m : Message) (uid : string)
    (now : datetime) (p : PyDict) (md : option PyDict) :
  let r := create_response m uid now p md in
  parent_message_id r = Some (message_id m)
  ∧ sender_id r = receiver_id m
  ∧ receiver_id r = sender_id m
  ∧ message_type r = QUERY_RESPONSE
  ∧ payload r = p
  ∧ message_id r = uid.
Proof. by repeat split. Qed.

(** C9. Take a serialised message, [m.to_dict()], and leave out any of the
    optional keys metadata, parent_message_id, requires_response,
    timeout_seconds, retry_count, max_retries, the required keys being
    kept.  [Message.from_dict] succeeds on it, and the message it builds
    has the fields of [m], with [{}], [None], [False], [30.0], [0] and [3]
    in the fields whose key was left out. *)
Theorem from_dict_fills_defaults (m : Message) (ks : list string) :
  valid_datetime (timestamp m) = true →
  ks ⊆ optional_keys →
  ∃ m', from_dict (without_keys ks (to_dict m)) = Ok m'
    ∧ (message_id m', message_type m', sender_id m', receiver_id m')
      = (message_id m, message_type m, sender_id m, receiver_id m)
    ∧ (priority m', timestamp m', payload m')
      = (priority m, timestamp m, payload m)
    ∧ metadata m' = (if decide ("metadata" ∈ ks) then ∅ else metadata m)
    ∧ parent_message_id m'
      = (if decide ("parent_message_id" ∈ ks) then None
         else parent_message_id m)
    ∧ requires_response m'
      = (if decide ("requires_response" ∈ ks) then false
         else requires_response m)
    ∧ timeout_seconds m'
      = (if decide ("timeout_seconds" ∈ ks) then float_30
         else timeout_seconds m)
    ∧ retry_count m'
      = (if decide ("retry_count" ∈ ks) then 0%Z else retry_count m)
    ∧ max_retries m'
      = (if decide ("max_retries" ∈ ks) then 3%Z else max_retries m).
Proof.
  intros Hts Hks. exists (with_defaults ks m).
  rewrite from_dict_without_keys by done. by repeat split.
Qed.

Lemma from_dict_fills_defaults_witness :
  valid_datetime (timestamp sample_message) = true
  ∧ optional_keys ⊆ optional_keys
  ∧ ∃ m', from_dict (without_keys optional_keys (to_dict sample_message))
          = Ok m'
    ∧ metadata m' = ∅ ∧ parent_message_id m' = None
    ∧ requires_response m' = false ∧ timeout_seconds m' = float_30
    ∧ retry_count m' = 0%Z ∧ max_retries m' = 3%Z.
Proof.
  split; [reflexivity|]. split; [done|].
  destruct (from_dict_fills_defaults sample_message optional_keys)
    as (m' & Hm' & _ & _ & Hmd & Hpar & Hrr & Htmo & Hrc & Hmr);
    [reflexivity|done|].
  exists m'. repeat split; [done|..].
  - rewrite Hmd. reflexivity.
  - rewrite Hpar. reflexivity.
  - rewrite Hrr. reflexivity.
  - rewrite Htmo. reflexivity.
  - rewrite Hrc. reflexivity.
  - rewrite Hmr. reflexivity.
Defined.

(** C10. For every message [m] (its timestamp a [datetime], within the
    ranges the constructor enforces), [Message.from_dict(m.to_dict())]
    succeeds and returns a message equal to [m] in every field. *)
Theorem from_dict_to_dict (m : Message) :
  valid_datetime (timestamp m) = true →
  from_dict (to_dict m) = Ok m.
Proof.
  intros Hts.
  pose proof (from_dict_without_keys m [] Hts) as H.
  simpl in H. rewrite H by apply list_subseteq_nil.
  by destruct m.
Qed.

Lemma from_dict_to_dict_witness :
  valid_datetime (timestamp sample_message) = true
  ∧ from_dict (to_dict sample_message) = Ok sample_message.
Proof.
  split; [reflexivity|]. apply (from_dict_to_dict sample_message). reflexivity.
Defined.

(** ** Reasoning about computations on the store *)

Ltac unfold_M :=
  unfold protocol_log, router_log in *;
  unfold mbind, M_bind, mret, M_ret, raise, emit, get_protocol, put_protocol,
    get_router, put_router, fresh in *.

Ltac crush_M :=
  unfold_M; simpl in *;
  repeat (case_match; simpl in *; simplify_eq); try done.

Lemma deliver_all_cons_eq d ds w :
  deliver_all (d :: ds) w = deliver_all ds (receive_message d.1 d.2 w).2.
Proof. done. Qed.

#[local] Arguments receive_message : simpl never.
#[local] Arguments send_message_begin : simpl never.
#[local] Arguments wait_for : simpl never.
#[local] Arguments send_message_timeout : simpl never.
#[local] Arguments _log_message : simpl never.
#[local] Arguments _broadcast : simpl never.
#[local] Arguments route_message : simpl never.
#[local] Arguments route_by_capability : simpl never.
#[local] Arguments deliver_all : simpl never.
#[local] Arguments task_start : simpl never.
#[local] Arguments gather_send : simpl never.

Lemma bind_eq {A B} (c : M A) (k : A → M B) (w : World) :
  (c ≫= k) w
  = match c w with
    | (Ok a, w') => k a w'
    | (Raise e, w') => (Raise e, w')
    end.
Proof. done. Qed.

Lemma ret_eq {A} (a : A) (w : World) : (mret a : M A) w = (Ok a, w).
Proof. done. Qed.

(** The endpoints' operations leave the router alone. *)
Lemma receive_message_router a m w :
  router (receive_message a m w).2 = router w.
Proof. unfold receive_message. crush_M. Qed.

Lemma deliver_all_router ds w : router (deliver_all ds w).2 = router w.
Proof.
  revert w. induction ds as [|d ds IH]; intros w; [done|].
  by rewrite deliver_all_cons_eq, IH, receive_message_router.
Qed.

Lemma send_message_begin_router a m wait w :
  router (send_message_begin a m wait w).2 = router w.
Proof. unfold send_message_begin. crush_M. Qed.

Lemma wait_for_router a f ds w : router (wait_for a f ds w).2 = router w.
Proof.
  unfold wait_for. unfold mbind at 1, M_bind at 1.
  pose proof (deliver_all_router ds w) as Hd.
  destruct (deliver_all ds w) as [[[]|e] w1]; simpl in *; [|done].
  rewrite <- Hd. crush_M.
Qed.

Lemma send_message_timeout_router a m w :
  router (send_message_timeout a m w).2 = router w.
Proof. unfold send_message_timeout. crush_M. Qed.

Lemma task_start_router a m w : router (task_start a m w).2 = router w.
Proof.
  unfold task_start. pose proof (send_message_begin_router a m true w).
  by repeat case_match; simplify_eq.
Qed.

Lemma task_resume_router t w : router (task_resume t w).2 = router w.
Proof.
  destruct t as [a m f|r]; [|done]. simpl.
  pose proof (wait_for_router a f [] w).
  destruct (wait_for a f [] w) as [[[?|]|?] w2]; simpl in *; try done.
  pose proof (send_message_timeout_router a m w2).
  destruct (send_message_timeout a m w2) as [[[]|?] w3]; simpl in *;
    [|congruence].
  destruct (should_retry m); simpl; [|congruence].
  rewrite task_start_router. congruence.
Qed.

Lemma start_all_router ts w : router (start_all ts w).2 = router w.
Proof.
  revert w. induction ts as [|[a m] ts IH]; intros w; [done|]. simpl.
  pose proof (task_start_router a m w).
  destruct (task_start a m w) as [t w1]. specialize (IH w1).
  destruct (start_all ts w1) as [ts' w2]. simpl in *. congruence.
Qed.

Lemma resume_all_router ts w : router (resume_all ts w).2 = router w.
Proof.
  revert w. induction ts as [|t ts IH]; intros w; [done|]. simpl.
  pose proof (task_resume_router t w).
  destruct (task_resume t w) as [t' w1]. specialize (IH w1).
  destruct (resume_all ts w1) as [ts' w2]. simpl in *. congruence.
Qed.

Lemma gather_loop_router ts script w :
  router (gather_loop ts script w).2 = router w.
Proof.
  funelim (gather_loop ts script w); [done|].
  match goal with IH : router _ = _ |- _ => rewrite IH end.
  by rewrite resume_all_router, deliver_all_router.
Qed.

Lemma gather_send_router ts script w :
  router (gather_send ts script w).2 = router w.
Proof.
  unfold gather_send. pose proof (start_all_router ts w).
  destruct (start_all ts w) as [tasks w1].
  pose proof (gather_loop_router tasks script w1).
  destruct (gather_loop tasks script w1) as [rs w2]. simpl in *. congruence.
Qed.

Lemma capability_tasks_router r m ids w :
  router (capability_tasks r m ids w).2 = router w.
Proof.
  revert w. induction ids as [|id ids IH]; intros w; [done|].
  cbn [capability_tasks]. unfold_M. simpl.
  destruct (_networks r !! id); simpl; [|done].
  specialize (IH (set_created (S (created w)) w)).
  destruct (capability_tasks r m ids _) as [[?|?] ?]; simpl in *; done.
Qed.

Lemma broadcast_tasks_router m items w :
  router (broadcast_tasks m items w).2 = router w.
Proof.
  revert w. induction items as [|[id a] items IH]; intros w; [done|].
  cbn [broadcast_tasks]. case_bool_decide; [|done]. unfold_M. simpl.
  specialize (IH (set_created (S (created w)) w)).
  destruct (broadcast_tasks m items _) as [[?|?] ?]; simpl in *; done.
Qed.

Lemma _broadcast_router m w : router (_broadcast m w).2 = router w.
Proof.
  unfold _broadcast. unfold_M. simpl.
  pose proof (broadcast_tasks_router m (map_to_list (_networks (router w))) w).
  destruct (broadcast_tasks m _ w) as [[tasks|?] w1]; simpl in *; [|done].
  destruct tasks; [done|]. by rewrite deliver_all_router.
Qed.

Lemma route_by_capability_router m cap script w :
  router (route_by_capability m cap script w).2 = router w.
Proof.
  unfold route_by_capability. unfold mbind at 1, M_bind at 1, get_router at 1.
  destruct (find_networks_by_capability (router w) cap) as [|id ids]; [done|].
  unfold mbind at 1, M_bind at 1.
  pose proof (capability_tasks_router (router w) m (id :: ids) w).
  destruct (capability_tasks (router w) m (id :: ids) w) as [[tasks|?] w1];
    simpl in *; [|done].
  unfold mbind, M_bind.
  pose proof (gather_send_router tasks script w1).
  destruct (gather_send tasks script w1) as [[?|?] w2]; simpl in *; congruence.
Qed.

(** ** The audit log *)

Lemma slice_from_neg {A} (cap : Z) (l : list A) :
  (0 < cap)%Z → slice_from (- cap) l = last_n (Z.to_nat cap) l.
Proof.
  intros Hcap. unfold slice_from, last_n.
  replace (- cap <? 0)%Z with true by (symmetry; apply Z.ltb_lt; lia).
  f_equal. lia.
Qed.

Lemma last_n_all {A} (n : nat) (l : list A) : length l ≤ n → last_n n l = l.
Proof. intros Hl. unfold last_n. by replace (length l - n) with 0 by lia. Qed.

Lemma length_last_n {A} (n : nat) (l : list A) :
  length (last_n n l) = length l `min` n.
Proof. unfold last_n. rewrite length_drop. lia. Qed.

Lemma last_n_snoc {A} (n : nat) (l : list A) (x : A) :
  0 < n → last_n n (last_n n l ++ [x]) = last_n n (l ++ [x]).
Proof.
  intros Hn. unfold last_n.
  rewrite !length_app, length_drop. simpl.
  destruct (decide (length l ≤ n)) as [Hle|Hgt].
  - replace (length l - n) with 0 by lia. simpl. do 2 f_equal. lia.
  - rewrite !drop_app_le by (rewrite ?length_drop; lia).
    rewrite drop_drop. do 3 f_equal. lia.
Qed.

(** What [_log_message] does to the router. *)
Lemma _log_message_eq m w :
  (0 < _max_log_size (router w))%Z →
  _log_message m w
  = (Ok tt,
     set_router
       (set_message_log
          (last_n (Z.to_nat (_max_log_size (router w)))
             (_message_log (router w) ++ [to_dict m]))
          (router w)) w).
Proof.
  intros Hcap. unfold _log_message. unfold_M. simpl. do 3 f_equal.
  case_bool_decide as Hlen.
  - by apply slice_from_neg.
  - symmetry. apply last_n_all. lia.
Qed.

Lemma route_message_router m w :
  router (route_message m w).2 = router (_log_message m w).2.
Proof.
  unfold route_message. unfold mbind at 1, M_bind at 1.
  destruct (_log_message m w) as [[[]|?] w1] eqn:Hlog; simpl; [|done].
  destruct (str_truthy (receiver_id m)); simpl.
  - unfold_M. simpl. destruct (_networks (router w1) !! receiver_id m); simpl; [|done].
    pose proof (receive_message_router n m w1).
    by destruct (receive_message n m w1) as [[[]|?] ?].
  - unfold mbind, M_bind. pose proof (_broadcast_router m w1).
    by destruct (_broadcast m w1) as [[[]|?] ?].
Qed.

Lemma run_call_router c w :
  (0 < _max_log_size (router w))%Z →
  _max_log_size (router (run_call c w)) = _max_log_size (router w)
  ∧ _message_log (router (run_call c w))
    = match c with
      | CallRouteMessage m =>
          last_n (Z.to_nat (_max_log_size (router w)))
            (_message_log (router w) ++ [to_dict m])
      | _ => _message_log (router w)
      end.
Proof.
  intros Hcap. destruct c; simpl.
  - done.
  - done.
  - by rewrite route_message_router, _log_message_eq.
  - by rewrite route_by_capability_router.
Qed.

Lemma run_calls_log cs w hist :
  (0 < _max_log_size (router w))%Z →
  _message_log (router w) = last_n (Z.to_nat (_max_log_size (router w))) hist →
  _max_log_size (router (run_calls cs w)) = _max_log_size (router w)
  ∧ _message_log (router (run_calls cs w))
    = last_n (Z.to_nat (_max_log_size (router w)))
        (hist ++ (to_dict <$> arrivals cs)).
Proof.
  revert w hist. induction cs as [|c cs IH]; intros w hist Hcap Hlog.
  - simpl. by rewrite app_nil_r.
  - cbn [run_calls foldl]. fold (run_calls cs (run_call c w)).
    destruct (run_call_router c w Hcap) as [Hsize Hstep].
    destruct (IH (run_call c w)
                (hist ++ match c with
                         | CallRouteMessage m => [to_dict m]
                         | _ => []
                         end)) as [IH1 IH2].
    + by rewrite Hsize.
    + rewrite Hsize, Hstep, Hlog.
      destruct c; rewrite ?app_nil_r; try done.
      apply last_n_snoc. lia.
    + rewrite IH1, IH2, Hsize. split; [done|]. f_equal.
      rewrite <- app_assoc. f_equal. by destruct c.
Qed.

(** C7. Start from a router as [__init__] leaves it and make any sequence
    of calls of its public operations.  Afterwards the audit log holds at
    most 10,000 entries, and it is exactly the 10,000 most recent of the
    snapshots of the messages handed to [route_message], in their order of
    arrival (all of them while fewer have arrived): the oldest are evicted
    first. *)
Theorem audit_log_bounded_fifo (w : World) (cs : list RouterCall) :
  router w = MessageRouter_init →
  let log := _message_log (router (run_calls cs w)) in
  (Z.of_nat (length log) ≤ 10000)%Z
  ∧ log = last_n (Z.to_nat 10000) (to_dict <$> arrivals cs).
Proof.
  intros Hinit.
  destruct (run_calls_log cs w []) as [_ Hlog].
  - by rewrite Hinit.
  - by rewrite Hinit.
  - simpl. rewrite Hlog, Hinit. simpl _max_log_size. split; [|done].
    rewrite length_last_n. lia.
Qed.

Lemma audit_log_bounded_fifo_witness :
  router world_init = MessageRouter_init
  ∧ let log :=
      _message_log
        (router (run_calls [CallRouteMessage sample_message] world_init)) in
    (Z.of_nat (length log) ≤ 10000)%Z
    ∧ log = last_n (Z.to_nat 10000)
              (to_dict <$> arrivals [CallRouteMessage sample_message]).
Proof.
  split; [reflexivity|].
  apply (audit_log_bounded_fifo world_init [CallRouteMessage sample_message]).
  reflexivity.
Defined.

(** ** [receive_message] *)

Lemma pending_future_Some self m pid f :
  pending_future self m = Some (pid, f)
  ↔ parent_message_id m = Some pid ∧ pid ≠ ""
    ∧ _pending_responses self !! pid = Some f.
Proof.
  unfold pending_future. destruct (parent_message_id m) as [pid'|]; simpl.
  - destruct pid' as [|c pid']; simpl.
    + split; [done|]. by intros ([= <-] & ? & _).
    + destruct (_pending_responses self !! String c pid') as [f'|] eqn:Hf;
        simpl.
      * split; [by intros [= <- <-]|]. intros ([= <-] & _ & Hf').
        rewrite Hf in Hf'. by simplify_eq.
      * split; [done|]. intros ([= <-] & _ & Hf'). congruence.
  - split; [done|]. by intros (? & _).
Qed.

(** A response to a pending request: the entry is removed, the future gets
    the message unless it is already done, no handler is looked up. *)
Lemma receive_message_response_eq w a self m pid f fut :
  protocols w !! a = Some self →
  pending_future self m = Some (pid, f) →
  futures self !! f = Some fut →
  receive_message a m w
  = (Ok tt,
     set_protocols
       (<[a := set_futures
                 (if done fut then futures self
                  else <[f := FResult m]> (futures self))
                 (set_pending_responses
                    (delete pid (_pending_responses self)) self)]>
          (protocols w))
       (set_trace (trace w ++ [EvReceive a m; receiving_message_entry self m])
          w)).
Proof.
  intros Ha Hp Hf. unfold receive_message. unfold_M. simpl.
  rewrite Ha. simpl. rewrite Hp. simpl. rewrite Hf.
  unfold receiving_message_entry.
  destruct fut; simpl; unfold set_protocols, set_trace; simpl;
    by rewrite <- app_assoc.
Qed.

(** Any other message: the handler registered for its type is called, and
    what it raises is logged. *)
Lemma receive_message_dispatch_eq w a self m :
  protocols w !! a = Some self →
  pending_future self m = None →
  receive_message a m w
  = (Ok tt,
     set_trace
       (trace w ++ [EvReceive a m; receiving_message_entry self m]
        ++ match _handlers self !! message_type m with
           | Some handler =>
               EvHandler a m ::
               match handler m with
               | Ok _ => []
               | Raise e => [handler_error_entry self m e]
               end
           | None => [no_handler_entry self m]
           end) w).
Proof.
  intros Ha Hp. unfold receive_message. unfold_M. simpl.
  rewrite Ha. simpl. rewrite Hp.
  unfold receiving_message_entry, handler_error_entry, no_handler_entry.
  destruct (_handlers self !! message_type m) as [h|]; simpl.
  - destruct (h m) as [[]|e]; simpl; unfold set_trace; simpl;
      by rewrite <- !app_assoc.
  - unfold set_trace; simpl. by rewrite <- !app_assoc.
Qed.

(** On a well-formed store [receive_message] returns. *)
Lemma receive_message_returns w a self m :
  protocols w !! a = Some self → protocol_wf self →
  (receive_message a m w).1 = Ok tt.
Proof.
  intros Ha Hwf.
  destruct (pending_future self m) as [[pid f]|] eqn:Hp.
  - pose proof Hp as (_ & _ & Hf)%pending_future_Some.
    apply Hwf in Hf. simpl in Hf.
    destruct (lookup_lt_is_Some_2 (futures self) f Hf) as [fut Hfut].
    by erewrite receive_message_response_eq.
  - by erewrite receive_message_dispatch_eq.
Qed.

(** C3, as amended. Let [m] arrive at an endpoint while its
    [parent_message_id] is a non-empty identifier with a pending
    correlation.  Then [receive_message] returns, the entry is removed from
    the pending table, the handle is resolved with [m] if it was not done
    yet and is left as it is otherwise (a second resolution is a no-op),
    and no handler is invoked: the trace gains the mark of the call and the
    log entry, nothing else. *)
Theorem receive_message_resolves_pending
    (w : World) (a : nat) (self : CommunicationProtocol) (m : Message)
    (pid : string) (f : nat) (fut : Future) :
  protocols w !! a = Some self →
  parent_message_id m = Some pid →
  pid ≠ "" →
  _pending_responses self !! pid = Some f →
  futures self !! f = Some fut →
  let w' := (receive_message a m w).2 in
  (receive_message a m w).1 = Ok tt
  ∧ (∃ self', protocols w' !! a = Some self'
       ∧ _pending_responses self' = delete pid (_pending_responses self)
       ∧ futures self'
         = (if done fut then futures self
            else <[f := FResult m]> (futures self))
       ∧ _handlers self' = _handlers self)
  ∧ trace w' = trace w ++ [EvReceive a m; receiving_message_entry self m]
  ∧ handled (trace w') = handled (trace w).
Proof.
  intros Ha Hpar Hpid Hf Hfut.
  assert (Hp : pending_future self m = Some (pid, f))
    by by apply pending_future_Some.
  rewrite (receive_message_response_eq w a self m pid f fut) by done.
  simpl. split; [done|]. split; [|split; [done|]].
  - eexists. split.
    + apply list_lookup_insert_eq. by eapply lookup_lt_Some.
    + done.
  - unfold handled. rewrite omap_app. simpl. by rewrite app_nil_r.
Qed.

Lemma receive_message_resolves_pending_witness :
  let w' := (receive_message 0 sample_response sample_protocol_world).2 in
  (receive_message 0 sample_response sample_protocol_world).1 = Ok tt
  ∧ (∃ self', protocols w' !! 0 = Some self'
       ∧ _pending_responses self'
         = delete "req-1" (_pending_responses sample_protocol)
       ∧ futures self'
         = (if done FPending then futures sample_protocol
            else <[0 := FResult sample_response]> (futures sample_protocol))
       ∧ _handlers self' = _handlers sample_protocol)
  ∧ trace w'
    = trace sample_protocol_world
      ++ [EvReceive 0 sample_response;
          receiving_message_entry sample_protocol sample_response]
  ∧ handled (trace w') = handled (trace sample_protocol_world).
Proof.
  apply (receive_message_resolves_pending sample_protocol_world 0
           sample_protocol sample_response "req-1" 0 FPending);
    [reflexivity|reflexivity|discriminate|reflexivity|reflexivity].
Defined.

(** C3 as it was stated fails where the identifier is the empty string:
    the endpoint below has sent a request whose [message_id] is [""] and
    waits for the response; a message whose [parent_message_id] is [""]
    arrives.  The correlation stays pending, its future stays unresolved,
    and the message goes to the handler of its type. *)
Lemma receive_message_empty_parent_id :
  ∃ self,
    protocols empty_id_world !! 0 = Some self
    ∧ parent_message_id empty_id_response = Some ""
    ∧ _pending_responses self !! "" = Some 0
    ∧ futures self !! 0 = Some FPending
    ∧ let w' := (receive_message 0 empty_id_response empty_id_world).2 in
      protocols w' !! 0 = Some self
      ∧ handled (trace w') = [(0, empty_id_response)].
Proof. eexists. repeat split; vm_compute; reflexivity. Qed.

(** C4. Let [m] arrive at an endpoint, [m] not being the response to a
    pending request.  Then [receive_message] returns normally in every
    case; it leaves the endpoints as they are; if a handler is registered
    for the type of [m] it is called on [m], and when it raises [e] the
    failure is logged as handler_error and goes no further; if none is
    registered the message is dropped with the warning no_handler_found. *)
Theorem receive_message_isolates_handlers
    (w : World) (a : nat) (self : CommunicationProtocol) (m : Message) :
  protocols w !! a = Some self →
  pending_future self m = None →
  let w' := (receive_message a m w).2 in
  (receive_message a m w).1 = Ok tt
  ∧ protocols w' = protocols w
  ∧ trace w'
    = trace w ++ [EvReceive a m; receiving_message_entry self m]
      ++ match _handlers self !! message_type m with
         | Some handler =>
             EvHandler a m ::
             match handler m with
             | Ok _ => []
             | Raise e => [handler_error_entry self m e]
             end
         | None => [no_handler_entry self m]
         end.
Proof.
  intros Ha Hp. by rewrite (receive_message_dispatch_eq w a self m).
Qed.

Lemma receive_message_isolates_handlers_witness :
  let w' := (receive_message 0 sample_message sample_protocol_world).2 in
  (receive_message 0 sample_message sample_protocol_world).1 = Ok tt
  ∧ protocols w' = protocols sample_protocol_world
  ∧ trace w'
    = [EvReceive 0 sample_message;
       receiving_message_entry sample_protocol sample_message;
       EvHandler 0 sample_message;
       handler_error_entry sample_protocol sample_message (ValueError "boom")].
Proof.
  apply (receive_message_isolates_handlers sample_protocol_world 0
           sample_protocol sample_message); reflexivity.
Defined.

(** ** Deliveries *)

Lemma received_app tr1 tr2 : received (tr1 ++ tr2) = received tr1 ++ received tr2.
Proof. apply omap_app. Qed.

Lemma receive_message_received a m w :
  received (trace (receive_message a m w).2) = received (trace w) ++ [(a, m)].
Proof.
  unfold receive_message. unfold_M. simpl.
  repeat (case_match; simpl in *; simplify_eq).
  all: unfold received; rewrite ?omap_app; simpl; rewrite ?app_nil_r; try done.
  by rewrite omap_app.
Qed.

Lemma receive_message_protocols_length a m w :
  length (protocols (receive_message a m w).2) = length (protocols w).
Proof.
  unfold receive_message. unfold_M. simpl.
  repeat (case_match; simpl in *; simplify_eq); by rewrite ?length_insert.
Qed.

Lemma deliver_all_returns ds w : (deliver_all ds w).1 = Ok tt.
Proof.
  revert w. induction ds as [|d ds IH]; intros w; [done|].
  rewrite deliver_all_cons_eq. apply IH.
Qed.

Lemma deliver_all_received ds w :
  received (trace (deliver_all ds w).2) = received (trace w) ++ ds.
Proof.
  revert w. induction ds as [|[a m] ds IH]; intros w.
  - simpl. by rewrite app_nil_r.
  - rewrite deliver_all_cons_eq, IH, receive_message_received. simpl.
    by rewrite <- app_assoc.
Qed.

Lemma broadcast_tasks_eq m items w :
  broadcast_tasks m items w
  = (Ok (broadcast_copies (uuid4 w) (utcnow w) m (created w) items),
     set_created
       (created w
        + length (broadcast_copies (uuid4 w) (utcnow w) m (created w) items))
       w).
Proof.
  revert w. induction items as [|[id a] items IH]; intros w.
  - simpl. unfold mret, M_ret, set_created. rewrite Nat.add_0_r.
    by destruct w.
  - cbn [broadcast_tasks broadcast_copies]. case_bool_decide; [|apply IH].
    unfold_M. simpl. rewrite IH. simpl. unfold set_created, broadcast_copy.
    simpl. do 3 f_equal. lia.
Qed.

Lemma _broadcast_eq m w :
  let copies :=
    broadcast_copies (uuid4 w) (utcnow w) m (created w)
      (map_to_list (_networks (router w))) in
  (_broadcast m w).1 = Ok tt
  ∧ received (trace (_broadcast m w).2) = received (trace w) ++ copies.
Proof.
  pose proof (broadcast_tasks_eq m (map_to_list (_networks (router w))) w)
    as Hb.
  unfold _broadcast, mbind, M_bind, get_router. simpl. rewrite !Hb.
  destruct (broadcast_copies _ _ _ _) as [|d ds] eqn:Hc.
  - simpl. by rewrite app_nil_r.
  - cbv beta iota. split; [apply (deliver_all_returns (d :: ds))|].
    by rewrite (deliver_all_received (d :: ds)).
Qed.

Lemma _log_message_frame m w :
  (_log_message m w).1 = Ok tt
  ∧ protocols (_log_message m w).2 = protocols w
  ∧ trace (_log_message m w).2 = trace w
  ∧ created (_log_message m w).2 = created w
  ∧ uuid4 (_log_message m w).2 = uuid4 w
  ∧ utcnow (_log_message m w).2 = utcnow w
  ∧ _networks (router (_log_message m w).2) = _networks (router w).
Proof. done. Qed.

(** The copies of a broadcast, one item of the registry at a time. *)
Lemma broadcast_copies_elem uuid now m n items d :
  d ∈ broadcast_copies uuid now m n items →
  (receiver_id d.2, d.1) ∈ items
  ∧ receiver_id d.2 ≠ sender_id m
  ∧ sender_id d.2 = sender_id m.
Proof.
  revert n. induction items as [|[id a] items IH]; intros n; simpl.
  - by intros ?%elem_of_nil.
  - case_bool_decide as Hid.
    + intros [->|Hd]%elem_of_cons; simpl.
      * split; [by left|done].
      * destruct (IH _ Hd) as (? & ? & ?). split; [by right|done].
    + intros Hd. destruct (IH _ Hd) as (? & ? & ?). split; [by right|done].
Qed.

Lemma filter_none {A} (P : A → Prop) `{!∀ x, Decision (P x)} (l : list A) :
  (∀ x, x ∈ l → ¬ P x) → filter P l = [].
Proof.
  induction l as [|x l IH]; intros Hl; [done|].
  rewrite filter_cons_False by (apply Hl; by left).
  apply IH. intros y Hy. apply Hl. by right.
Qed.

Lemma broadcast_copies_filter_absent uuid now m n items id :
  id ∉ items.*1 →
  filter (λ d : Delivery, receiver_id d.2 = id)
    (broadcast_copies uuid now m n items) = [].
Proof.
  intros Hid. apply filter_none.
  intros d (Hd & _ & _)%broadcast_copies_elem Heq. apply Hid.
  apply list_elem_of_fmap. exists (receiver_id d.2, d.1). by split.
Qed.

Lemma broadcast_copies_filter uuid now m n items id a :
  NoDup items.*1 →
  (id, a) ∈ items →
  id ≠ sender_id m →
  ∃ uid ts,
    filter (λ d : Delivery, receiver_id d.2 = id)
      (broadcast_copies uuid now m n items)
    = [(a, broadcast_copy m id uid ts)].
Proof.
  revert n. induction items as [|[id' a'] items IH]; intros n Hnd Hin Hid.
  - by apply elem_of_nil in Hin.
  - apply NoDup_cons in Hnd as [Hnin Hnd]. simpl.
    apply elem_of_cons in Hin as [[= <- <-]|Hin].
    + rewrite bool_decide_true by done. rewrite filter_cons_True by done.
      rewrite broadcast_copies_filter_absent by done. eauto.
    + assert (id' ≠ id).
      { intros ->. apply Hnin, list_elem_of_fmap. by exists (id, a). }
      case_bool_decide; [rewrite filter_cons_False by done|]; by apply IH.
Qed.

(** ** Well-formed stores are what the operations build *)

Lemma world_wf_init : world_wf world_init.
Proof.
  split; [apply map_Forall_empty|]. split; [apply Forall_nil_2|].
  split; [|done]. simpl. by rewrite !dom_empty_L.
Qed.

Lemma new_protocol_wf id w : world_wf w → world_wf (new_protocol id w).2.
Proof.
  intros (Hnet & Hps & Hdom & Hcap). split; [|split; [|done]]; simpl.
  - intros k a Hk. apply Hnet in Hk. simpl in *. rewrite length_app. lia.
  - apply Forall_app. split; [done|]. apply Forall_singleton.
    apply map_Forall_empty.
Qed.

Lemma register_network_wf id a caps w :
  world_wf w → a < length (protocols w) →
  world_wf (register_network id a caps w).2.
Proof.
  intros (Hnet & Hps & Hdom & Hcap) Ha.
  split; [|split; [done|split; [|done]]]; simpl.
  - by apply map_Forall_insert_2.
  - by rewrite !dom_insert_L, Hdom.
Qed.

Lemma unregister_network_wf id w :
  world_wf w → world_wf (unregister_network id w).2.
Proof.
  intros (Hnet & Hps & Hdom & Hcap).
  split; [|split; [done|split; [|done]]]; simpl.
  - by apply map_Forall_delete.
  - by rewrite !dom_delete_L, Hdom.
Qed.

Lemma sample_world_wf : world_wf sample_world.
Proof.
  unfold sample_world.
  repeat (apply register_network_wf; [|simpl; lia]).
  repeat apply new_protocol_wf. apply world_wf_init.
Qed.

Lemma sample_uuid4_inj : Inj (=) (=) sample_uuid4.
Proof.
  intros n1 n2 Hn. unfold sample_uuid4 in Hn.
  by apply (inj (String.app "uuid-")), (inj pretty) in Hn.
Qed.

Lemma sample_uuid4_nonempty n : sample_uuid4 n ≠ "".
Proof. done. Qed.

(** ** [route_message] *)

Lemma route_message_broadcast m w :
  receiver_id m = "" →
  (route_message m w).1 = Ok true
  ∧ received (trace (route_message m w).2)
    = received (trace w)
      ++ broadcast_copies (uuid4 w) (utcnow w) m (created w)
           (map_to_list (_networks (router w))).
Proof.
  intros Hrecv. unfold route_message. rewrite bind_eq.
  destruct (_log_message_frame m w) as (Hlog & _ & Htr & Hcr & Hu & Hn & Hnet).
  destruct (_log_message m w) as [r w1]. simpl in *. subst r.
  rewrite Hrecv. cbn [str_truthy negb]. rewrite bind_eq.
  destruct (_broadcast_eq m w1) as [Hb Hrcv].
  destruct (_broadcast m w1) as [r w2]. simpl in *. subst r.
  rewrite ret_eq. simpl. split; [done|]. rewrite Hrcv. congruence.
Qed.

Lemma route_message_direct m w :
  receiver_id m ≠ "" →
  route_message m w
  = let w1 := (_log_message m w).2 in
    match _networks (router w) !! receiver_id m with
    | None =>
        (Ok false,
         set_trace
           (trace w1
            ++ [EvLog WARNING "receiver_not_found"
                  [("message_id", PStr (message_id m));
                   ("receiver_id", PStr (receiver_id m))]]) w1)
    | Some protocol =>
        match receive_message protocol m w1 with
        | (Ok _, w2) => (Ok true, w2)
        | (Raise e, w2) => (Raise e, w2)
        end
    end.
Proof.
  intros Hrecv. unfold route_message. rewrite bind_eq.
  destruct (_log_message_frame m w) as (Hlog & _ & _ & _ & _ & _ & Hnet).
  destruct (_log_message m w) as [r w1]. simpl in *. subst r.
  destruct (receiver_id m) as [|c s]; [done|]. cbn [str_truthy negb].
  rewrite bind_eq. unfold get_router at 1. rewrite Hnet.
  destruct (_networks (router w) !! String c s); [|done].
  rewrite bind_eq. by destruct (receive_message _ m w1) as [[[]|?] ?].
Qed.

(** C5. A message with the broadcast sentinel is routed.  Among the calls
    of [receive_message] this causes, every registered network other than
    the sender gets exactly one, on its own endpoint, with a copy that
    keeps the sender, the type, the priority, the payload and the metadata
    and names that network as the receiver; and every copy is addressed to
    a registered network that is not the sender, so none goes back to the
    sending agent. *)
Theorem broadcast_reaches_all_but_sender (w : World) (m : Message) :
  receiver_id m = "" →
  ∃ copies : list Delivery,
    received (trace (route_message m w).2) = received (trace w) ++ copies
    ∧ (∀ id a,
         _networks (router w) !! id = Some a → id ≠ sender_id m →
         ∃ uid now,
           filter (λ d : Delivery, receiver_id d.2 = id) copies
           = [(a, broadcast_copy m id uid now)])
    ∧ (∀ d, d ∈ copies →
         _networks (router w) !! receiver_id d.2 = Some d.1
         ∧ receiver_id d.2 ≠ sender_id m
         ∧ sender_id d.2 = sender_id m).
Proof.
  intros Hrecv.
  destruct (route_message_broadcast m w Hrecv) as [_ Hrcv].
  eexists. split; [exact Hrcv|]. split.
  - intros id a Hid Hne. apply broadcast_copies_filter; [|by apply elem_of_map_to_list|done].
    apply NoDup_fst_map_to_list.
  - intros d (Hd & ? & ?)%broadcast_copies_elem.
    by apply elem_of_map_to_list in Hd.
Qed.

Lemma broadcast_reaches_all_but_sender_witness :
  receiver_id broadcast_sample = ""
  ∧ ∃ copies : list Delivery,
      received (trace (route_message broadcast_sample sample_world).2)
      = received (trace sample_world) ++ copies
      ∧ (∀ id a,
           _networks (router sample_world) !! id = Some a →
           id ≠ sender_id broadcast_sample →
           ∃ uid now,
             filter (λ d : Delivery, receiver_id d.2 = id) copies
             = [(a, broadcast_copy broadcast_sample id uid now)])
      ∧ (∀ d, d ∈ copies →
           _networks (router sample_world) !! receiver_id d.2 = Some d.1
           ∧ receiver_id d.2 ≠ sender_id broadcast_sample
           ∧ sender_id d.2 = sender_id broadcast_sample).
Proof.
  split; [reflexivity|].
  apply (broadcast_reaches_all_but_sender sample_world broadcast_sample).
  reflexivity.
Defined.

Example broadcast_sample_receivers :
  (λ d : Delivery, (d.1, receiver_id d.2, sender_id d.2))
    <$> received (trace (route_message broadcast_sample sample_world).2)
  = [(2, "C", "A"); (1, "B", "A")].
Proof. vm_compute. reflexivity. Qed.

Lemma world_wf_endpoint w id a :
  world_wf w → _networks (router w) !! id = Some a →
  ∃ self, protocols w !! a = Some self ∧ protocol_wf self.
Proof.
  intros (Hnet & Hps & _) Hid. apply Hnet in Hid. simpl in Hid.
  destruct (lookup_lt_is_Some_2 _ _ Hid) as [self Hself].
  exists self. split; [done|]. by eapply Forall_lookup_1 in Hps.
Qed.

(** C6. On a well-formed store: a message addressed to a network that is
    not registered makes [route_message] return [False]; the audit log is
    the old one with exactly one entry appended, the snapshot of the
    message (cut to the capacity, so below the capacity the log is one
    entry longer), and nothing is delivered.  A broadcast message, and a
    message addressed to a registered network, make it return [True]; the
    latter is delivered to the endpoint of that network, once. *)
Theorem route_message_reports_destination (w : World) (m : Message) :
  world_wf w →
  let result := (route_message m w).1 in
  let w' := (route_message m w).2 in
  (receiver_id m ≠ "" → _networks (router w) !! receiver_id m = None →
     result = Ok false
     ∧ _message_log (router w')
       = last_n (Z.to_nat 10000) (_message_log (router w) ++ [to_dict m])
     ∧ ((Z.of_nat (length (_message_log (router w))) < 10000)%Z →
        _message_log (router w') = _message_log (router w) ++ [to_dict m])
     ∧ received (trace w') = received (trace w))
  ∧ (receiver_id m = "" → result = Ok true)
  ∧ (∀ a, receiver_id m ≠ "" →
       _networks (router w) !! receiver_id m = Some a →
       result = Ok true
       ∧ received (trace w') = received (trace w) ++ [(a, m)]).
Proof.
  intros Hwf. pose proof Hwf as (_ & _ & _ & Hcap). cbv zeta.
  split; [|split].
  - intros Hrecv Hnone.
    rewrite route_message_direct by done. cbv zeta. rewrite Hnone.
    rewrite _log_message_eq by lia. rewrite Hcap. simpl.
    split; [done|]. split; [done|]. split.
    + intros Hlen. apply last_n_all. rewrite length_app. simpl. lia.
    + unfold received. rewrite omap_app. simpl. by rewrite app_nil_r.
  - intros Hrecv. by apply route_message_broadcast.
  - intros a Hrecv Ha. rewrite route_message_direct by done. cbv zeta.
    rewrite Ha.
    destruct (world_wf_endpoint w _ a Hwf Ha) as (self & Hself & Hpwf).
    pose proof (receive_message_returns (_log_message m w).2 a self m Hself Hpwf)
      as Hret.
    pose proof (receive_message_received a m (_log_message m w).2) as Hrcv.
    destruct (receive_message a m (_log_message m w).2) as [r w2].
    simpl in *. subst r. by split.
Qed.

Lemma route_message_reports_destination_witness :
  world_wf sample_world
  ∧ (route_message sample_message sample_world).1 = Ok false
  ∧ (route_message broadcast_sample sample_world).1 = Ok true
  ∧ (route_message (set_receiver_id "B" sample_message) sample_world).1
    = Ok true.
Proof.
  split; [apply sample_world_wf|].
  pose proof (route_message_reports_destination sample_world sample_message
                sample_world_wf) as (Hmissing & _ & _).
  pose proof (route_message_reports_destination sample_world broadcast_sample
                sample_world_wf) as (_ & Hbroadcast & _).
  pose proof (route_message_reports_destination sample_world
                (set_receiver_id "B" sample_message) sample_world_wf)
    as (_ & _ & Hfound).
  split; [|split].
  - apply Hmissing; [discriminate|reflexivity].
  - apply Hbroadcast. reflexivity.
  - apply (Hfound 1); [discriminate|reflexivity].
Defined.

(** ** The steps of [send_message], as effects on one endpoint *)

Lemma receive_message_protocols a m w :
  protocols (receive_message a m w).2
  = alter (receive_effect m) a (protocols w).
Proof.
  destruct (protocols w !! a) as [p|] eqn:Hp.
  - unfold receive_effect.
    destruct (pending_future p m) as [[pid f]|] eqn:Hpf.
    + destruct (futures p !! f) as [fut|] eqn:Hf.
      * erewrite receive_message_response_eq by done. simpl.
        apply list_eq. intros i. destruct (decide (i = a)) as [->|].
        -- rewrite list_lookup_insert_eq by by eapply lookup_lt_Some.
           rewrite list_lookup_alter_eq, Hp. simpl. by rewrite Hpf, Hf.
        -- by rewrite list_lookup_insert_ne, list_lookup_alter_ne.
      * unfold receive_message. unfold_M. simpl. rewrite Hp. simpl.
        rewrite Hpf, Hf. simpl.
        apply list_eq. intros i. destruct (decide (i = a)) as [->|].
        -- rewrite list_lookup_alter_eq, Hp. simpl. by rewrite Hpf, Hf.
        -- by rewrite list_lookup_alter_ne.
    + erewrite receive_message_dispatch_eq by done. simpl.
      apply list_eq. intros i. destruct (decide (i = a)) as [->|].
      * rewrite list_lookup_alter_eq, Hp. simpl. by rewrite Hpf.
      * by rewrite list_lookup_alter_ne.
  - unfold receive_message. unfold_M. simpl. rewrite Hp. simpl.
    apply list_eq. intros i. destruct (decide (i = a)) as [->|].
    + by rewrite list_lookup_alter_eq, Hp.
    + by rewrite list_lookup_alter_ne.
Qed.

Lemma send_message_begin_eq a m w p :
  protocols w !! a = Some p →
  send_message_begin a m true w
  = (Ok (begin_message p m, Some (length (futures p))),
     set_protocols (<[a := begin_effect m p]> (protocols w))
       (set_trace (trace w ++ [sending_message_entry p m]) w)).
Proof.
  intros Hp. unfold send_message_begin. unfold_M. simpl. by rewrite Hp.
Qed.

Lemma send_message_begin_nowait_eq a m w p :
  protocols w !! a = Some p →
  send_message_begin a m false w
  = (Ok (set_sender_id (network_id p) m, None),
     set_protocols
       (<[a := set_message_queue
                 (_message_queue p ++ [set_sender_id (network_id p) m]) p]>
          (protocols w))
       (set_trace (trace w ++ [sending_message_entry p m]) w)).
Proof.
  intros Hp. unfold send_message_begin. unfold_M. simpl. by rewrite Hp.
Qed.

Lemma wait_for_eq a f ds w :
  wait_for a f ds w = wait_for a f [] (deliver_all ds w).2.
Proof.
  unfold wait_for. rewrite !bind_eq.
  pose proof (deliver_all_returns ds w).
  destruct (deliver_all ds w) as [r w1]. simpl in *. by subst r.
Qed.

Lemma wait_for_nil_eq a f w p :
  protocols w !! a = Some p →
  wait_for a f [] w
  = match futures p !! f with
    | Some (FResult response) => (Ok (Some response), w)
    | Some _ =>
        (Ok None, set_protocols (<[a := cancel_effect f p]> (protocols w)) w)
    | None => (Raise (RuntimeError "no future at this address"), w)
    end.
Proof.
  intros Hp. unfold wait_for. unfold_M. simpl. rewrite Hp. simpl.
  by destruct (futures p !! f) as [[]|].
Qed.

Lemma send_message_timeout_eq a m w p :
  protocols w !! a = Some p →
  send_message_timeout a m w
  = (Ok tt,
     set_protocols (<[a := timeout_effect (message_id m) p]> (protocols w))
       (set_trace (trace w ++ [message_timeout_entry p m]) w)).
Proof.
  intros Hp. unfold send_message_timeout. unfold_M. simpl. by rewrite Hp.
Qed.

Lemma receive_effect_wf m p : protocol_wf p → protocol_wf (receive_effect m p).
Proof.
  intros Hwf. unfold receive_effect.
  destruct (pending_future p m) as [[pid f]|]; [|done].
  destruct (futures p !! f) as [fut|]; [|done].
  intros k f' Hk. simpl in *.
  apply lookup_delete_Some in Hk as [_ Hk]. apply Hwf in Hk. simpl in Hk.
  destruct (done fut); by rewrite ?length_insert.
Qed.

Lemma receive_effect_pending m p uid f :
  holds_pending uid f p →
  parent_message_id m ≠ Some uid ∨ uid = "" →
  holds_pending uid f (receive_effect m p).
Proof.
  intros (Hk & Hf & Huniq) Hm. unfold receive_effect.
  destruct (pending_future p m) as [[pid f']|] eqn:Hp; [|done].
  apply pending_future_Some in Hp as (Hpar & Hpid & Hpf).
  destruct (futures p !! f') as [fut|] eqn:Hfut; [|done].
  assert (pid ≠ uid) by (intros ->; by destruct Hm).
  assert (f' ≠ f) by (intros ->; by apply Huniq in Hpf).
  split; [|split]; simpl.
  - by rewrite lookup_delete_ne.
  - destruct (done fut); [done|]. by rewrite list_lookup_insert_ne.
  - intros k [_ Hk']%lookup_delete_Some. by apply Huniq.
Qed.

Lemma receive_effect_answer m p uid f :
  holds_pending uid f p →
  parent_message_id m = Some uid → uid ≠ "" →
  holds_result f m (receive_effect m p).
Proof.
  intros (Hk & Hf & Huniq) Hpar Huid. unfold receive_effect, holds_result.
  assert (Hp : pending_future p m = Some (uid, f))
    by by apply pending_future_Some.
  rewrite Hp, Hf. simpl.
  apply list_lookup_insert_eq. by eapply lookup_lt_Some.
Qed.

Lemma receive_effect_result m p f r :
  holds_result f r p → holds_result f r (receive_effect m p).
Proof.
  unfold holds_result, receive_effect. intros Hf.
  destruct (pending_future p m) as [[pid f']|]; [|done].
  destruct (futures p !! f') as [fut|] eqn:Hfut; [|done]. simpl.
  destruct (done fut) eqn:Hdone; [done|].
  rewrite list_lookup_insert_ne; [done|]. intros ->.
  rewrite Hf in Hfut. by simplify_eq.
Qed.

Lemma begin_effect_wf m p : protocol_wf p → protocol_wf (begin_effect m p).
Proof.
  intros Hwf k f Hk. simpl in *. rewrite length_app. simpl.
  apply lookup_insert_Some in Hk as [[_ <-]|[_ Hk]]; [lia|].
  apply Hwf in Hk. simpl in Hk. lia.
Qed.

Lemma begin_effect_own m p :
  protocol_wf p →
  holds_pending (message_id m) (length (futures p)) (begin_effect m p).
Proof.
  intros Hwf. split; [|split]; simpl.
  - apply lookup_insert_eq.
  - rewrite lookup_app_r by done. by rewrite Nat.sub_diag.
  - intros k [[? _]|[_ Hk]]%lookup_insert_Some; [done|].
    apply Hwf in Hk. simpl in Hk. lia.
Qed.

Lemma begin_effect_pending m p uid f :
  holds_pending uid f p → uid ≠ message_id m →
  holds_pending uid f (begin_effect m p).
Proof.
  intros (Hk & Hf & Huniq) Hne. split; [|split]; simpl.
  - by rewrite lookup_insert_ne.
  - rewrite lookup_app_l; [done|]. by eapply lookup_lt_Some.
  - intros k [[_ <-]|[_ Hk']]%lookup_insert_Some; [|by apply Huniq].
    apply lookup_lt_Some in Hf. lia.
Qed.

Lemma begin_effect_result m p f r :
  holds_result f r p → holds_result f r (begin_effect m p).
Proof.
  unfold holds_result. intros Hf. simpl.
  rewrite lookup_app_l; [done|]. by eapply lookup_lt_Some.
Qed.

Lemma timeout_effect_wf uid f p :
  protocol_wf p → protocol_wf (timeout_effect uid (cancel_effect f p)).
Proof.
  intros Hwf k f' Hk. simpl in *.
  apply lookup_delete_Some in Hk as [_ Hk].
  rewrite length_insert. by apply Hwf in Hk.
Qed.

Lemma timeout_effect_pending uid f uid' f' p :
  holds_pending uid f p → holds_pending uid' f' p → uid' ≠ uid →
  holds_pending uid' f' (timeout_effect uid (cancel_effect f p)).
Proof.
  intros (Hk & Hf & Huniq) (Hk' & Hf' & Huniq') Hne.
  assert (f ≠ f') by (intros ->; apply Hne; by apply Huniq).
  split; [|split]; simpl.
  - by rewrite lookup_delete_ne.
  - by rewrite list_lookup_insert_ne.
  - intros k [_ Hk'']%lookup_delete_Some. by apply Huniq'.
Qed.

Lemma timeout_effect_result uid f f' r p :
  holds_pending uid f p → holds_result f' r p →
  holds_result f' r (timeout_effect uid (cancel_effect f p)).
Proof.
  unfold holds_result. intros (_ & Hf & _) Hf'. simpl.
  rewrite list_lookup_insert_ne; [done|]. intros ->. congruence.
Qed.

Lemma timeout_effect_gone uid f p :
  _pending_responses (timeout_effect uid (cancel_effect f p)) !! uid = None.
Proof. simpl. apply lookup_delete_eq. Qed.

(** ** Lifting to the store *)

Lemma at_endpoint_insert w w' a a' p p' Q :
  protocols w !! a' = Some p →
  protocols w' = <[a' := p']> (protocols w) →
  (a = a' → Q p → Q p') →
  at_endpoint w a Q → at_endpoint w' a Q.
Proof.
  intros Hp Hw' HQ (q & Hq & HQq). unfold at_endpoint. rewrite Hw'.
  destruct (decide (a = a')) as [->|Hne].
  - exists p'. split.
    + apply list_lookup_insert_eq. by eapply lookup_lt_Some.
    + apply HQ; [done|]. congruence.
  - exists q. by rewrite list_lookup_insert_ne.
Qed.

Lemma at_endpoint_alter w w' a a' g Q :
  protocols w' = alter g a' (protocols w) →
  (a = a' → ∀ p, Q p → Q (g p)) →
  at_endpoint w a Q → at_endpoint w' a Q.
Proof.
  intros Hw' HQ (q & Hq & HQq). unfold at_endpoint. rewrite Hw'.
  destruct (decide (a = a')) as [->|Hne].
  - exists (g q). rewrite list_lookup_alter_eq, Hq. split; [done|]. by apply HQ.
  - exists q. by rewrite list_lookup_alter_ne.
Qed.

Lemma futures_wf_insert w w' a p' :
  protocols w' = <[a := p']> (protocols w) →
  protocol_wf p' → futures_wf w → futures_wf w'.
Proof.
  unfold futures_wf. intros -> Hp' Hwf. by apply Forall_insert.
Qed.

Lemma futures_wf_alter w w' a g :
  protocols w' = alter g a (protocols w) →
  (∀ p, protocol_wf p → protocol_wf (g p)) → futures_wf w → futures_wf w'.
Proof.
  unfold futures_wf. intros -> Hg Hwf. rewrite Forall_lookup in *.
  intros i p. destruct (decide (i = a)) as [->|Hne].
  - rewrite list_lookup_alter_eq. intros [q [Hq ->]]%fmap_Some. eauto.
  - rewrite list_lookup_alter_ne by done. eauto.
Qed.

Lemma futures_wf_lookup w a p :
  futures_wf w → protocols w !! a = Some p → protocol_wf p.
Proof. intros Hwf Hp. by eapply Forall_lookup_1 in Hwf. Qed.

(** *** One delivery *)

Lemma deliver_wf d w : futures_wf w → futures_wf (receive_message d.1 d.2 w).2.
Proof.
  apply futures_wf_alter with (a := d.1) (g := receive_effect d.2).
  - apply receive_message_protocols.
  - apply receive_effect_wf.
Qed.

Lemma deliver_pending d w a uid f :
  ¬ answers a uid d ∨ uid = "" →
  at_endpoint w a (holds_pending uid f) →
  at_endpoint (receive_message d.1 d.2 w).2 a (holds_pending uid f).
Proof.
  intros Hd. eapply at_endpoint_alter; [apply receive_message_protocols|].
  intros -> p Hp. apply receive_effect_pending; [done|].
  destruct Hd as [Hd|Hd]; [left|by right]. intros Hpar. by apply Hd.
Qed.

Lemma deliver_answer d w a uid f :
  answers a uid d → uid ≠ "" →
  at_endpoint w a (holds_pending uid f) →
  at_endpoint (receive_message d.1 d.2 w).2 a (holds_result f d.2).
Proof.
  intros [<- Hpar] Huid (p & Hp & Hpend). exists (receive_effect d.2 p).
  rewrite receive_message_protocols, list_lookup_alter_eq, Hp.
  split; [done|]. by eapply receive_effect_answer.
Qed.

Lemma deliver_result d w a f r :
  at_endpoint w a (holds_result f r) →
  at_endpoint (receive_message d.1 d.2 w).2 a (holds_result f r).
Proof.
  eapply at_endpoint_alter; [apply receive_message_protocols|].
  intros _ p. apply receive_effect_result.
Qed.

(** *** One window *)

Lemma first_answer_nil a uid : first_answer a uid [[]] = None.
Proof. done. Qed.

Lemma first_answer_cons a uid d ds :
  first_answer a uid [d :: ds]
  = if decide (answers a uid d) then Some d.2 else first_answer a uid [ds].
Proof.
  unfold first_answer. simpl. rewrite !app_nil_r, filter_cons.
  by destruct (decide (answers a uid d)).
Qed.

Lemma deliver_all_wf ds w : futures_wf w → futures_wf (deliver_all ds w).2.
Proof.
  revert w. induction ds as [|d ds IH]; intros w Hwf; [done|].
  rewrite deliver_all_cons_eq. by apply IH, deliver_wf.
Qed.

Lemma deliver_all_result ds w a f r :
  at_endpoint w a (holds_result f r) →
  at_endpoint (deliver_all ds w).2 a (holds_result f r).
Proof.
  revert w. induction ds as [|d ds IH]; intros w Hr; [done|].
  rewrite deliver_all_cons_eq. by apply IH, deliver_result.
Qed.

Lemma deliver_all_pending ds w a uid f :
  uid ≠ "" →
  at_endpoint w a (holds_pending uid f) →
  match first_answer a uid [ds] with
  | Some r => at_endpoint (deliver_all ds w).2 a (holds_result f r)
  | None => at_endpoint (deliver_all ds w).2 a (holds_pending uid f)
  end.
Proof.
  intros Huid. revert w. induction ds as [|d ds IH]; intros w Hp; [done|].
  rewrite first_answer_cons, deliver_all_cons_eq.
  destruct (decide (answers a uid d)) as [Hd|Hd].
  - by eapply deliver_all_result, deliver_answer.
  - apply IH, deliver_pending; [by left|done].
Qed.

(** Deliveries that bring no answer leave a correlation pending, whatever
    its identifier. *)
Lemma deliver_all_unanswered ds w a uid f :
  Forall (λ d, ¬ answers a uid d) ds →
  at_endpoint w a (holds_pending uid f) →
  at_endpoint (deliver_all ds w).2 a (holds_pending uid f).
Proof.
  revert w. induction ds as [|d ds IH]; intros w Hds Hp; [done|].
  apply Forall_cons in Hds as [Hd Hds].
  rewrite deliver_all_cons_eq. apply IH; [done|].
  apply deliver_pending; [by left|done].
Qed.

(** ** [send_message] *)

Lemma send_message_eq a m wait script w :
  send_message a m wait script w
  = match send_message_begin a m wait w with
    | (Raise e, w1) => (Raise e, w1)
    | (Ok (m1, None), w1) => (Ok (None, m1), w1)
    | (Ok (m1, Some f), w1) =>
        match wait_for a f (hd [] script) w1 with
        | (Raise e, w2) => (Raise e, w2)
        | (Ok (Some response), w2) => (Ok (Some response, m1), w2)
        | (Ok None, w2) =>
            match send_message_timeout a m1 w2 with
            | (Raise e, w3) => (Raise e, w3)
            | (Ok _, w3) =>
                if should_retry m1
                then send_message a (increment_retry m1) wait (tl script) w3
                else (Ok (None, m1), w3)
            end
        end
    end.
Proof.
  rewrite send_message_equation_1.
  match goal with
  | |- _ = ?rhs =>
      let P := eval pattern (send_message_begin a m wait w) in rhs in
      match P with
      | ?F _ =>
          enough (H : ∀ s : {y | send_message_begin a m wait w = y},
                    send_message_unfold_clause_1 a m wait script w s
                    = F (proj1_sig s)) by apply H
      end
  end.
  intros [[r w1] Hr]. cbn [proj1_sig].
  destruct r as [[m1 [f|]]|e]; simpl; [|done..].
  destruct (wait_for a f (hd [] script) w1) as [[[response|]|e] w2];
    simpl; [done| |done].
  destruct (send_message_timeout a m1 w2) as [[[]|e] w3]; simpl; [|done].
  by destruct (should_retry m1).
Qed.

Lemma gather_loop_eq ts script w :
  gather_loop ts script w
  = if forallb is_finished ts
    then (task_result <$> ts, w)
    else gather_loop (resume_all ts (deliver_all (hd [] script) w).2).1
           (tl script) (resume_all ts (deliver_all (hd [] script) w).2).2.
Proof.
  rewrite gather_loop_equation_1.
  match goal with
  | |- _ = ?rhs =>
      let P := eval pattern (forallb is_finished ts) in rhs in
      match P with
      | ?F _ =>
          enough (H : ∀ s : {b | forallb is_finished ts = b},
                    gather_loop_unfold_clause_1 ts s script w
                    = F (proj1_sig s)) by apply H
      end
  end.
  by intros [[] Hb].
Qed.

(** Deliveries change neither the name nor the queue of an endpoint. *)
Lemma deliver_all_outbox ds w a p :
  protocols w !! a = Some p →
  at_endpoint (deliver_all ds w).2 a (same_outbox p).
Proof.
  intros Hp. assert (Hw : at_endpoint w a (same_outbox p)) by by exists p.
  clear Hp. revert w Hw. induction ds as [|d ds IH]; intros w Hw; [done|].
  rewrite deliver_all_cons_eq. apply IH.
  eapply at_endpoint_alter; [apply receive_message_protocols| |done].
  intros _ q [Hn Hq]. unfold receive_effect.
  destruct (pending_future q d.2) as [[pid f]|]; [|done].
  by destruct (futures q !! f).
Qed.

(** One attempt that no delivery answers: the wait ends by a timeout, and
    the entry of the request is removed. *)
Lemma send_message_attempt_unanswered a m w p window :
  protocols w !! a = Some p →
  futures_wf w →
  Forall (λ d, ¬ answers a (message_id m) d) window →
  ∃ w1 w2 w3 p3,
    send_message_begin a m true w
    = (Ok (begin_message p m, Some (length (futures p))), w1)
    ∧ wait_for a (length (futures p)) window w1 = (Ok None, w2)
    ∧ send_message_timeout a (begin_message p m) w2 = (Ok tt, w3)
    ∧ protocols w3 !! a = Some p3
    ∧ futures_wf w3
    ∧ network_id p3 = network_id p
    ∧ _message_queue p3 = _message_queue p ++ [begin_message p m]
    ∧ _pending_responses p3 !! message_id m = None.
Proof.
  intros Hp Hwf Hwin.
  pose proof (futures_wf_lookup _ _ _ Hwf Hp) as Hpwf.
  rewrite (send_message_begin_eq a m w p Hp).
  set (w1 := set_protocols _ _).
  assert (Hp1 : protocols w1 !! a = Some (begin_effect m p)).
  { apply list_lookup_insert_eq. by eapply lookup_lt_Some. }
  assert (Hwf1 : futures_wf w1).
  { eapply futures_wf_insert; [done|by apply begin_effect_wf|done]. }
  assert (Hpend1 : at_endpoint w1 a
            (holds_pending (message_id m) (length (futures p)))).
  { eexists. split; [done|]. by apply begin_effect_own. }
  pose proof (deliver_all_unanswered window w1 a _ _ Hwin Hpend1)
    as (p2 & Hp2 & Hpend2).
  pose proof (deliver_all_outbox window w1 a _ Hp1) as (p2' & Hp2' & Hn2 & Hq2).
  rewrite Hp2 in Hp2'. injection Hp2' as <-.
  pose proof (deliver_all_wf window w1 Hwf1) as Hwf2.
  exists w1.
  rewrite wait_for_eq, (wait_for_nil_eq _ _ _ p2 Hp2).
  destruct Hpend2 as (Hk2 & Hf2 & Huniq2). rewrite Hf2.
  set (w2 := set_protocols _ (deliver_all window w1).2).
  assert (Hp2c : protocols w2 !! a = Some (cancel_effect (length (futures p)) p2)).
  { apply list_lookup_insert_eq. by eapply lookup_lt_Some. }
  exists w2.
  rewrite (send_message_timeout_eq a _ w2 _ Hp2c).
  eexists _, _.
  split; [done|]. split; [done|]. split; [done|]. simpl.
  rewrite list_insert_insert_eq.
  split; [|split; [|split; [|split]]].
  - apply list_lookup_insert_eq. by eapply lookup_lt_Some.
  - eapply futures_wf_insert with (w := (deliver_all window w1).2); [done| |done].
    apply timeout_effect_wf. by eapply futures_wf_lookup.
  - done.
  - done.
  - apply lookup_delete_eq.
Qed.

Lemma send_message_unanswered a n :
  ∀ m w p script,
    Z.to_nat (max_retries m - retry_count m) = n →
    protocols w !! a = Some p →
    futures_wf w →
    Forall (Forall (λ d, ¬ answers a (message_id m) d)) script →
    ∃ w' p',
      send_message a m true script w
      = (Ok (None,
             begin_message p
               (set_retry_count (retry_count m + Z.of_nat n) m)), w')
      ∧ protocols w' !! a = Some p'
      ∧ network_id p' = network_id p
      ∧ _pending_responses p' !! message_id m = None
      ∧ length (_message_queue p') = length (_message_queue p) + S n.
Proof.
  induction n as [|n IH]; intros m w p script Hn Hp Hwf Hscript.
  all: assert (Hwin : Forall (λ d, ¬ answers a (message_id m) d) (hd [] script))
    by (destruct script; [done|]; by apply Forall_cons in Hscript as [? _]).
  all: destruct (send_message_attempt_unanswered a m w p _ Hp Hwf Hwin)
    as (w1 & w2 & w3 & p3 & Hbegin & Hwait & Htimeout & Hp3 & Hwf3 & Hn3 & Hq3
        & Hgone).
  all: rewrite send_message_eq, Hbegin, Hwait, Htimeout.
  - replace (should_retry (begin_message p m)) with false
      by (symmetry; apply bool_decide_eq_false; simpl; lia).
    exists w3, p3. rewrite Z.add_0_r, Hq3, length_app. split; [|done].
    do 3 f_equal; by destruct m.
  - replace (should_retry (begin_message p m)) with true
      by (symmetry; apply bool_decide_eq_true; simpl; lia).
    destruct (IH (increment_retry (begin_message p m)) w3 p3 (tl script))
      as (w' & p' & Hsend & Hp' & Hn' & Hgone' & Hq'); [simpl; lia|done..| |].
    { destruct script; [done|]. by apply Forall_cons in Hscript as [_ ?]. }
    exists w', p'. rewrite Hsend. split; [|split; [done|split; [congruence|]]].
    + do 3 f_equal.
      unfold begin_message, increment_retry, set_retry_count, set_sender_id,
        set_requires_response. simpl. rewrite Hn3. f_equal. lia.
    + split; [done|]. rewrite Hq', Hq3, length_app. simpl. lia.
Qed.

Lemma futures_wf_sample_protocol_world : futures_wf sample_protocol_world.
Proof.
  apply Forall_cons. split; [|by apply Forall_nil].
  intros k f Hk. simpl in Hk.
  apply lookup_singleton_Some in Hk as [_ <-]. simpl. lia.
Qed.

(** C2. A message is sent with [wait_for_response=True] from a
    well-formed store.
    - If no delivery resolves its correlation during the first wait, the
      wait ends by a timeout: [send_message] removes the entry of the
      message from the pending table, and then, if [should_retry()] holds,
      it continues as the same call on the message with its retry count
      incremented, and otherwise it returns [None].
    - If no delivery resolves it during any wait, [send_message] returns
      [None] and does not raise; it has made one attempt per retry count
      from [retry_count] up to [max_retries] (the message has been put on
      the queue of the endpoint once per attempt), the message comes back
      with the last of these counts, and the pending table has no entry
      left for its identifier. *)
Theorem send_message_timeout_retries
    (w : World) (a : nat) (p : CommunicationProtocol) (m : Message)
    (script : list (list Delivery)) :
  protocols w !! a = Some p →
  futures_wf w →
  (Forall (λ d, ¬ answers a (message_id m) d) (hd [] script) →
   ∃ w3 p3,
     protocols w3 !! a = Some p3
     ∧ _pending_responses p3 !! message_id m = None
     ∧ _message_queue p3 = _message_queue p ++ [begin_message p m]
     ∧ send_message a m true script w
       = if should_retry m
         then send_message a (increment_retry (begin_message p m)) true
                (tl script) w3
         else (Ok (None, begin_message p m), w3))
  ∧ (Forall (Forall (λ d, ¬ answers a (message_id m) d)) script →
     let n := Z.to_nat (max_retries m - retry_count m) in
     ∃ w' p',
       send_message a m true script w
       = (Ok (None,
              begin_message p
                (set_retry_count (retry_count m + Z.of_nat n) m)), w')
       ∧ protocols w' !! a = Some p'
       ∧ _pending_responses p' !! message_id m = None
       ∧ length (_message_queue p') = length (_message_queue p) + S n).
Proof.
  intros Hp Hwf. split.
  - intros Hwin.
    destruct (send_message_attempt_unanswered a m w p _ Hp Hwf Hwin)
      as (w1 & w2 & w3 & p3 & Hbegin & Hwait & Htimeout & Hp3 & _ & _ & Hq3
          & Hgone).
    exists w3, p3. rewrite send_message_eq, Hbegin, Hwait, Htimeout.
    by repeat split.
  - intros Hscript n.
    destruct (send_message_unanswered a n m w p script eq_refl Hp Hwf Hscript)
      as (w' & p' & Hsend & Hp' & _ & Hgone & Hq).
    by exists w', p'.
Qed.

Lemma send_message_timeout_retries_witness :
  protocols sample_protocol_world !! 0 = Some sample_protocol
  ∧ futures_wf sample_protocol_world
  ∧ Forall (Forall (λ d, ¬ answers 0 (message_id sample_message) d))
      [[(0, sample_response)]]
  ∧ ∃ w' p',
      send_message 0 sample_message true [[(0, sample_response)]]
        sample_protocol_world
      = (Ok (None,
             begin_message sample_protocol
               (set_retry_count (0 + Z.of_nat 3) sample_message)), w')
      ∧ protocols w' !! 0 = Some p'
      ∧ _pending_responses p' !! "m-1" = None
      ∧ length (_message_queue p') = 4.
Proof.
  assert (Hs : Forall (Forall (λ d, ¬ answers 0 (message_id sample_message) d))
                 [[(0, sample_response)]]).
  { repeat constructor. by intros [_ ?]. }
  split; [reflexivity|]. split; [apply futures_wf_sample_protocol_world|].
  split; [exact Hs|].
  destruct (send_message_timeout_retries sample_protocol_world 0
              sample_protocol sample_message [[(0, sample_response)]])
    as [_ Hall]; [reflexivity|apply futures_wf_sample_protocol_world|].
  exact (Hall Hs).
Defined.

(** ** Tasks *)

Lemma preserves_trans a uid w1 w2 w3 :
  preserves a uid w1 w2 → preserves a uid w2 w3 → preserves a uid w1 w3.
Proof.
  intros (H1 & H2 & H3 & H4) (H1' & H2' & H3' & H4').
  split; [|split; [|split]]; eauto. congruence.
Qed.

Lemma begin_preserves a m w w' p :
  protocols w !! a = Some p →
  protocols w' = <[a := begin_effect m p]> (protocols w) →
  preserves a (message_id m) w w'.
Proof.
  intros Hp Hw'. split; [|split; [|split]].
  - intros a2 uid2 f2 Hne. eapply at_endpoint_insert; [done..|].
    intros Ha2 Hp2. apply begin_effect_pending; [done|auto].
  - intros a2 f2 r. eapply at_endpoint_insert; [done..|].
    intros _. apply begin_effect_result.
  - intros Hwf. eapply futures_wf_insert; [done| |done].
    apply begin_effect_wf. by eapply futures_wf_lookup.
  - by rewrite Hw', length_insert.
Qed.

Lemma timeout_preserves a uid f w w' p :
  protocols w !! a = Some p →
  holds_pending uid f p →
  protocols w' = <[a := timeout_effect uid (cancel_effect f p)]> (protocols w) →
  preserves a uid w w'.
Proof.
  intros Hp Hown Hw'. split; [|split; [|split]].
  - intros a2 uid2 f2 Hne. eapply at_endpoint_insert; [done..|].
    intros Ha2 Hp2. apply timeout_effect_pending; [done|done|auto].
  - intros a2 f2 r. eapply at_endpoint_insert; [done..|].
    intros _. by apply timeout_effect_result.
  - intros Hwf. eapply futures_wf_insert; [done| |done].
    apply timeout_effect_wf. by eapply futures_wf_lookup.
  - by rewrite Hw', length_insert.
Qed.

(** Starting a task on an endpoint that exists. *)
Lemma task_start_spec a m w p :
  protocols w !! a = Some p →
  futures_wf w →
  ∃ w' f,
    task_start a m w = (Waiting a (begin_message p m) f, w')
    ∧ at_endpoint w' a (holds_pending (message_id m) f)
    ∧ preserves a (message_id m) w w'.
Proof.
  intros Hp Hwf. unfold task_start. rewrite (send_message_begin_eq a m w p Hp).
  eexists _, _. split; [done|]. split.
  - eexists. split.
    + apply list_lookup_insert_eq. by eapply lookup_lt_Some.
    + apply begin_effect_own. by eapply futures_wf_lookup.
  - by eapply begin_preserves.
Qed.

(** Resuming a task whose future has a result. *)
Lemma task_resume_resolved a m f r w :
  at_endpoint w a (holds_result f r) →
  task_resume (Waiting a m f) w = (Finished (Ok (Some r)), w).
Proof.
  intros (p & Hp & Hf). unfold holds_result in Hf. cbn [task_resume].
  by rewrite (wait_for_nil_eq a f w p Hp), Hf.
Qed.

(** Resuming a task whose correlation is still pending: a timeout. *)
Lemma task_resume_pending a m f w :
  at_endpoint w a (holds_pending (message_id m) f) →
  futures_wf w →
  ∃ t' w',
    task_resume (Waiting a m f) w = (t', w')
    ∧ preserves a (message_id m) w w'
    ∧ futures_wf w'
    ∧ if should_retry m
      then ∃ m' f',
          t' = Waiting a m' f'
          ∧ message_id m' = message_id m
          ∧ retry_count m' = (retry_count m + 1)%Z
          ∧ max_retries m' = max_retries m
          ∧ at_endpoint w' a (holds_pending (message_id m) f')
      else t' = Finished (Ok None).
Proof.
  intros (p & Hp & Hown) Hwf. cbn [task_resume].
  pose proof Hown as (_ & Hf & _).
  rewrite (wait_for_nil_eq a f w p Hp), Hf.
  set (w2 := set_protocols _ w).
  assert (Hp2 : protocols w2 !! a = Some (cancel_effect f p)).
  { apply list_lookup_insert_eq. by eapply lookup_lt_Some. }
  rewrite (send_message_timeout_eq a m w2 _ Hp2).
  set (w3 := set_protocols _ _).
  assert (Hw3 : protocols w3
            = <[a := timeout_effect (message_id m) (cancel_effect f p)]>
                (protocols w)).
  { simpl. by rewrite list_insert_insert_eq. }
  assert (Hp3 : protocols w3 !! a
            = Some (timeout_effect (message_id m) (cancel_effect f p))).
  { rewrite Hw3. apply list_lookup_insert_eq. by eapply lookup_lt_Some. }
  pose proof (timeout_preserves a _ f w w3 p Hp Hown Hw3) as Hpres3.
  assert (Hwf3 : futures_wf w3) by by apply Hpres3.
  destruct (should_retry m).
  - destruct (task_start_spec a (increment_retry m) w3 _ Hp3 Hwf3)
      as (w4 & f4 & Hstart & Hown4 & Hpres4).
    eexists _, w4. split; [exact Hstart|].
    split; [by eapply preserves_trans|].
    split; [by apply Hpres4|]. eexists _, _.
    split; [reflexivity|]. repeat split. exact Hown4.
  - eexists _, w3. split; [reflexivity|]. by split.
Qed.

(** *** The tasks of a gather, one round *)

Lemma preserves_refl a uid w : preserves a uid w w.
Proof. by repeat split. Qed.

Lemma task_inv_preserved a uid w w' t :
  preserves a uid w w' →
  task_key t ≠ Some (a, uid) →
  task_inv w t → task_inv w' t.
Proof.
  intros (Hpend & _) Hkey. destruct t as [a2 m2 f2|r]; [|done].
  intros [Hid Hp]. split; [done|]. apply Hpend; [|done].
  intros -> Heq. apply Hkey. simpl. by rewrite Heq.
Qed.

Lemma task_post_preserved a uid w w' window t :
  preserves a uid w w' →
  task_key t ≠ Some (a, uid) →
  task_post w window t → task_post w' window t.
Proof.
  intros (Hpend & Hres & _) Hkey. destruct t as [a2 m2 f2|r]; [|done].
  intros [Hid Hp]. split; [done|].
  destruct (first_answer a2 (message_id m2) [window]); [by apply Hres|].
  apply Hpend; [|done]. intros -> Heq. apply Hkey. simpl. by rewrite Heq.
Qed.

(** Resuming one task after a window. *)
Lemma task_resume_spec window t w :
  futures_wf w →
  task_post w window t →
  ∃ t' w',
    task_resume t w = (t', w')
    ∧ futures_wf w'
    ∧ task_inv w' t'
    ∧ resumed window t t'
    ∧ (task_key t' = task_key t ∨ task_key t' = None)
    ∧ (∀ k, task_key t = Some k → preserves k.1 k.2 w w')
    ∧ (task_key t = None → w' = w).
Proof.
  intros Hwf Hpost. destruct t as [a m f|r].
  - destruct Hpost as [Hid Hpost]. cbn [resumed task_key].
    destruct (first_answer a (message_id m) [window]) as [r|].
    + exists (Finished (Ok (Some r))), w.
      rewrite (task_resume_resolved a m f r w Hpost).
      split; [done|]. split; [done|]. split; [done|]. split; [done|].
      split; [by right|]. split; [|done].
      intros k [= <-]. apply preserves_refl.
    + destruct (task_resume_pending a m f w Hpost Hwf)
        as (t' & w' & Hres & Hpres & Hwf' & Ht').
      exists t', w'. split; [done|]. split; [done|].
      destruct (should_retry m).
      * destruct Ht' as (m' & f' & -> & Hid' & Hrc & Hmr & Hown).
        split; [split; by rewrite Hid'|]. split; [by eexists _, _|].
        split; [left; simpl; by rewrite Hid'|]. split; [|done].
        by intros k [= <-].
      * subst t'. split; [done|]. split; [done|]. split; [by right|].
        split; [|done]. by intros k [= <-].
  - exists (Finished r), w.
    split; [done|]. split; [done|]. split; [done|]. split; [done|].
    split; [by left|]. split; [|done]. intros k Hk. discriminate Hk.
Qed.

Lemma keys_app ts1 ts2 : keys (ts1 ++ ts2) = keys ts1 ++ keys ts2.
Proof. apply omap_app. Qed.

Lemma keys_cons t ts :
  keys (t :: ts)
  = match task_key t with Some k => k :: keys ts | None => keys ts end.
Proof. done. Qed.

Lemma elem_of_keys t ts k : t ∈ ts → task_key t = Some k → k ∈ keys ts.
Proof. intros Ht Hk. apply list_elem_of_omap. eauto. Qed.

Lemma keys_others ts1 t ts2 k x :
  NoDup (keys (ts1 ++ t :: ts2)) →
  task_key t = Some k →
  x ∈ ts1 ++ ts2 →
  task_key x ≠ Some k.
Proof.
  rewrite keys_app, keys_cons. intros Hnd Hk Hx Hxk. rewrite Hk in Hnd.
  apply NoDup_app in Hnd as (_ & Hdisj & [Hnin _]%NoDup_cons).
  apply elem_of_app in Hx as [Hx|Hx].
  - apply (Hdisj k); [by eapply elem_of_keys|by left].
  - apply Hnin. by eapply elem_of_keys.
Qed.

Lemma keys_replace ts1 t t' ts2 :
  NoDup (keys (ts1 ++ t :: ts2)) →
  task_key t' = task_key t ∨ task_key t' = None →
  NoDup (keys ((ts1 ++ [t']) ++ ts2)).
Proof.
  rewrite <- app_assoc. simpl. rewrite !keys_app, !keys_cons.
  intros Hnd [->| ->]; [done|].
  destruct (task_key t); [|done].
  apply NoDup_app in Hnd as (Hnd1 & Hdisj & [_ Hnd2]%NoDup_cons).
  apply NoDup_app. split; [done|]. split; [|done].
  intros k Hk1 Hk2. apply (Hdisj k Hk1). by right.
Qed.

(** Resuming all the tasks after a window. *)
Lemma resume_all_spec window ts :
  ∀ w done_ts,
    futures_wf w →
    Forall (task_inv w) done_ts →
    Forall (task_post w window) ts →
    NoDup (keys (done_ts ++ ts)) →
    ∃ ts' w',
      resume_all ts w = (ts', w')
      ∧ futures_wf w'
      ∧ Forall (task_inv w') (done_ts ++ ts')
      ∧ Forall2 (resumed window) ts ts'
      ∧ NoDup (keys (done_ts ++ ts')).
Proof.
  induction ts as [|t ts IH]; intros w done_ts Hwf Hdone Hpost Hnd.
  - exists [], w. rewrite app_nil_r in *. by repeat split.
  - apply Forall_cons in Hpost as [Ht Hpost].
    destruct (task_resume_spec window t w Hwf Ht)
      as (t' & w1 & Hres & Hwf1 & Hinv' & Hresumed & Hkey & Hpres & Hsame).
    assert (Hdone1 : Forall (task_inv w1) done_ts
                     ∧ Forall (task_post w1 window) ts).
    { destruct (task_key t) as [k|] eqn:Hk.
      - specialize (Hpres k eq_refl). split.
        + apply Forall_forall. intros x Hx.
          eapply task_inv_preserved; [exact Hpres| |by eapply Forall_forall].
          destruct k. eapply keys_others; [done..|].
          apply elem_of_app. by left.
        + apply Forall_forall. intros x Hx.
          eapply task_post_preserved; [exact Hpres| |by eapply Forall_forall].
          destruct k. eapply keys_others; [done..|].
          apply elem_of_app. by right.
      - by rewrite (Hsame eq_refl). }
    destruct Hdone1 as [Hdone1 Hpost1].
    destruct (IH w1 (done_ts ++ [t'])) as (ts' & w2 & Hall & Hwf2 & Hinv2 & Hf2 & Hnd2).
    + done.
    + apply Forall_app. split; [done|]. by apply Forall_singleton.
    + done.
    + by eapply keys_replace.
    + exists (t' :: ts'), w2. cbn [resume_all]. rewrite Hres, Hall.
      rewrite <- app_assoc in Hinv2, Hnd2. simpl in Hinv2, Hnd2.
      split; [done|]. split; [done|]. split; [done|].
      split; [by constructor|done].
Qed.

(** *** The rounds *)

Lemma first_answer_take_S a uid k script :
  first_answer a uid (take (S k) script)
  = match first_answer a uid [hd [] script] with
    | Some r => Some r
    | None => first_answer a uid (take k (tl script))
    end.
Proof.
  destruct script as [|window script]; [by destruct k|].
  unfold first_answer. cbn [take hd tl concat]. rewrite app_nil_r.
  rewrite filter_app. by destruct (filter (answers a uid) window).
Qed.

Lemma first_answer_take_1 a uid script :
  first_answer a uid (take 1 script) = first_answer a uid [hd [] script].
Proof.
  rewrite first_answer_take_S. rewrite take_0.
  by destruct (first_answer a uid [hd [] script]).
Qed.

Lemma resumed_outcome script t t' :
  resumed (hd [] script) t t' →
  task_outcome (tl script) t' = task_outcome script t.
Proof.
  destruct t as [a m f|r]; [|by intros ->]. cbn [resumed task_outcome task_budget].
  rewrite first_answer_take_S.
  destruct (first_answer a (message_id m) [hd [] script]) as [r|].
  - by intros ->.
  - destruct (should_retry m) eqn:Hretry.
    + intros (m' & f' & -> & Hid & Hrc & Hmr).
      cbn [task_outcome task_budget]. rewrite Hid, Hrc, Hmr.
      apply bool_decide_eq_true in Hretry. do 3 f_equal. lia.
    + intros ->. cbn [task_outcome].
      apply bool_decide_eq_false in Hretry.
      replace (Z.to_nat (max_retries m - retry_count m)) with 0 by lia.
      by rewrite take_0.
Qed.

Lemma deliver_all_task_post window w t :
  task_inv w t → task_post (deliver_all window w).2 window t.
Proof.
  destruct t as [a m f|r]; [|done]. intros [Hid Hp]. split; [done|].
  by apply deliver_all_pending.
Qed.

(** [gather_loop] returns, for every task, the first answer to its request
    within the waits it may still go through. *)
Lemma gather_loop_spec n :
  ∀ ts script w,
    tasks_budget ts ≤ n →
    futures_wf w →
    Forall (task_inv w) ts →
    NoDup (keys ts) →
    (gather_loop ts script w).1 = task_outcome script <$> ts.
Proof.
  induction n as [|n IH]; intros ts script w Hn Hwf Hinv Hnd;
    rewrite gather_loop_eq.
  all: destruct (forallb is_finished ts) eqn:Hfin.
  all: try (simpl; apply list_fmap_ext; intros i t Ht;
            apply list_elem_of_lookup_2 in Ht;
            assert (Htf : is_finished t = true)
              by (by eapply forallb_forall in Hfin;
                    [|apply list_elem_of_In]);
            by destruct t).
  - pose proof (resume_all_budget ts (deliver_all (hd [] script) w).2)
      as [_ Hlt]. specialize (Hlt Hfin). lia.
  - set (w1 := (deliver_all (hd [] script) w).2).
    destruct (resume_all_spec (hd [] script) ts w1 [])
      as (ts' & w2 & Hres & Hwf2 & Hinv2 & Hf2 & Hnd2).
    + by apply deliver_all_wf.
    + done.
    + eapply Forall_impl; [exact Hinv|]. intros t.
      apply deliver_all_task_post.
    + done.
    + pose proof (resume_all_budget ts w1) as [_ Hlt]. specialize (Hlt Hfin).
      rewrite Hres in *. simpl in *. rewrite IH by (done || lia).
      apply list_eq. intros i. rewrite !list_lookup_fmap.
      destruct (ts !! i) as [t|] eqn:Hti.
      * destruct (Forall2_lookup_l _ _ _ _ _ Hf2 Hti) as (t' & Hti' & Hrt).
        rewrite Hti'. simpl. f_equal. by apply resumed_outcome.
      * apply Forall2_length in Hf2.
        rewrite (lookup_ge_None_2 ts') ; [done|].
        apply lookup_ge_None in Hti. lia.
Qed.

(** *** Starting the tasks *)

Lemma start_all_spec reqs :
  ∀ w done_ts,
    futures_wf w →
    Forall (task_inv w) done_ts →
    Forall (λ req : nat * Message,
              req.1 < length (protocols w) ∧ message_id req.2 ≠ "") reqs →
    NoDup (keys done_ts
           ++ ((λ req : nat * Message, (req.1, message_id req.2)) <$> reqs)) →
    ∃ ts w',
      start_all reqs w = (ts, w')
      ∧ futures_wf w'
      ∧ Forall (task_inv w') (done_ts ++ ts)
      ∧ NoDup (keys (done_ts ++ ts))
      ∧ ∀ script,
          task_outcome script <$> ts
          = (λ req : nat * Message,
               Ok (first_answer req.1 (message_id req.2)
                     (take (S (Z.to_nat (max_retries req.2 - retry_count req.2)))
                        script))) <$> reqs.
Proof.
  induction reqs as [|[a m] reqs IH]; intros w done_ts Hwf Hdone Hreqs Hnd.
  - exists [], w. rewrite !app_nil_r in *. by repeat split.
  - apply Forall_cons in Hreqs as [[Ha Hid] Hreqs]. simpl in Ha, Hid.
    destruct (lookup_lt_is_Some_2 _ _ Ha) as [p Hp].
    destruct (task_start_spec a m w p Hp Hwf)
      as (w1 & f & Hstart & Hown & Hpres).
    set (t := Waiting a (begin_message p m) f).
    assert (Hkeys : keys (done_ts ++ [t]) = keys done_ts ++ [(a, message_id m)])
      by by rewrite keys_app.
    destruct (IH w1 (done_ts ++ [t]))
      as (ts & w2 & Hall & Hwf2 & Hinv2 & Hnd2 & Hout).
    + by apply Hpres.
    + apply Forall_app. split; [|by apply Forall_singleton].
      apply Forall_forall. intros x Hx.
      eapply task_inv_preserved; [exact Hpres| |by eapply Forall_forall].
      intros Hk. apply NoDup_app in Hnd as (_ & Hdisj & _).
      apply (Hdisj (a, message_id m)); [by eapply elem_of_keys|by left].
    + destruct Hpres as (_ & _ & _ & Hlen). by rewrite Hlen.
    + rewrite Hkeys, <- app_assoc. done.
    + exists (t :: ts), w2. cbn [start_all]. rewrite Hstart, Hall.
      rewrite <- app_assoc in Hinv2, Hnd2.
      split; [done|]. split; [done|]. split; [done|]. split; [done|].
      intros script. cbn [fmap list_fmap]. by rewrite <- Hout.
Qed.

Lemma capability_tasks_eq r m ids w :
  Forall (λ id, is_Some (_networks r !! id)) ids →
  capability_tasks r m ids w
  = (Ok (capability_requests r (uuid4 w) (utcnow w) m (created w) ids),
     set_created (created w + length ids) w).
Proof.
  revert w. induction ids as [|id ids IH]; intros w Hids.
  - simpl. unfold mret, M_ret, set_created. rewrite Nat.add_0_r.
    by destruct w.
  - apply Forall_cons in Hids as [[a Ha] Hids].
    cbn [capability_tasks capability_requests]. rewrite Ha.
    unfold_M. simpl. rewrite IH by done. simpl.
    unfold set_created, capability_request. simpl. do 3 f_equal. lia.
Qed.

Lemma capability_requests_keys r uuid now m n ids :
  Forall (λ id, is_Some (_networks r !! id)) ids →
  (λ req : nat * Message, message_id req.2)
    <$> capability_requests r uuid now m n ids
  = uuid <$> seq n (length ids).
Proof.
  revert n. induction ids as [|id ids IH]; intros n Hids; [done|].
  apply Forall_cons in Hids as [[a Ha] Hids]. simpl. rewrite Ha. simpl.
  by rewrite IH.
Qed.

Lemma capability_requests_length r uuid now m n ids :
  Forall (λ id, is_Some (_networks r !! id)) ids →
  length (capability_requests r uuid now m n ids) = length ids.
Proof.
  intros Hids.
  rewrite <- (length_fmap (λ req : nat * Message, message_id req.2)).
  by rewrite capability_requests_keys, length_fmap, length_seq.
Qed.

Lemma capability_requests_elem r uuid now m n ids req :
  req ∈ capability_requests r uuid now m n ids →
  (∃ id, _networks r !! id = Some req.1)
  ∧ (∃ k, message_id req.2 = uuid k)
  ∧ retry_count req.2 = 0%Z ∧ max_retries req.2 = 3%Z.
Proof.
  revert n. induction ids as [|id ids IH]; intros n; simpl.
  - by intros ?%elem_of_nil.
  - intros [Hreq|Hreq]%elem_of_app; [|by eapply IH].
    destruct (_networks r !! id) as [a|] eqn:Ha; [|by apply elem_of_nil in Hreq].
    apply list_elem_of_singleton in Hreq as ->. simpl. eauto 6.
Qed.

Lemma find_networks_registered w capability :
  world_wf w →
  Forall (λ id, is_Some (_networks (router w) !! id))
    (find_networks_by_capability (router w) capability).
Proof.
  intros (_ & _ & Hdom & _). apply Forall_forall. intros id Hid.
  unfold find_networks_by_capability in Hid.
  apply list_elem_of_fmap in Hid as ([id' caps] & -> & Hin).
  apply list_elem_of_filter in Hin as [_ Hin].
  apply elem_of_map_to_list in Hin. simpl.
  apply elem_of_dom. rewrite Hdom. apply elem_of_dom. eauto.
Qed.

(** ** [route_by_capability] *)

Lemma length_omap_filter {A B} (f : A → option B) (l : list A) :
  length (omap f l) = length (filter (λ x, is_Some (f x)) l).
Proof.
  induction l as [|x l IH]; [done|]. cbn [omap list_omap].
  destruct (f x) as [y|] eqn:Hfx.
  - rewrite filter_cons_True by (rewrite Hfx; eauto). simpl. by rewrite <- IH.
  - rewrite filter_cons_False; [done|]. rewrite Hfx. by intros [? ?].
Qed.

Lemma omap_valid_response {A} (g : A → option Message) (l : list A) :
  omap valid_response ((λ x, Ok (g x)) <$> l) = omap g l.
Proof.
  induction l as [|x l IH]; [done|].
  cbn [fmap list_fmap omap list_omap valid_response].
  fold (omap valid_response ((λ x, Ok (g x)) <$> l)). fold (omap g l).
  rewrite IH. by destruct (g x).
Qed.

Lemma gather_send_eq reqs script w :
  futures_wf w →
  Forall (λ req : nat * Message,
            req.1 < length (protocols w) ∧ message_id req.2 ≠ "") reqs →
  NoDup ((λ req : nat * Message, (req.1, message_id req.2)) <$> reqs) →
  (gather_send reqs script w).1
  = Ok ((λ req : nat * Message,
           Ok (first_answer req.1 (message_id req.2)
                 (take (S (Z.to_nat (max_retries req.2 - retry_count req.2)))
                    script))) <$> reqs).
Proof.
  intros Hwf Hreqs Hnd. unfold gather_send.
  destruct (start_all_spec reqs w [] Hwf (Forall_nil_2 _) Hreqs Hnd)
    as (ts & w1 & Hstart & Hwf1 & Hinv1 & Hnd1 & Hout).
  rewrite Hstart.
  pose proof (gather_loop_spec (tasks_budget ts) ts script w1 (le_n _)
                Hwf1 Hinv1 Hnd1) as Hloop.
  destruct (gather_loop ts script w1) as [rs w2]. simpl in *.
  by rewrite Hloop, Hout.
Qed.

(** C1, as amended. On a well-formed store, the identifiers that [uuid4]
    draws being distinct and not empty, let [route_by_capability(m, t)] run
    while the deliveries of [script] happen, one window per wait.  It
    builds one request for each of the N registered networks that hold
    [t], and it returns, in the order of the requests, the first response
    to each request that arrives while [send_message] waits for it, during
    any of the (at most four) waits of that request: exactly the resolved
    responses, K of them when K requests get one, nothing for the N-K
    others.  A response that arrives after the first timeout, during a
    retry, is among them.  When no network holds [t] it returns the empty
    list at once: it logs one warning and sends nothing. *)
Theorem route_by_capability_collects
    (w : World) (m : Message) (t : string) (script : list (list Delivery)) :
  world_wf w →
  Inj (=) (=) (uuid4 w) →
  (∀ n, uuid4 w n ≠ "") →
  let network_ids := find_networks_by_capability (router w) t in
  let requests :=
    capability_requests (router w) (uuid4 w) (utcnow w) m (created w)
      network_ids in
  let answer (req : nat * Message) :=
    first_answer req.1 (message_id req.2) (take 4 script) in
  length requests = length network_ids
  ∧ (route_by_capability m t script w).1 = Ok (omap answer requests)
  ∧ length (omap answer requests)
    = length (filter (λ req, is_Some (answer req)) requests)
  ∧ (network_ids = [] →
     route_by_capability m t script w
     = (Ok [], set_trace (trace w ++ [no_networks_entry t]) w)).
Proof.
  intros Hwf Hinj Hne network_ids requests answer.
  pose proof (find_networks_registered w t Hwf) as Hids.
  fold network_ids in Hids.
  assert (Hlen : length requests = length network_ids)
    by by apply capability_requests_length.
  split; [done|]. split; [|split; [apply length_omap_filter|]].
  - unfold route_by_capability. rewrite bind_eq. unfold get_router at 1.
    fold network_ids. destruct network_ids as [|id ids] eqn:Hnet.
    { by destruct requests. }
    rewrite bind_eq, capability_tasks_eq by done. fold requests.
    set (w1 := set_created _ w). rewrite bind_eq.
    assert (Hgather : (gather_send requests script w1).1
              = Ok ((λ req, Ok (answer req)) <$> requests)).
    { rewrite gather_send_eq.
      - f_equal. apply list_fmap_ext. intros i req Hreq.
        apply list_elem_of_lookup_2, capability_requests_elem in Hreq
          as (_ & _ & -> & ->). done.
      - by destruct Hwf as (_ & ? & _).
      - apply Forall_forall. intros req Hreq.
        apply capability_requests_elem in Hreq as ([id' Ha] & [k ->] & _).
        split; [|done]. destruct Hwf as (Hnet' & _). by apply Hnet' in Ha.
      - apply (NoDup_fmap_1 snd). rewrite <- list_fmap_compose.
        change (snd ∘ _) with (λ req : nat * Message, message_id req.2).
        unfold requests. rewrite capability_requests_keys by done.
        apply NoDup_fmap_2; [done|apply NoDup_seq]. }
    destruct (gather_send requests script w1) as [rs w2]. simpl in Hgather.
    subst rs. rewrite ret_eq. simpl. f_equal. apply omap_valid_response.
  - intros Hnil. unfold route_by_capability. rewrite bind_eq.
    unfold get_router at 1. fold network_ids. rewrite Hnil.
    by rewrite bind_eq.
Qed.

Lemma route_by_capability_collects_witness :
  world_wf sample_world
  ∧ Inj (=) (=) (uuid4 sample_world)
  ∧ (∀ n, uuid4 sample_world n ≠ "")
  ∧ find_networks_by_capability (router sample_world) "search" = ["A"; "B"]
  ∧ (route_by_capability search_request "search"
       [[search_answer 1 "uuid-1" "found"]] sample_world).1
    = Ok [(search_answer 1 "uuid-1" "found").2].
Proof.
  set (script := [[search_answer 1 "uuid-1" "found"]]).
  split; [apply sample_world_wf|]. split; [apply sample_uuid4_inj|].
  split; [apply sample_uuid4_nonempty|]. split; [reflexivity|].
  destruct (route_by_capability_collects sample_world search_request "search"
              script sample_world_wf sample_uuid4_inj sample_uuid4_nonempty)
    as (_ & Hresult & _).
  rewrite Hresult. reflexivity.
Defined.

(** C1 as it was stated counts the networks that respond within the
    timeout.  Here two networks hold the capability and neither responds
    within the timeout (no request has an answer in the window of its
    first wait); one responds during the second wait, after a timeout and a
    retry, and its response is returned: one response, where none of the
    two networks responded within the timeout. *)
Lemma route_by_capability_late_answer :
  find_networks_by_capability (router sample_world) "search" = ["A"; "B"]
  ∧ Forall (λ req : nat * Message,
              first_answer req.1 (message_id req.2)
                (take 1 [[]; [search_answer 1 "uuid-1" "found"]]) = None)
      (capability_requests (router sample_world) (uuid4 sample_world)
         (utcnow sample_world) search_request (created sample_world)
         ["A"; "B"])
  ∧ (route_by_capability search_request "search"
       [[]; [search_answer 1 "uuid-1" "found"]] sample_world).1
    = Ok [(search_answer 1 "uuid-1" "found").2].
Proof.
  split; [reflexivity|]. split; [|vm_compute; reflexivity].
  repeat constructor.
Qed.

Example route_by_capability_nobody :
  route_by_capability search_request "translate" [] sample_world
  = (Ok [],
     set_trace (trace sample_world ++ [no_networks_entry "translate"])
       sample_world).
Proof. reflexivity. Qed.

Example route_by_capability_both_answer :
  (λ r : Message, payload r !! "a")
    <$> default []
          (match (route_by_capability search_request "search"
                    [[search_answer 1 "uuid-1" "b"];
                     [];
                     [search_answer 0 "uuid-0" "a"]] sample_world).1 with
           | Ok rs => Some rs
           | Raise _ => None
           end)
  = [Some (PStr "a"); Some (PStr "b")].
Proof. vm_compute. reflexivity. Qed.

(** ** A gather of one task is a call of [send_message] *)

Lemma gather_loop_finished r script w :
  gather_loop [Finished r] script w = ([r], w).
Proof. by rewrite gather_loop_eq. Qed.

Lemma gather_send_single a n :
  ∀ m script w,
    Z.to_nat (max_retries m - retry_count m) = n →
    gather_send [(a, m)] script w
    = (Ok [gathered (send_message a m true script w).1],
       (send_message a m true script w).2).
Proof.
  induction n as [n IH] using lt_wf_ind. intros m script w Hn.
  unfold gather_send. cbn [start_all]. unfold task_start.
  rewrite send_message_eq.
  destruct (send_message_begin a m true w) as [[[m1 [f|]]|e] w1] eqn:Hbegin;
    [|by rewrite gather_loop_finished..].
  rewrite gather_loop_eq. cbn [forallb is_finished andb resume_all task_resume].
  rewrite (wait_for_eq a f (hd [] script) w1).
  destruct (wait_for a f [] (deliver_all (hd [] script) w1).2)
    as [[[response|]|e] w2]; cbn [fst snd];
    [by rewrite gather_loop_finished| |by rewrite gather_loop_finished].
  destruct (send_message_timeout a m1 w2) as [[[]|e] w3]; cbn [fst snd];
    [|by rewrite gather_loop_finished].
  destruct (should_retry m1) eqn:Hretry; cbn [fst snd];
    [|by rewrite gather_loop_finished].
  apply send_message_begin_retries in Hbegin as [Hrc Hmr].
  apply bool_decide_eq_true in Hretry.
  specialize (IH (Z.to_nat (max_retries (increment_retry m1)
                            - retry_count (increment_retry m1)))).
  specialize (IH ltac:(simpl; lia) (increment_retry m1) (tl script) w3 eq_refl).
  unfold gather_send in IH. cbn [start_all] in IH.
  destruct (task_start a (increment_retry m1) w3) as [t w4]. cbn [fst snd].
  by destruct (gather_loop [t] (tl script) w4) as [rs w5].
Qed.

(** ** Every operation keeps the store well formed *)

Lemma store_ok_refl w : store_ok w w.
Proof. by split. Qed.

Lemma store_ok_trans w1 w2 w3 : store_ok w1 w2 → store_ok w2 w3 → store_ok w1 w3.
Proof. intros [H1 H2] [H1' H2']. split; [congruence|auto]. Qed.

Lemma store_ok_same w w' : protocols w' = protocols w → store_ok w w'.
Proof. unfold store_ok, futures_wf. by intros ->. Qed.

Lemma store_ok_insert w w' a p p' :
  protocols w !! a = Some p →
  protocols w' = <[a := p']> (protocols w) →
  (protocol_wf p → protocol_wf p') →
  store_ok w w'.
Proof.
  intros Hp Hw' Hwf. split; [by rewrite Hw', length_insert|].
  intros Hw. eapply futures_wf_insert; [done| |done].
  apply Hwf. by eapply futures_wf_lookup.
Qed.

Lemma receive_message_store_ok a m w : store_ok w (receive_message a m w).2.
Proof.
  split; [apply receive_message_protocols_length|apply (deliver_wf (a, m))].
Qed.

Lemma deliver_all_store_ok ds w : store_ok w (deliver_all ds w).2.
Proof.
  revert w. induction ds as [|d ds IH]; intros w; [apply store_ok_refl|].
  rewrite deliver_all_cons_eq.
  eapply store_ok_trans; [apply receive_message_store_ok|apply IH].
Qed.

Lemma send_message_begin_store_ok a m w :
  store_ok w (send_message_begin a m true w).2.
Proof.
  destruct (protocols w !! a) as [p|] eqn:Hp.
  - rewrite (send_message_begin_eq a m w p Hp).
    eapply store_ok_insert; [done..|apply begin_effect_wf].
  - apply store_ok_same. unfold send_message_begin. unfold_M. simpl.
    by rewrite Hp.
Qed.

Lemma wait_for_nil_store_ok a f w : store_ok w (wait_for a f [] w).2.
Proof.
  destruct (protocols w !! a) as [p|] eqn:Hp.
  - rewrite (wait_for_nil_eq a f w p Hp).
    destruct (futures p !! f) as [[]|]; try apply store_ok_refl.
    all: eapply store_ok_insert; [done..|].
    all: intros Hwf k f' Hk; apply Hwf in Hk; simpl in *;
      by rewrite length_insert.
  - apply store_ok_same. unfold wait_for. unfold_M. simpl. by rewrite Hp.
Qed.

Lemma send_message_timeout_store_ok a m w :
  store_ok w (send_message_timeout a m w).2.
Proof.
  destruct (protocols w !! a) as [p|] eqn:Hp.
  - rewrite (send_message_timeout_eq a m w p Hp).
    eapply store_ok_insert; [done..|].
    intros Hwf k f' Hk. simpl in *.
    apply lookup_delete_Some in Hk as [_ Hk]. by apply Hwf in Hk.
  - apply store_ok_same. unfold send_message_timeout. unfold_M. simpl.
    by rewrite Hp.
Qed.

Lemma task_start_store_ok a m w : store_ok w (task_start a m w).2.
Proof.
  unfold task_start. pose proof (send_message_begin_store_ok a m w).
  by destruct (send_message_begin a m true w) as [[[? [?|]]|?] ?].
Qed.

Lemma task_resume_store_ok t w : store_ok w (task_resume t w).2.
Proof.
  destruct t as [a m f|r]; [|apply store_ok_refl]. cbn [task_resume].
  pose proof (wait_for_nil_store_ok a f w) as H1.
  destruct (wait_for a f [] w) as [[[?|]|?] w2]; simpl in *; try done.
  pose proof (send_message_timeout_store_ok a m w2) as H2.
  destruct (send_message_timeout a m w2) as [[[]|?] w3]; simpl in *;
    [|by eapply store_ok_trans].
  destruct (should_retry m); simpl; [|by eapply store_ok_trans].
  eapply store_ok_trans; [done|].
  eapply store_ok_trans; [done|apply task_start_store_ok].
Qed.

Lemma start_all_store_ok ts w : store_ok w (start_all ts w).2.
Proof.
  revert w. induction ts as [|[a m] ts IH]; intros w; [apply store_ok_refl|].
  cbn [start_all]. pose proof (task_start_store_ok a m w).
  destruct (task_start a m w) as [t w1]. specialize (IH w1).
  destruct (start_all ts w1) as [ts' w2]. by eapply store_ok_trans.
Qed.

Lemma resume_all_store_ok ts w : store_ok w (resume_all ts w).2.
Proof.
  revert w. induction ts as [|t ts IH]; intros w; [apply store_ok_refl|].
  cbn [resume_all]. pose proof (task_resume_store_ok t w).
  destruct (task_resume t w) as [t' w1]. specialize (IH w1).
  destruct (resume_all ts w1) as [ts' w2]. by eapply store_ok_trans.
Qed.

Lemma gather_loop_store_ok ts script w : store_ok w (gather_loop ts script w).2.
Proof.
  funelim (gather_loop ts script w); [apply store_ok_refl|].
  eapply store_ok_trans; [apply deliver_all_store_ok|].
  eapply store_ok_trans; [apply resume_all_store_ok|].
  match goal with IH : store_ok _ _ |- _ => exact IH end.
Qed.

Lemma gather_send_store_ok ts script w : store_ok w (gather_send ts script w).2.
Proof.
  unfold gather_send. pose proof (start_all_store_ok ts w).
  destruct (start_all ts w) as [tasks w1].
  pose proof (gather_loop_store_ok tasks script w1).
  destruct (gather_loop tasks script w1) as [rs w2]. by eapply store_ok_trans.
Qed.

Lemma capability_tasks_protocols r m ids w :
  protocols (capability_tasks r m ids w).2 = protocols w.
Proof.
  revert w. induction ids as [|id ids IH]; intros w; [done|].
  cbn [capability_tasks]. unfold_M. simpl.
  destruct (_networks r !! id); simpl; [|done].
  specialize (IH (set_created (S (created w)) w)).
  destruct (capability_tasks r m ids _) as [[?|?] ?]; simpl in *; done.
Qed.

Lemma route_by_capability_store_ok m cap script w :
  store_ok w (route_by_capability m cap script w).2.
Proof.
  unfold route_by_capability. rewrite bind_eq. unfold get_router at 1.
  destruct (find_networks_by_capability (router w) cap) as [|id ids];
    [by apply store_ok_same|].
  rewrite bind_eq.
  pose proof (capability_tasks_protocols (router w) m (id :: ids) w) as Hc.
  destruct (capability_tasks (router w) m (id :: ids) w) as [[tasks|?] w1];
    simpl in Hc; [|by apply store_ok_same].
  rewrite bind_eq. pose proof (gather_send_store_ok tasks script w1) as Hg.
  destruct (gather_send tasks script w1) as [[?|?] w2]; simpl in *.
  all: eapply store_ok_trans; [by apply store_ok_same|done].
Qed.

Lemma _broadcast_store_ok m w : store_ok w (_broadcast m w).2.
Proof.
  unfold _broadcast. rewrite bind_eq. unfold get_router at 1.
  rewrite bind_eq, broadcast_tasks_eq.
  destruct (broadcast_copies _ _ _ _ _) as [|d ds]; [by apply store_ok_same|].
  eapply store_ok_trans; [|apply deliver_all_store_ok]. by apply store_ok_same.
Qed.

Lemma route_message_store_ok m w : store_ok w (route_message m w).2.
Proof.
  unfold route_message. rewrite bind_eq.
  destruct (_log_message_frame m w) as (Hlog & Hps & _).
  destruct (_log_message m w) as [r w1]. simpl in *. subst r.
  eapply store_ok_trans; [by apply store_ok_same|].
  destruct (str_truthy (receiver_id m)); cbn [negb].
  - rewrite bind_eq. unfold get_router at 1.
    destruct (_networks (router w1) !! receiver_id m) as [a|].
    + rewrite bind_eq. pose proof (receive_message_store_ok a m w1).
      by destruct (receive_message a m w1) as [[[]|?] ?].
    + by apply store_ok_same.
  - rewrite bind_eq. pose proof (_broadcast_store_ok m w1).
    by destruct (_broadcast m w1) as [[[]|?] ?].
Qed.

Lemma run_call_wf c w :
  world_wf w → valid_call w c →
  world_wf (run_call c w)
  ∧ length (protocols (run_call c w)) = length (protocols w).
Proof.
  intros Hwf Hc. destruct c as [id a caps|id|m|m cap script]; simpl.
  - split; [by apply register_network_wf|done].
  - split; [by apply unregister_network_wf|done].
  - destruct (route_message_store_ok m w) as [Hlen Hfut].
    split; [|done]. destruct Hwf as (Hnet & Hps & Hdom & Hcap).
    unfold world_wf.
    rewrite route_message_router, _log_message_eq, Hlen by lia. simpl.
    split; [done|]. split; [by apply Hfut|done].
  - destruct (route_by_capability_store_ok m cap script w) as [Hlen Hfut].
    split; [|done]. destruct Hwf as (Hnet & Hps & Hdom & Hcap).
    unfold world_wf. rewrite route_by_capability_router, Hlen.
    split; [done|]. split; [by apply Hfut|done].
Qed.

(** From a well-formed store, every sequence of calls that the program
    can make leads to a well-formed store. *)
Lemma run_calls_wf cs w :
  world_wf w → Forall (valid_call w) cs → world_wf (run_calls cs w).
Proof.
  revert w. induction cs as [|c cs IH]; intros w Hwf Hcs; [done|].
  apply Forall_cons in Hcs as [Hc Hcs].
  destruct (run_call_wf c w Hwf Hc) as [Hwf' Hlen].
  cbn [run_calls foldl]. apply IH; [done|].
  eapply Forall_impl; [exact Hcs|].
  intros c' Hc'. destruct c'; simpl in *; [|done..]. by rewrite Hlen.
Qed.

(** The eviction, seen on a log of capacity two. *)
Example audit_log_capacity_two :
  let w := set_router (mkRouter ∅ ∅ [] 2) world_init in
  let m1 := sample_message in
  let m2 := sample_response in
  let m3 := broadcast_sample in
  _message_log
    (router (run_calls [CallRouteMessage m1; CallRouteMessage m2;
                        CallRouteMessage m3] w))
  = [to_dict m2; to_dict m3].
Proof. vm_compute. reflexivity. Qed.


(** * Further properties *)

(** ** The envelope: what [from_dict] requires and returns *)

Lemma MessageType_value_of_value s t :
  MessageType_of_value s = Some t → MessageType_value t = s.
Proof.
  unfold MessageType_of_value. intros H.
  destruct (list_find _ all_MessageType) as [[i t']|] eqn:Hfind; [|done].
  apply list_find_Some in Hfind as (_ & ? & _). simpl in H. congruence.
Qed.

Lemma fromisoformat_valid s d :
  fromisoformat s = Some d → valid_datetime d = true.
Proof.
  unfold fromisoformat. intros H.
  repeat match type of H with
         | (mbind _ ?x) = Some _ =>
             destruct x as [[? ?]|] eqn:?; simpl in H; [|discriminate]
         | (mbind _ ?x) = Some _ =>
             destruct x as [?|] eqn:?; simpl in H; [|discriminate]
         | (match ?x with _ => _ end) = Some _ =>
             destruct x eqn:?; simpl in H; try discriminate
         | (if ?x then _ else _) = Some _ =>
             destruct x eqn:?; simpl in H; try discriminate
         end; by simplify_eq.
Qed.

Lemma getitem_Ok (data : PyDict) k v :
  getitem data k = Ok v ↔ data !! k = Some v.
Proof.
  unfold getitem. destruct (data !! k); split; intros H; by simplify_eq.
Qed.

Lemma as_str_Ok v s : as_str v = Ok s → v = PStr s.
Proof. destruct v; intros H; by simplify_eq/=. Qed.

Lemma as_dict_Ok v d : as_dict v = Ok d → v = PDict d.
Proof. destruct v; intros H; by simplify_eq/=. Qed.

(** What a mapping holds when [from_dict] accepts it. *)
Lemma from_dict_Ok_inv (data : PyDict) (m : Message) :
  from_dict data = Ok m →
  data !! "message_id" = Some (PStr (message_id m))
  ∧ (∃ s, data !! "message_type" = Some (PStr s)
          ∧ MessageType_value (message_type m) = s)
  ∧ data !! "sender_id" = Some (PStr (sender_id m))
  ∧ data !! "receiver_id" = Some (PStr (receiver_id m))
  ∧ is_Some (data !! "priority")
  ∧ (∃ s, data !! "timestamp" = Some (PStr s)
          ∧ fromisoformat s = Some (timestamp m))
  ∧ data !! "payload" = Some (PDict (payload m)).
Proof.
  unfold from_dict. intros H.
  repeat match type of H with
         | (mbind _ ?x) = Ok _ =>
             destruct x as [?|?] eqn:?; cbn [mbind Result_bind] in H;
             [|discriminate]
         end.
  repeat match goal with
         | H : getitem _ _ = Ok _ |- _ => apply getitem_Ok in H
         | H : as_str _ = Ok _ |- _ => apply as_str_Ok in H
         | H : as_dict _ = Ok _ |- _ => apply as_dict_Ok in H
         end.
  injection H as <-. simpl. subst.
  repeat match goal with
         | H : MessageType_call ?v = Ok _ |- _ =>
             destruct v; try discriminate H; simpl in H
         | H : fromisoformat_call ?v = Ok _ |- _ =>
             destruct v; try discriminate H; simpl in H
         | H : match ?x with _ => _ end = Ok _ |- _ =>
             destruct x eqn:?; try discriminate H
         end.
  simplify_eq.
  repeat split; eauto using MessageType_value_of_value.
Qed.

(** X1. A mapping that lacks one of the seven keys that [from_dict] reads
    with [data[key]] is never accepted: [from_dict] raises, whatever else
    the mapping holds. *)
Theorem from_dict_requires_key (data : PyDict) (k : string) :
  k ∈ required_keys → data !! k = None → ∃ e, from_dict data = Raise e.
Proof.
  intros Hk Hnone. destruct (from_dict data) as [m|e] eqn:H; [|eauto].
  apply from_dict_Ok_inv in H
    as (? & (? & ? & _) & ? & ? & [? ?] & (? & ? & _) & ?).
  unfold required_keys in Hk.
  repeat (apply elem_of_cons in Hk as [->|Hk]; [congruence|]).
  by apply elem_of_nil in Hk.
Qed.

Lemma from_dict_requires_key_witness :
  "priority" ∈ required_keys
  ∧ delete "priority" (to_dict sample_message) !! "priority" = None
  ∧ ∃ e, from_dict (delete "priority" (to_dict sample_message)) = Raise e.
Proof.
  assert (Hk : "priority" ∈ required_keys)
    by (unfold required_keys; rewrite !elem_of_cons; auto 10).
  split; [exact Hk|]. split; [reflexivity|].
  apply (from_dict_requires_key _ "priority" Hk). reflexivity.
Defined.

(** X2. Removing one required key from a serialised message makes
    [from_dict] raise the KeyError of that very key: the keys before it
    are read without error, and nothing after it is looked at. *)
Theorem from_dict_missing_key_error (m : Message) (k : string) :
  valid_datetime (timestamp m) = true →
  k ∈ required_keys →
  from_dict (delete k (to_dict m)) = Raise (KeyError k).
Proof.
  intros Hts Hk.
  destruct (to_dict_lookup m)
    as (Hid & Hty & Hs & Hr & Hp & Hti & Hpl & _).
  unfold required_keys in Hk.
  repeat (apply elem_of_cons in Hk as [->|Hk];
    [ unfold from_dict, getitem;
      match goal with
      | |- context [delete ?key (to_dict m)] =>
          change (delete key (to_dict m))
            with (without_keys [key] (to_dict m))
      end;
      rewrite !lookup_without_keys, ?Hid, ?Hty, ?Hs, ?Hr, ?Hp, ?Hti, ?Hpl;
      repeat match goal with
             | |- context [decide (?a ∈ [?b])] =>
                 first
                   [ rewrite (decide_False (P := a ∈ [b]))
                       by (intros ?%list_elem_of_singleton; discriminate)
                   | rewrite (decide_True (P := a ∈ [b]))
                       by (apply list_elem_of_singleton; reflexivity) ]
             end;
      cbn [mbind Result_bind as_str as_dict MessageType_call
             MessagePriority_call fromisoformat_call];
      rewrite ?MessageType_of_value_value, ?MessagePriority_of_value_value,
        ?fromisoformat_isoformat by done;
      reflexivity |]).
  by apply elem_of_nil in Hk.
Qed.

Lemma from_dict_missing_key_error_witness :
  valid_datetime (timestamp sample_message) = true
  ∧ "timestamp" ∈ required_keys
  ∧ from_dict (delete "timestamp" (to_dict sample_message))
    = Raise (KeyError "timestamp").
Proof.
  assert (Hk : "timestamp" ∈ required_keys)
    by (unfold required_keys; rewrite !elem_of_cons; auto 10).
  split; [reflexivity|]. split; [exact Hk|].
  apply (from_dict_missing_key_error sample_message "timestamp");
    [reflexivity|exact Hk].
Defined.

(** X3. What [from_dict] accepts, [to_dict] writes back in a form that
    [from_dict] reads as the same message; and the identifier, the sender,
    the receiver and the payload of the message are the ones the mapping
    holds. *)
Theorem from_dict_then_to_dict (data : PyDict) (m : Message) :
  from_dict data = Ok m →
  from_dict (to_dict m) = Ok m
  ∧ data !! "message_id" = Some (PStr (message_id m))
  ∧ data !! "message_type"
    = Some (PStr (MessageType_value (message_type m)))
  ∧ data !! "sender_id" = Some (PStr (sender_id m))
  ∧ data !! "receiver_id" = Some (PStr (receiver_id m))
  ∧ data !! "payload" = Some (PDict (payload m)).
Proof.
  intros H.
  apply from_dict_Ok_inv in H
    as (Hid & (s & Hty & <-) & Hs & Hr & _ & (ts & _ & Hts) & Hpl).
  split; [|done].
  apply fromisoformat_valid in Hts.
  pose proof (from_dict_without_keys m [] Hts) as Hm.
  simpl in Hm. rewrite Hm by apply list_subseteq_nil. by destruct m.
Qed.

Lemma from_dict_then_to_dict_witness :
  from_dict (without_keys optional_keys (to_dict sample_message))
  = Ok (with_defaults optional_keys sample_message)
  ∧ from_dict (to_dict (with_defaults optional_keys sample_message))
    = Ok (with_defaults optional_keys sample_message).
Proof.
  assert (H : from_dict (without_keys optional_keys (to_dict sample_message))
              = Ok (with_defaults optional_keys sample_message))
    by (vm_compute; reflexivity).
  split; [exact H|].
  exact (proj1 (from_dict_then_to_dict _ _ H)).
Defined.

(** X4. The retry budget.  After [k] calls of [increment_retry] the retry
    count has grown by [k] and nothing else has changed, and
    [should_retry] holds exactly while the count is below [max_retries]:
    a message built with the defaults can be retried three times. *)
Theorem retry_budget (m : Message) (k : nat) :
  let m' := Nat.iter k increment_retry m in
  m' = set_retry_count (retry_count m + Z.of_nat k) m
  ∧ (should_retry m' = true
     ↔ (retry_count m + Z.of_nat k < max_retries m)%Z).
Proof.
  cbv zeta.
  assert (H : Nat.iter k increment_retry m
              = set_retry_count (retry_count m + Z.of_nat k) m).
  { induction k as [|k IH].
    - simpl. rewrite Z.add_0_r. by destruct m.
    - rewrite Nat.iter_succ, IH. unfold increment_retry, set_retry_count.
      simpl. f_equal. lia. }
  split; [exact H|]. rewrite H. unfold should_retry. simpl.
  apply bool_decide_eq_true.
Qed.

(** ** [send_message]: without waiting, and answered *)

(** X5. Sent without waiting for a response, a message is stamped with
    the identifier of the endpoint and put on its queue, and
    [send_message] returns [None] at once, whatever the script: no entry
    is made in the pending table, no future is created, no window of
    deliveries is used, and no endpoint receives anything. *)
Theorem send_message_fire_and_forget
    (w : World) (a : nat) (p : CommunicationProtocol) (m : Message)
    (script : list (list Delivery)) :
  protocols w !! a = Some p →
  let m1 := set_sender_id (network_id p) m in
  let w' := (send_message a m false script w).2 in
  (send_message a m false script w).1 = Ok (None, m1)
  ∧ protocols w'
    = <[a := set_message_queue (_message_queue p ++ [m1]) p]> (protocols w)
  ∧ trace w' = trace w ++ [sending_message_entry p m]
  ∧ received (trace w') = received (trace w).
Proof.
  intros Hp. cbv zeta.
  rewrite send_message_eq, (send_message_begin_nowait_eq a m w p Hp).
  simpl. repeat split. unfold received. rewrite omap_app. simpl.
  by rewrite app_nil_r.
Qed.

Lemma send_message_fire_and_forget_witness :
  protocols sample_protocol_world !! 0 = Some sample_protocol
  ∧ (send_message 0 sample_message false [[(0, sample_response)]]
       sample_protocol_world).1
    = Ok (None, set_sender_id "A" sample_message).
Proof.
  split; [reflexivity|].
  apply (send_message_fire_and_forget sample_protocol_world 0 sample_protocol
           sample_message [[(0, sample_response)]]).
  reflexivity.
Defined.

Lemma send_message_gathered a m script w :
  futures_wf w → a < length (protocols w) → message_id m ≠ "" →
  gathered (send_message a m true script w).1
  = Ok (first_answer a (message_id m)
          (take (S (Z.to_nat (max_retries m - retry_count m))) script)).
Proof.
  intros Hwf Ha Hid.
  pose proof (gather_send_single a _ m script w eq_refl) as Hsingle.
  pose proof (gather_send_eq [(a, m)] script w Hwf) as Hgather.
  rewrite Hsingle in Hgather. simpl in Hgather.
  assert (Heq : Ok [gathered (send_message a m true script w).1]
            = Ok [Ok (first_answer a (message_id m)
                        (take (S (Z.to_nat (max_retries m - retry_count m)))
                           script))]).
  { apply Hgather.
    - by repeat constructor.
    - apply NoDup_singleton. }
  by simplify_eq.
Qed.

(** X6. A request whose identifier is not empty, sent with
    [wait_for_response=True] from a well-formed store, never raises: what
    [send_message] returns is the first response to it that is delivered
    to the endpoint during one of its waits, of which there are at most
    [max_retries - retry_count + 1], and [None] when there is none. *)
Theorem send_message_returns_first_answer
    (w : World) (a : nat) (m : Message) (script : list (list Delivery)) :
  futures_wf w → a < length (protocols w) → message_id m ≠ "" →
  ∃ m',
    (send_message a m true script w).1
    = Ok (first_answer a (message_id m)
            (take (S (Z.to_nat (max_retries m - retry_count m))) script),
          m').
Proof.
  intros Hwf Ha Hid.
  pose proof (send_message_gathered a m script w Hwf Ha Hid) as H.
  destruct (send_message a m true script w).1 as [[r m']|e]; simpl in H;
    [|discriminate].
  exists m'. by simplify_eq.
Qed.

Lemma send_message_returns_first_answer_witness :
  futures_wf sample_protocol_world
  ∧ 0 < length (protocols sample_protocol_world)
  ∧ message_id sample_message ≠ ""
  ∧ ∃ m',
      (send_message 0 sample_message true
         [[]; [(0, sample_response); (0, search_answer 0 "m-1" "late").2]]
         sample_protocol_world).1
      = Ok (Some (search_answer 0 "m-1" "late").2, m').
Proof.
  split; [apply futures_wf_sample_protocol_world|].
  split; [simpl; lia|]. split; [discriminate|].
  destruct (send_message_returns_first_answer sample_protocol_world 0
              sample_message
              [[]; [(0, sample_response); (0, search_answer 0 "m-1" "late").2]])
    as [m' Hm'];
    [apply futures_wf_sample_protocol_world|simpl; lia|discriminate|].
  exists m'. rewrite Hm'. reflexivity.
Defined.

(** ** A request, its response, and the router *)

(** X7. An endpoint that is registered with the router under its own
    identifier sends a request and waits.  The response that
    [create_response] builds from the request as it was sent, handed to
    [route_message], is routed back to that endpoint ([True]), resolves
    the correlation of the request and removes its entry; the sender,
    resumed, gets this very response. *)
Theorem request_response_round_trip
    (w : World) (a : nat) (p : CommunicationProtocol) (m : Message)
    (uid : string) (now : datetime) (pl : PyDict) (md : option PyDict) :
  protocols w !! a = Some p →
  network_id p ≠ "" →
  _networks (router w) !! network_id p = Some a →
  message_id m ≠ "" →
  let request := begin_message p m in
  let f := length (futures p) in
  let response := create_response request uid now pl md in
  ∃ w1 w2 p2,
    send_message_begin a m true w = (Ok (request, Some f), w1)
    ∧ route_message response w1 = (Ok true, w2)
    ∧ protocols w2 !! a = Some p2
    ∧ _pending_responses p2 !! message_id m = None
    ∧ wait_for a f [] w2 = (Ok (Some response), w2).
Proof.
  intros Hp Hid Hreg Hm request f response.
  rewrite (send_message_begin_eq a m w p Hp). fold request.
  set (w1 := set_protocols _ _). exists w1.
  assert (Hp1 : protocols w1 !! a = Some (begin_effect m p)).
  { apply list_lookup_insert_eq. by eapply lookup_lt_Some. }
  assert (Hrecv : receiver_id response = network_id p) by done.
  rewrite route_message_direct by by rewrite Hrecv.
  cbv zeta. rewrite Hrecv.
  change (router w1) with (router w). rewrite Hreg.
  assert (Hpf : pending_future (begin_effect m p) response
                = Some (message_id m, f)).
  { apply pending_future_Some. split; [done|]. split; [done|].
    simpl. apply lookup_insert_eq. }
  assert (Hfut : futures (begin_effect m p) !! f = Some FPending).
  { simpl. by rewrite lookup_app_r, Nat.sub_diag. }
  rewrite (receive_message_response_eq (_log_message response w1).2 a
             (begin_effect m p) response (message_id m) f FPending)
    by done.
  eexists _, _. split; [done|]. split; [done|]. simpl.
  assert (Hlt : a < length (<[a := begin_effect m p]> (protocols w))).
  { rewrite length_insert. by eapply lookup_lt_Some. }
  split; [by apply list_lookup_insert_eq|].
  split; [apply lookup_delete_eq|].
  erewrite wait_for_nil_eq by by apply list_lookup_insert_eq.
  simpl. rewrite list_lookup_insert_eq; [done|].
  rewrite length_app. simpl. lia.
Qed.

Lemma request_response_round_trip_witness :
  ∃ p w1 w2,
    protocols sample_world !! 0 = Some p
    ∧ network_id p ≠ ""
    ∧ _networks (router sample_world) !! network_id p = Some 0
    ∧ message_id sample_message ≠ ""
    ∧ send_message_begin 0 sample_message true sample_world
      = (Ok (begin_message p sample_message, Some 0), w1)
    ∧ route_message
        (create_response (begin_message p sample_message) "r-1"
           (sample_utcnow 9) ∅ None) w1
      = (Ok true, w2)
    ∧ wait_for 0 0 [] w2
      = (Ok (Some (create_response (begin_message p sample_message) "r-1"
                     (sample_utcnow 9) ∅ None)), w2).
Proof.
  exists (CommunicationProtocol_init "A").
  destruct (request_response_round_trip sample_world 0
              (CommunicationProtocol_init "A") sample_message "r-1"
              (sample_utcnow 9) ∅ None)
    as (w1 & w2 & p2 & Hbegin & Hroute & _ & _ & Hwait);
    [reflexivity|discriminate|reflexivity|discriminate|].
  exists w1, w2. repeat split; [discriminate|discriminate|done..].
Defined.

(** ** [broadcast_message], [register_handler], late responses *)

(** X8. [broadcast_message] on an endpoint clears the receiver of the
    message, stamps the sender and puts the message on the queue of the
    endpoint itself; it returns without raising and calls
    [receive_message] on no endpoint: nothing is delivered to another
    network, the pending table and the futures stay as they are. *)
Theorem broadcast_message_only_queues
    (w : World) (a : nat) (p : CommunicationProtocol) (m : Message) :
  protocols w !! a = Some p →
  let m1 := set_sender_id (network_id p) (set_receiver_id "" m) in
  let w' := (broadcast_message a m w).2 in
  (broadcast_message a m w).1 = Ok m1
  ∧ receiver_id m1 = ""
  ∧ protocols w'
    = <[a := set_message_queue (_message_queue p ++ [m1]) p]> (protocols w)
  ∧ received (trace w') = received (trace w)
  ∧ handled (trace w') = handled (trace w).
Proof.
  intros Hp. cbv zeta. unfold broadcast_message.
  rewrite send_message_eq,
    (send_message_begin_nowait_eq a (set_receiver_id "" m) w p Hp).
  simpl. repeat split.
  - unfold received. rewrite omap_app. simpl. by rewrite app_nil_r.
  - unfold handled. rewrite omap_app. simpl. by rewrite app_nil_r.
Qed.

Lemma broadcast_message_only_queues_witness :
  protocols sample_world !! 0 = Some (CommunicationProtocol_init "A")
  ∧ (broadcast_message 0 sample_message sample_world).1
    = Ok (set_sender_id "A" (set_receiver_id "" sample_message))
  ∧ received (trace (broadcast_message 0 sample_message sample_world).2)
    = received (trace sample_world).
Proof.
  split; [reflexivity|].
  destruct (broadcast_message_only_queues sample_world 0
              (CommunicationProtocol_init "A") sample_message)
    as (Hret & _ & _ & Hrcv & _); [reflexivity|].
  by split.
Defined.

Lemma register_handler_eq a ty h w p :
  protocols w !! a = Some p →
  register_handler a ty h w
  = (Ok tt,
     set_protocols (<[a := set_handlers (<[ty := h]> (_handlers p)) p]>
                      (protocols w))
       (set_trace
          (trace w
           ++ [EvLog DEBUG "handler_registered"
                 [("network_id", PStr (network_id p));
                  ("message_type", PStr (MessageType_value ty))]]) w)).
Proof.
  intros Hp. unfold register_handler. unfold_M. simpl. by rewrite Hp.
Qed.

(** X9. A type has one handler, the one registered last.  After
    [register_handler(ty, h)], a message of the type [ty] that is not the
    response to a pending request is handed to [h] and to no other
    handler, whatever was registered for [ty] before; a message of
    another type is treated as it was before the registration. *)
Theorem register_handler_replaces
    (w : World) (a : nat) (p : CommunicationProtocol) (ty : MessageType)
    (h : Handler) (m : Message) :
  protocols w !! a = Some p →
  pending_future p m = None →
  let w1 := (register_handler a ty h w).2 in
  (register_handler a ty h w).1 = Ok tt
  ∧ (message_type m = ty →
     trace (receive_message a m w1).2
     = trace w1
       ++ [EvReceive a m; receiving_message_entry p m; EvHandler a m]
       ++ match h m with
          | Ok _ => []
          | Raise e => [handler_error_entry p m e]
          end)
  ∧ (message_type m ≠ ty →
     ∃ events,
       trace (receive_message a m w).2 = trace w ++ events
       ∧ trace (receive_message a m w1).2 = trace w1 ++ events).
Proof.
  intros Hp Hpf. cbv zeta. rewrite (register_handler_eq a ty h w p Hp).
  cbn [fst snd]. set (w1 := set_protocols _ _).
  set (p1 := set_handlers (<[ty := h]> (_handlers p)) p).
  assert (Hp1 : protocols w1 !! a = Some p1).
  { apply list_lookup_insert_eq. by eapply lookup_lt_Some. }
  assert (Hpf1 : pending_future p1 m = None) by done.
  rewrite (receive_message_dispatch_eq w1 a p1 m Hp1 Hpf1).
  split; [done|]. split.
  - intros <-. cbn [snd trace set_trace]. simpl _handlers.
    rewrite lookup_insert_eq. done.
  - intros Hne. rewrite (receive_message_dispatch_eq w a p m Hp Hpf).
    eexists. split; [reflexivity|].
    cbn [snd trace set_trace]. simpl _handlers.
    by rewrite lookup_insert_ne.
Qed.

Lemma register_handler_replaces_witness :
  protocols sample_protocol_world !! 0 = Some sample_protocol
  ∧ pending_future sample_protocol sample_message = None
  ∧ let w1 := (register_handler 0 DATA_REQUEST (λ _, Ok tt)
                 sample_protocol_world).2 in
    trace (receive_message 0 sample_message w1).2
    = trace w1
      ++ [EvReceive 0 sample_message;
          receiving_message_entry sample_protocol sample_message;
          EvHandler 0 sample_message].
Proof.
  split; [reflexivity|]. split; [reflexivity|].
  destruct (register_handler_replaces sample_protocol_world 0 sample_protocol
              DATA_REQUEST (λ _, Ok tt) sample_message)
    as (_ & Hsame & _); [reflexivity|reflexivity|].
  exact (Hsame eq_refl).
Defined.

(** X10. The first response wins.  Once a response has resolved a
    pending request, a second message with the same [parent_message_id]
    is no longer a response: it goes to the handler of its type (or is
    dropped with the warning, when there is none), and the result of the
    request stays the first response. *)
Theorem second_response_is_dispatched
    (w : World) (a : nat) (p : CommunicationProtocol) (m1 m2 : Message)
    (pid : string) (f : nat) :
  protocols w !! a = Some p →
  parent_message_id m1 = Some pid →
  parent_message_id m2 = Some pid →
  pid ≠ "" →
  _pending_responses p !! pid = Some f →
  futures p !! f = Some FPending →
  let w1 := (receive_message a m1 w).2 in
  let w2 := (receive_message a m2 w1).2 in
  (∃ p2, protocols w2 !! a = Some p2
     ∧ futures p2 !! f = Some (FResult m1)
     ∧ _pending_responses p2 !! pid = None)
  ∧ handled (trace w1) = handled (trace w)
  ∧ handled (trace w2)
    = handled (trace w)
      ++ (if _handlers p !! message_type m2 is Some _ then [(a, m2)]
          else []).
Proof.
  intros Hp Hpar1 Hpar2 Hpid Hpend Hfut. cbv zeta.
  assert (Hpf : pending_future p m1 = Some (pid, f))
    by by apply pending_future_Some.
  rewrite (receive_message_response_eq w a p m1 pid f FPending Hp Hpf Hfut).
  cbn [snd done]. set (w1 := set_protocols _ _).
  set (p1 := set_futures (<[f := FResult m1]> (futures p))
               (set_pending_responses (delete pid (_pending_responses p)) p)).
  assert (Hp1 : protocols w1 !! a = Some p1).
  { apply list_lookup_insert_eq. by eapply lookup_lt_Some. }
  assert (Hpf1 : pending_future p1 m2 = None).
  { destruct (pending_future p1 m2) as [[pid' f']|] eqn:Hpf1; [|done].
    apply pending_future_Some in Hpf1 as (Hpar & _ & Hlook).
    rewrite Hpar2 in Hpar. injection Hpar as <-.
    simpl in Hlook. by rewrite lookup_delete_eq in Hlook. }
  rewrite (receive_message_dispatch_eq w1 a p1 m2 Hp1 Hpf1).
  cbn [snd]. split; [|split].
  - exists p1. split; [done|]. split.
    + simpl. apply list_lookup_insert_eq. by eapply lookup_lt_Some.
    + simpl. apply lookup_delete_eq.
  - simpl. unfold handled. rewrite omap_app. simpl. by rewrite app_nil_r.
  - simpl. unfold handled. rewrite !omap_app. simpl. rewrite app_nil_r.
    f_equal. destruct (_handlers p !! message_type m2) as [h|]; [|done].
    simpl. by destruct (h m2).
Qed.

Lemma second_response_is_dispatched_witness :
  let w1 := (receive_message 0 sample_response sample_protocol_world).2 in
  let w2 := (receive_message 0 (search_answer 0 "req-1" "again").2 w1).2 in
  (∃ p2, protocols w2 !! 0 = Some p2
     ∧ futures p2 !! 0 = Some (FResult sample_response)
     ∧ _pending_responses p2 !! "req-1" = None)
  ∧ handled (trace w1) = handled (trace sample_protocol_world)
  ∧ handled (trace w2) = handled (trace sample_protocol_world) ++ [].
Proof.
  apply (second_response_is_dispatched sample_protocol_world 0 sample_protocol
           sample_response (search_answer 0 "req-1" "again").2 "req-1" 0);
    [reflexivity|reflexivity|reflexivity|discriminate|reflexivity|reflexivity].
Defined.

(** ** The life cycle of an endpoint *)

Lemma cancel_pending_spec fs f0 :
  let fs1 := cancel_pending fs f0 in
  length fs1 = length fs
  ∧ (∀ f fut, fs !! f = Some fut → done fut = true → fs1 !! f = Some fut)
  ∧ (∀ fut, fs !! f0 = Some fut →
       fs1 !! f0 = Some (if done fut then fut else FCancelled))
  ∧ (∀ f, f ≠ f0 → fs1 !! f = fs !! f).
Proof.
  unfold cancel_pending. destruct (fs !! f0) as [fut0|] eqn:Hf0.
  - destruct (done fut0) eqn:Hd; cbv zeta.
    + split; [done|]. split; [done|]. split; [|done].
      intros fut [= <-]. by rewrite Hd.
    + rewrite length_insert. split; [done|]. split; [|split].
      * intros f fut Hf Hdone. rewrite list_lookup_insert_ne; [done|].
        intros ->. congruence.
      * intros fut [= <-]. rewrite Hd.
        apply list_lookup_insert_eq. by eapply lookup_lt_Some.
      * intros f Hne. by rewrite list_lookup_insert_ne.
  - cbv zeta. split; [done|]. split; [done|]. split; [|done].
    intros fut Hfut. congruence.
Qed.

Lemma done_swept fut : done (if done fut then fut else FCancelled) = true.
Proof. by destruct fut. Qed.

(** The loop of [stop] over the futures of the pending table. *)
Lemma sweep_spec l :
  ∀ fs,
    let fs' := foldl cancel_pending fs l in
    length fs' = length fs
    ∧ (∀ f fut, fs !! f = Some fut → done fut = true → fs' !! f = Some fut)
    ∧ (∀ f fut, f ∈ l → fs !! f = Some fut →
         fs' !! f = Some (if done fut then fut else FCancelled))
    ∧ (∀ f, f ∉ l → fs' !! f = fs !! f).
Proof.
  induction l as [|f0 l IH]; intros fs; cbv zeta.
  - simpl. split; [done|]. split; [done|]. split; [|done].
    by intros f fut ?%elem_of_nil.
  - cbn [foldl].
    destruct (cancel_pending_spec fs f0) as (Hlen1 & Hdone1 & Hf0 & Hoth1).
    destruct (IH (cancel_pending fs f0)) as (Hlen & Hdone & Hin & Hoth).
    split; [congruence|]. split; [by eauto|]. split.
    + intros f fut Hf Hfut. destruct (decide (f = f0)) as [->|Hne].
      * apply Hdone; [by apply Hf0|apply done_swept].
      * apply elem_of_cons in Hf as [?|Hf]; [done|].
        apply Hin; [done|]. by rewrite Hoth1.
    + intros f [Hne Hnin]%not_elem_of_cons. by rewrite Hoth, Hoth1.
Qed.

Lemma stopping_receive_effect p m q :
  stopping p q → stopping p (receive_effect m q).
Proof.
  intros (Hrun & Hh & Hq & Hlen & Hwf & Hdone & Hpend).
  pose proof (receive_effect_wf m q Hwf) as Hwf'.
  unfold receive_effect in *.
  destruct (pending_future q m) as [[pid f']|] eqn:Hpf; [|done].
  apply pending_future_Some in Hpf as (_ & _ & Hpid).
  destruct (futures q !! f') as [fut'|] eqn:Hfut'; [|done].
  split; [done|]. split; [done|]. split; [done|].
  split; [|split; [done|split]].
  - simpl. destruct (done fut'); by rewrite ?length_insert.
  - intros f fut Hf Hd. simpl. specialize (Hdone f fut Hf Hd).
    destruct (done fut') eqn:Hd'; [done|].
    rewrite list_lookup_insert_ne; [done|]. intros ->. congruence.
  - intros uid f Hf. simpl.
    destruct (decide (f = f')) as [->|Hne].
    + left. destruct (done fut') eqn:Hd'; [eauto|].
      exists (FResult m). split; [|done].
      apply list_lookup_insert_eq. by eapply lookup_lt_Some.
    + destruct (Hpend uid f Hf) as [(fut & Hfut & Hd)|(uid' & Huid')].
      * left. exists fut. split; [|done].
        destruct (done fut'); [done|]. by rewrite list_lookup_insert_ne.
      * right. exists uid'. rewrite lookup_delete_ne; [done|].
        intros <-. congruence.
Qed.

Lemma deliver_all_at_endpoint ds w a Q :
  (∀ m p, Q p → Q (receive_effect m p)) →
  at_endpoint w a Q → at_endpoint (deliver_all ds w).2 a Q.
Proof.
  intros HQ. revert w. induction ds as [|d ds IH]; intros w Hw; [done|].
  rewrite deliver_all_cons_eq. apply IH.
  eapply at_endpoint_alter; [apply receive_message_protocols| |done].
  intros _ q. apply HQ.
Qed.

(** [stop] on a running endpoint, step by step. *)
Lemma stop_running a window w p :
  protocols w !! a = Some p → protocol_wf p → _is_running p = true →
  ∃ w2 p2,
    w2 = (deliver_all window
            (set_protocols (<[a := set_is_running false p]> (protocols w)) w)).2
    ∧ protocols w2 !! a = Some p2
    ∧ stopping p p2
    ∧ stop a window w
      = (Ok tt,
         set_protocols
           (<[a := set_futures
                     (foldl cancel_pending (futures p2)
                        (map_to_list (_pending_responses p2)).*2)
                     (set_pending_responses ∅ p2)]> (protocols w2))
           (set_trace
              (trace w2
               ++ [EvLog INFO "protocol_stopped"
                     [("network_id", PStr (network_id p2))]]) w2)).
Proof.
  intros Hp Hwf Hrun.
  set (w1 := set_protocols (<[a := set_is_running false p]> (protocols w)) w).
  assert (Hw1 : at_endpoint w1 a (stopping p)).
  { exists (set_is_running false p). split.
    - apply list_lookup_insert_eq. by eapply lookup_lt_Some.
    - repeat split; eauto. }
  apply (deliver_all_at_endpoint window) in Hw1
    as (p2 & Hp2 & Hstop); [|intros; by apply stopping_receive_effect].
  exists (deliver_all window w1).2, p2.
  split; [done|]. split; [done|]. split; [done|].
  unfold stop. rewrite bind_eq. unfold get_protocol at 1. rewrite Hp, Hrun.
  cbn [negb]. rewrite bind_eq. unfold put_protocol at 1. fold w1.
  rewrite bind_eq.
  pose proof (deliver_all_returns window w1) as Hret.
  destruct (deliver_all window w1) as [r w2]. simpl in Hret, Hp2 |- *.
  subst r. rewrite bind_eq. unfold get_protocol at 1. rewrite Hp2.
  unfold_M. reflexivity.
Qed.

(** X11. [stop] on a running endpoint of a well-formed store returns
    without raising and leaves the endpoint stopped with an empty pending
    table.  Every future that the table named when [stop] was called is
    done afterwards: resolved by a response that came in while [stop] was
    suspended, or cancelled; a future that was already done keeps its
    state, so no result is lost.  The handlers and the queue are as they
    were.  When nothing is delivered meanwhile, each pending future of the
    table ends cancelled. *)
Theorem stop_cancels_pending
    (w : World) (a : nat) (p : CommunicationProtocol)
    (window : list Delivery) :
  protocols w !! a = Some p →
  protocol_wf p →
  _is_running p = true →
  (stop a window w).1 = Ok tt
  ∧ ∃ p',
      protocols (stop a window w).2 !! a = Some p'
      ∧ _is_running p' = false
      ∧ _pending_responses p' = ∅
      ∧ _handlers p' = _handlers p
      ∧ _message_queue p' = _message_queue p
      ∧ (∀ uid f, _pending_responses p !! uid = Some f →
           ∃ fut, futures p' !! f = Some fut ∧ done fut = true)
      ∧ (∀ f fut, futures p !! f = Some fut → done fut = true →
           futures p' !! f = Some fut)
      ∧ (window = [] →
         ∀ uid f, _pending_responses p !! uid = Some f →
           futures p !! f = Some FPending →
           futures p' !! f = Some FCancelled).
Proof.
  intros Hp Hwf Hrun.
  destruct (stop_running a window w p Hp Hwf Hrun)
    as (w2 & p2 & Hw2 & Hp2 & Hstop & ->).
  destruct Hstop as (Hrun2 & Hh2 & Hq2 & Hlen2 & Hwf2 & Hdone2 & Hpend2).
  destruct (sweep_spec (map_to_list (_pending_responses p2)).*2 (futures p2))
    as (Hlen & Hdone & Hin & Hoth).
  assert (Hnamed : ∀ uid f, _pending_responses p2 !! uid = Some f →
            f ∈ (map_to_list (_pending_responses p2)).*2).
  { intros uid f Hf. apply list_elem_of_fmap. exists (uid, f).
    split; [done|]. by apply elem_of_map_to_list. }
  split; [done|]. eexists. cbn [snd protocols set_protocols].
  split; [apply list_lookup_insert_eq; by eapply lookup_lt_Some|].
  simpl. split; [done|]. split; [done|]. split; [done|]. split; [done|].
  split; [|split].
  - intros uid f Hf.
    destruct (Hpend2 uid f Hf) as [(fut & Hfut & Hd)|(uid' & Huid')];
      [by eauto|].
    pose proof (Hwf2 _ _ Huid') as Hlt. simpl in Hlt.
    destruct (lookup_lt_is_Some_2 _ _ Hlt) as [fut Hfut].
    eexists. split; [by eapply Hin; eauto|apply done_swept].
  - eauto.
  - intros -> uid f Hf Hfut. subst w2. simpl in Hp2.
    rewrite list_lookup_insert_eq in Hp2 by by eapply lookup_lt_Some.
    injection Hp2 as <-. simpl in *.
    by rewrite (Hin f FPending) by eauto.
Qed.

Lemma stop_cancels_pending_witness :
  (stop 0 [] sample_protocol_world).1 = Ok tt
  ∧ ∃ p',
      protocols (stop 0 [] sample_protocol_world).2 !! 0 = Some p'
      ∧ _is_running p' = false
      ∧ _pending_responses p' = ∅
      ∧ futures p' !! 0 = Some FCancelled.
Proof.
  destruct (stop_cancels_pending sample_protocol_world 0 sample_protocol [])
    as (Hret & p' & Hp' & Hrun & Hpend & _ & _ & _ & _ & Hcancel).
  - reflexivity.
  - exact (futures_wf_lookup _ 0 _ futures_wf_sample_protocol_world eq_refl).
  - reflexivity.
  - split; [exact Hret|]. exists p'. repeat split; [done..|].
    by apply (Hcancel eq_refl "req-1").
Defined.

Lemma stop_not_running a window w p :
  protocols w !! a = Some p → _is_running p = false →
  stop a window w = (Ok tt, w).
Proof.
  intros Hp Hrun. unfold stop. rewrite bind_eq. unfold get_protocol at 1.
  by rewrite Hp, Hrun.
Qed.

Lemma start_running a w p :
  protocols w !! a = Some p → _is_running p = true →
  start a w = (Ok tt, w).
Proof.
  intros Hp Hrun. unfold start. rewrite bind_eq. unfold get_protocol at 1.
  by rewrite Hp, Hrun.
Qed.

Lemma start_not_running a w p :
  protocols w !! a = Some p → _is_running p = false →
  start a w
  = (Ok tt,
     set_protocols (<[a := set_is_running true p]> (protocols w))
       (set_trace
          (trace w
           ++ [EvLog INFO "protocol_started"
                 [("network_id", PStr (network_id p))]]) w)).
Proof.
  intros Hp Hrun. unfold start. unfold_M. by rewrite Hp, Hrun.
Qed.

(** X12. [start] and [stop] are idempotent, and each does nothing on an
    endpoint that is already in the state it leads to: [start] on a
    running endpoint and [stop] on an endpoint that is not running
    return at once and leave the store as it is (in particular [stop]
    cancels no pending request of an endpoint that was never started);
    a second [start] after a [start], and a second [stop] after a
    [stop], change nothing. *)
Theorem start_stop_idempotent
    (w : World) (a : nat) (p : CommunicationProtocol)
    (window window' : list Delivery) :
  protocols w !! a = Some p →
  protocol_wf p →
  (_is_running p = true → start a w = (Ok tt, w))
  ∧ (_is_running p = false → stop a window w = (Ok tt, w))
  ∧ (∃ p1, protocols (start a w).2 !! a = Some p1 ∧ _is_running p1 = true)
  ∧ start a (start a w).2 = (Ok tt, (start a w).2)
  ∧ stop a window' (stop a window w).2 = (Ok tt, (stop a window w).2).
Proof.
  intros Hp Hwf.
  split; [by apply start_running|]. split; [by apply stop_not_running|].
  assert (Hstart : ∃ p1, protocols (start a w).2 !! a = Some p1
                         ∧ _is_running p1 = true).
  { destruct (_is_running p) eqn:Hrun.
    - rewrite (start_running a w p Hp Hrun). eauto.
    - rewrite (start_not_running a w p Hp Hrun).
      exists (set_is_running true p). split; [|done].
      simpl. apply list_lookup_insert_eq. by eapply lookup_lt_Some. }
  split; [done|]. split.
  - destruct Hstart as (p1 & Hp1 & Hrun1).
    exact (start_running a _ p1 Hp1 Hrun1).
  - destruct (_is_running p) eqn:Hrun.
    + destruct (stop_running a window w p Hp Hwf Hrun)
        as (w2 & p2 & _ & Hp2 & (Hrun2 & _) & ->).
      eapply stop_not_running.
      * simpl. apply list_lookup_insert_eq. by eapply lookup_lt_Some.
      * done.
    + rewrite (stop_not_running a window w p Hp Hrun).
      exact (stop_not_running a window' w p Hp Hrun).
Qed.

Lemma start_stop_idempotent_witness :
  start 0 sample_protocol_world = (Ok tt, sample_protocol_world)
  ∧ stop 0 [(0, sample_response)] (stop 0 [] sample_protocol_world).2
    = (Ok tt, (stop 0 [] sample_protocol_world).2).
Proof.
  destruct (start_stop_idempotent sample_protocol_world 0 sample_protocol
              [] [(0, sample_response)])
    as (Hstart & _ & _ & _ & Hstop).
  - reflexivity.
  - exact (futures_wf_lookup _ 0 _ futures_wf_sample_protocol_world eq_refl).
  - split; [by apply Hstart|exact Hstop].
Defined.

(** X13. The loop of a running endpoint takes the messages off the queue
    in the order in which they were put on it, one per iteration, and
    writes one entry to the log for each; that is all it does: it calls
    neither [receive_message] nor a handler, and it leaves the pending
    table, the futures and the router alone.  On an endpoint that is not
    running the loop ends at once. *)
Theorem process_messages_drains_queue (n : nat) :
  ∀ (w : World) (a : nat) (p : CommunicationProtocol),
    protocols w !! a = Some p →
    let w' := (_process_messages a n w).2 in
    (_process_messages a n w).1 = Ok tt
    ∧ (_is_running p = false → w' = w)
    ∧ (_is_running p = true →
       protocols w'
       = <[a := set_message_queue (drop n (_message_queue p)) p]>
           (protocols w)
       ∧ trace w'
         = trace w
           ++ (message_processed_entry p <$> take n (_message_queue p))
       ∧ router w' = router w).
Proof.
  induction n as [|n IH]; intros w a p Hp; cbv zeta.
  - simpl. split; [done|]. split; [done|]. intros _.
    rewrite drop_0, app_nil_r. split; [|done].
    assert (set_message_queue (_message_queue p) p = p) as ->
      by by destruct p.
    by rewrite list_insert_id.
  - assert (Hstep : _process_messages a (S n) w
              = if _is_running p
                then match _message_queue p with
                     | [] => _process_messages a n w
                     | m :: q =>
                         _process_messages a n
                           (set_trace
                              (trace w ++ [message_processed_entry p m])
                              (set_protocols
                                 (<[a := set_message_queue q p]>
                                    (protocols w)) w))
                     end
                else (Ok tt, w)).
    { cbn [_process_messages]. rewrite bind_eq. unfold get_protocol at 1.
      rewrite Hp. destruct (_is_running p); [|done].
      destruct (_message_queue p); [done|]. by unfold_M. }
    rewrite Hstep. clear Hstep.
    destruct (_is_running p) eqn:Hrun;
      [|by split; [|split; [|intros [=]]]].
    destruct (_message_queue p) as [|m q] eqn:Hq.
    + destruct (IH w a p Hp) as (Hret & _ & Hloop).
      split; [done|]. split; [done|]. intros _.
      destruct (Hloop Hrun) as (Hps & Htr & Hr).
      rewrite Hq, drop_nil, take_nil in *. done.
    + set (p1 := set_message_queue q p).
      set (w1 := set_trace _ (set_protocols _ w)).
      assert (Hp1 : protocols w1 !! a = Some p1).
      { apply list_lookup_insert_eq. by eapply lookup_lt_Some. }
      destruct (IH w1 a p1 Hp1) as (Hret & _ & Hloop).
      split; [done|]. split; [done|]. intros _.
      destruct (Hloop Hrun) as (Hps & Htr & Hr).
      rewrite Hps, Htr, Hr. cbn [drop take fmap list_fmap].
      split; [|split; [|done]].
      * unfold w1. simpl. by rewrite list_insert_insert_eq.
      * unfold w1. simpl. by rewrite <- app_assoc.
Qed.

Lemma process_messages_drains_queue_witness :
  let p := set_message_queue [sample_message; sample_response]
             sample_protocol in
  let w := set_protocols [p] world_init in
  protocols w !! 0 = Some p
  ∧ protocols (_process_messages 0 1 w).2
    = [set_message_queue [sample_response] sample_protocol]
  ∧ trace (_process_messages 0 1 w).2
    = [message_processed_entry p sample_message].
Proof.
  cbv zeta. split; [reflexivity|].
  destruct (process_messages_drains_queue 1
              (set_protocols
                 [set_message_queue [sample_message; sample_response]
                    sample_protocol] world_init) 0
              (set_message_queue [sample_message; sample_response]
                 sample_protocol) eq_refl)
    as (_ & _ & Hloop).
  destruct (Hloop eq_refl) as (Hps & Htr & _).
  split; [rewrite Hps; reflexivity|rewrite Htr; reflexivity].
Defined.

(** ** The registry of the router *)

Lemma find_networks_elem (r : MessageRouter) (c id : string) :
  id ∈ find_networks_by_capability r c
  ↔ ∃ caps, _network_capabilities r !! id = Some caps ∧ c ∈ caps.
Proof.
  unfold find_networks_by_capability. rewrite list_elem_of_fmap. split.
  - intros ([id' caps] & -> & Hin). apply list_elem_of_filter in Hin as [Hc Hin].
    apply elem_of_map_to_list in Hin. eauto.
  - intros (caps & Hid & Hc). exists (id, caps). split; [done|].
    apply list_elem_of_filter. split; [done|]. by apply elem_of_map_to_list.
Qed.

(** X14. [find_networks_by_capability(c)] lists exactly the registered
    networks whose capability set holds [c], each of them once; on a
    registry where no network holds [c] it is the empty list. *)
Theorem find_networks_by_capability_spec (r : MessageRouter) (c : string) :
  (∀ id, id ∈ find_networks_by_capability r c
         ↔ ∃ caps, _network_capabilities r !! id = Some caps ∧ c ∈ caps)
  ∧ NoDup (find_networks_by_capability r c)
  ∧ ((∀ id caps, _network_capabilities r !! id = Some caps → c ∉ caps) →
     find_networks_by_capability r c = []).
Proof.
  split; [intros id; apply find_networks_elem|]. split.
  - unfold find_networks_by_capability.
    pose proof (NoDup_fst_map_to_list (_network_capabilities r)) as Hnd.
    induction (map_to_list (_network_capabilities r)) as [|[id caps] l IH];
      [constructor|].
    apply NoDup_cons in Hnd as [Hnin Hnd]. specialize (IH Hnd).
    destruct (decide (c ∈ caps)) as [Hc|Hc].
    + rewrite filter_cons_True by done. simpl. apply NoDup_cons.
      split; [|done]. intros Hin. apply Hnin.
      apply list_elem_of_fmap in Hin as (x & -> & Hx).
      apply list_elem_of_filter in Hx as [_ Hx].
      apply list_elem_of_fmap. by exists x.
    + by rewrite filter_cons_False.
  - intros Hnone. apply elem_of_nil_inv. intros id Hid.
    apply find_networks_elem in Hid as (caps & Hid & Hc).
    by eapply Hnone.
Qed.

Lemma register_network_eq id a caps w :
  register_network id a caps w
  = (Ok tt,
     set_trace
       (trace w
        ++ [EvLog INFO "network_registered"
              [("network_id", PStr id);
               ("capabilities", PList (PStr <$> elements caps))]])
       (set_router
          (mkRouter (<[id := a]> (_networks (router w)))
             (<[id := caps]> (_network_capabilities (router w)))
             (_message_log (router w)) (_max_log_size (router w))) w)).
Proof. done. Qed.

Lemma unregister_network_eq id w :
  unregister_network id w
  = (Ok tt,
     set_trace
       (trace w ++ [EvLog INFO "network_unregistered" [("network_id", PStr id)]])
       (set_router
          (mkRouter (delete id (_networks (router w)))
             (delete id (_network_capabilities (router w)))
             (_message_log (router w)) (_max_log_size (router w))) w)).
Proof. done. Qed.

(** X15. After [register_network(id, protocol, caps)] the network [id] is
    routed to [protocol] and is found for exactly the capabilities in
    [caps]: a registration under an identifier that was registered
    before replaces the endpoint and the capabilities.  The other
    networks, the audit log and the endpoints are as they were. *)
Theorem register_network_then_find
    (w : World) (id : string) (a : nat) (caps : gset string) :
  let w' := (register_network id a caps w).2 in
  (register_network id a caps w).1 = Ok tt
  ∧ _networks (router w') !! id = Some a
  ∧ (∀ c, id ∈ find_networks_by_capability (router w') c ↔ c ∈ caps)
  ∧ (∀ id' c, id' ≠ id →
       (id' ∈ find_networks_by_capability (router w') c
        ↔ id' ∈ find_networks_by_capability (router w) c)
       ∧ _networks (router w') !! id' = _networks (router w) !! id')
  ∧ _message_log (router w') = _message_log (router w)
  ∧ protocols w' = protocols w.
Proof.
  cbv zeta. rewrite register_network_eq. cbn [fst snd].
  split; [done|]. split; [apply lookup_insert_eq|]. split; [|split; [|done]].
  - intros c. rewrite find_networks_elem. simpl. rewrite lookup_insert_eq.
    split; [by intros (? & [= <-] & ?)|eauto].
  - intros id' c Hne. rewrite !find_networks_elem. simpl.
    by rewrite !lookup_insert_ne.
Qed.

(** X16. After [unregister_network(id)] the network [id] is found for no
    capability and no message is routed to it: [route_message] on a
    message addressed to [id] returns [False] and calls
    [receive_message] on no endpoint.  The other networks are found and
    routed as before.  The call never raises, also when [id] is not
    registered. *)
Theorem unregister_network_removes (w : World) (id : string) :
  let w' := (unregister_network id w).2 in
  (unregister_network id w).1 = Ok tt
  ∧ _networks (router w') !! id = None
  ∧ (∀ c, id ∉ find_networks_by_capability (router w') c)
  ∧ (∀ id' c, id' ≠ id →
       (id' ∈ find_networks_by_capability (router w') c
        ↔ id' ∈ find_networks_by_capability (router w) c)
       ∧ _networks (router w') !! id' = _networks (router w) !! id')
  ∧ (∀ m, receiver_id m = id → id ≠ "" →
       (route_message m w').1 = Ok false
       ∧ received (trace (route_message m w').2) = received (trace w')).
Proof.
  cbv zeta. rewrite unregister_network_eq. cbn [fst snd].
  split; [done|]. split; [apply lookup_delete_eq|].
  split; [|split].
  - intros c. rewrite find_networks_elem. simpl. rewrite lookup_delete_eq.
    by intros (? & ? & _).
  - intros id' c Hne. rewrite !find_networks_elem. simpl.
    by rewrite !lookup_delete_ne.
  - intros m Hm Hid. rewrite route_message_direct by by rewrite Hm.
    cbv zeta. rewrite Hm. simpl. rewrite lookup_delete_eq. simpl.
    split; [done|]. unfold received. rewrite !omap_app. simpl.
    by rewrite !app_nil_r.
Qed.

(** X17. Registering a network that was not registered and unregistering
    it again gives back the registry as it was; and unregistering a
    network that is not registered leaves the registry as it is. *)
Theorem register_then_unregister
    (w : World) (id : string) (a : nat) (caps : gset string) :
  _networks (router w) !! id = None →
  _network_capabilities (router w) !! id = None →
  router (unregister_network id (register_network id a caps w).2).2
  = router w
  ∧ router (unregister_network id w).2 = router w.
Proof.
  intros Hnet Hcaps.
  rewrite register_network_eq, !unregister_network_eq. simpl.
  rewrite !delete_insert_eq, !delete_id by done. by destruct (router w).
Qed.

Lemma register_then_unregister_witness :
  _networks (router sample_world) !! "D" = None
  ∧ _network_capabilities (router sample_world) !! "D" = None
  ∧ router
      (unregister_network "D"
         (register_network "D" 2 {[ "search" ]} sample_world).2).2
    = router sample_world.
Proof.
  split; [reflexivity|]. split; [reflexivity|].
  apply (register_then_unregister sample_world "D" 2 {[ "search" ]});
    reflexivity.
Defined.

(** ** [route_by_capability]: what it guarantees on every registry *)

Lemma start_all_length ts w : length (start_all ts w).1 = length ts.
Proof.
  revert w. induction ts as [|[a m] ts IH]; intros w; [done|]. simpl.
  destruct (task_start a m w) as [t w1]. specialize (IH w1).
  destruct (start_all ts w1) as [ts' w2]. simpl in *. by rewrite IH.
Qed.

Lemma resume_all_length ts w : length (resume_all ts w).1 = length ts.
Proof.
  revert w. induction ts as [|t ts IH]; intros w; [done|]. simpl.
  destruct (task_resume t w) as [t' w1]. specialize (IH w1).
  destruct (resume_all ts w1) as [ts' w2]. simpl in *. by rewrite IH.
Qed.

Lemma gather_loop_length ts script w :
  length (gather_loop ts script w).1 = length ts.
Proof.
  funelim (gather_loop ts script w); [simpl; by rewrite length_fmap|].
  match goal with IH : length _ = _ |- _ => rewrite IH end.
  apply resume_all_length.
Qed.

Lemma gather_send_returns ts script w :
  ∃ responses,
    (gather_send ts script w).1 = Ok responses
    ∧ length responses = length ts.
Proof.
  unfold gather_send. pose proof (start_all_length ts w) as Hstart.
  destruct (start_all ts w) as [tasks w1].
  pose proof (gather_loop_length tasks script w1) as Hloop.
  destruct (gather_loop tasks script w1) as [rs w2]. simpl in *.
  exists rs. split; [done|congruence].
Qed.

Lemma route_by_capability_returns m t script w :
  world_wf w →
  ∃ responses,
    (route_by_capability m t script w).1 = Ok responses
    ∧ length responses
      ≤ length (find_networks_by_capability (router w) t).
Proof.
  intros Hwf. pose proof (find_networks_registered w t Hwf) as Hids.
  unfold route_by_capability. rewrite bind_eq. unfold get_router at 1.
  destruct (find_networks_by_capability (router w) t) as [|id ids] eqn:Hnet.
  { exists []. by rewrite bind_eq. }
  rewrite bind_eq, capability_tasks_eq by done.
  set (requests := capability_requests _ _ _ _ _ _).
  assert (Hlen : length requests = length (id :: ids))
    by by apply capability_requests_length.
  set (w1 := set_created _ w). rewrite bind_eq.
  destruct (gather_send_returns requests script w1) as (rs & Hrs & Hlenrs).
  destruct (gather_send requests script w1) as [r w2]. simpl in Hrs.
  subst r. rewrite ret_eq. eexists. split; [done|].
  rewrite length_omap_filter.
  etrans; [apply length_filter|]. by rewrite Hlenrs, Hlen.
Qed.

(** X18. The registry stays consistent and [route_by_capability] is
    safe.  From a well-formed store, after any sequence of calls of the
    public operations of the router (an endpoint that is registered
    being one that exists), the two maps of the registry have the same
    keys and every registered endpoint exists; and then
    [route_by_capability] never raises (the lookup
    [self._networks[network_id]] finds every capable network), it
    returns at most one response per capable network, and it leaves the
    registry and the audit log untouched. *)
Theorem route_by_capability_never_raises
    (w : World) (cs : list RouterCall) (m : Message) (t : string)
    (script : list (list Delivery)) :
  world_wf w →
  Forall (valid_call w) cs →
  let w1 := run_calls cs w in
  dom (_networks (router w1)) = dom (_network_capabilities (router w1))
  ∧ (∀ id a, _networks (router w1) !! id = Some a →
       a < length (protocols w1))
  ∧ (∃ responses,
       (route_by_capability m t script w1).1 = Ok responses
       ∧ length responses
         ≤ length (find_networks_by_capability (router w1) t))
  ∧ router (route_by_capability m t script w1).2 = router w1.
Proof.
  intros Hwf Hcs. cbv zeta.
  pose proof (run_calls_wf cs w Hwf Hcs) as Hwf1.
  pose proof Hwf1 as (Hnet & _ & Hdom & _).
  split; [done|]. split; [exact Hnet|].
  split; [by apply route_by_capability_returns|].
  apply route_by_capability_router.
Qed.

Lemma route_by_capability_never_raises_witness :
  let cs := [CallRegister "D" 2 {[ "search" ]}; CallUnregister "A"] in
  world_wf sample_world
  ∧ Forall (valid_call sample_world) cs
  ∧ ∃ responses,
      (route_by_capability search_request "search" []
         (run_calls cs sample_world)).1
      = Ok responses
      ∧ length responses ≤ 2.
Proof.
  cbv zeta. split; [apply sample_world_wf|].
  assert (Hcs : Forall (valid_call sample_world)
                  [CallRegister "D" 2 {[ "search" ]}; CallUnregister "A"]).
  { apply Forall_cons. split; [simpl; lia|]. by apply Forall_cons. }
  split; [exact Hcs|].
  destruct (route_by_capability_never_raises sample_world
              [CallRegister "D" 2 {[ "search" ]}; CallUnregister "A"]
              search_request "search" [] sample_world_wf Hcs)
    as (_ & _ & (rs & Hrs & Hlen) & _).
  exists rs. split; [exact Hrs|exact Hlen].
Defined.

(** ** [route_by_capability] calls no endpoint *)

Lemma quiet_refl w : quiet w w.
Proof. by split. Qed.

Lemma quiet_trans w1 w2 w3 : quiet w1 w2 → quiet w2 w3 → quiet w1 w3.
Proof. intros [H1 H2] [H1' H2']. split; congruence. Qed.

Lemma quiet_same w w' : trace w' = trace w → quiet w w'.
Proof. unfold quiet. by intros ->. Qed.

Lemma quiet_log w w' level event fields :
  trace w' = trace w ++ [EvLog level event fields] → quiet w w'.
Proof.
  unfold quiet, received, handled. intros ->. rewrite !omap_app. simpl.
  by rewrite !app_nil_r.
Qed.

Lemma send_message_begin_quiet a m wait w :
  quiet w (send_message_begin a m wait w).2.
Proof.
  unfold send_message_begin. unfold_M. simpl.
  destruct (protocols w !! a) as [p|]; [|apply quiet_refl].
  destruct wait; by eapply quiet_log.
Qed.

Lemma wait_for_nil_quiet a f w : quiet w (wait_for a f [] w).2.
Proof.
  unfold wait_for. unfold_M. simpl.
  destruct (protocols w !! a) as [p|]; [|apply quiet_refl]. simpl.
  destruct (futures p !! f) as [[]|]; by apply quiet_same.
Qed.

Lemma send_message_timeout_quiet a m w :
  quiet w (send_message_timeout a m w).2.
Proof.
  unfold send_message_timeout. unfold_M. simpl.
  destruct (protocols w !! a) as [p|]; [|apply quiet_refl].
  by eapply quiet_log.
Qed.

Lemma task_start_quiet a m w : quiet w (task_start a m w).2.
Proof.
  unfold task_start. pose proof (send_message_begin_quiet a m true w).
  by destruct (send_message_begin a m true w) as [[[? [?|]]|?] ?].
Qed.

Lemma task_resume_quiet t w : quiet w (task_resume t w).2.
Proof.
  destruct t as [a m f|r]; [|apply quiet_refl]. simpl.
  pose proof (wait_for_nil_quiet a f w) as H1.
  destruct (wait_for a f [] w) as [[[?|]|?] w2]; [done| |done].
  pose proof (send_message_timeout_quiet a m w2) as H2.
  destruct (send_message_timeout a m w2) as [[[]|?] w3];
    [|by eapply quiet_trans].
  destruct (should_retry m); [|by eapply quiet_trans].
  eapply quiet_trans; [done|]. eapply quiet_trans; [done|].
  apply task_start_quiet.
Qed.

Lemma start_all_quiet ts w : quiet w (start_all ts w).2.
Proof.
  revert w. induction ts as [|[a m] ts IH]; intros w; [apply quiet_refl|].
  simpl. pose proof (task_start_quiet a m w).
  destruct (task_start a m w) as [t w1]. specialize (IH w1).
  destruct (start_all ts w1) as [ts' w2]. by eapply quiet_trans.
Qed.

Lemma resume_all_quiet ts w : quiet w (resume_all ts w).2.
Proof.
  revert w. induction ts as [|t ts IH]; intros w; [apply quiet_refl|].
  simpl. pose proof (task_resume_quiet t w).
  destruct (task_resume t w) as [t' w1]. specialize (IH w1).
  destruct (resume_all ts w1) as [ts' w2]. by eapply quiet_trans.
Qed.

Lemma gather_loop_quiet ts script w :
  Forall (λ window, window = []) script →
  quiet w (gather_loop ts script w).2.
Proof.
  funelim (gather_loop ts script w); intros Hscript; [apply quiet_refl|].
  assert (Hhd : hd [] script = [])
    by (destruct Hscript; [done|by subst]).
  assert (Htl : Forall (λ window : list Delivery, window = []) (tl script))
    by (by destruct Hscript).
  rewrite Hhd in *.
  eapply quiet_trans; [apply resume_all_quiet|].
  match goal with IH : _ → quiet _ _ |- _ => by apply IH end.
Qed.

Lemma first_answer_no_delivery a uid script :
  Forall (λ window, window = []) script → first_answer a uid script = None.
Proof.
  intros Hscript. unfold first_answer.
  replace (concat script) with (@nil Delivery); [done|].
  induction Hscript as [|? ? -> _ IH]; [done|]. by simpl.
Qed.

(** The result of [route_by_capability], request by request. *)
Lemma route_by_capability_result m t script w :
  world_wf w →
  Inj (=) (=) (uuid4 w) →
  (∀ n, uuid4 w n ≠ "") →
  (route_by_capability m t script w).1
  = Ok (omap (λ req : nat * Message,
                first_answer req.1 (message_id req.2) (take 4 script))
          (capability_requests (router w) (uuid4 w) (utcnow w) m (created w)
             (find_networks_by_capability (router w) t))).
Proof.
  intros Hwf Hinj Hne.
  pose proof (find_networks_registered w t Hwf) as Hids.
  unfold route_by_capability. rewrite bind_eq. unfold get_router at 1.
  destruct (find_networks_by_capability (router w) t) as [|id ids] eqn:Hnet;
    [done|].
  rewrite bind_eq, capability_tasks_eq by done.
  set (requests := capability_requests _ _ _ _ _ _).
  set (w1 := set_created _ w). rewrite bind_eq.
  assert (Hgather : (gather_send requests script w1).1
            = Ok ((λ req : nat * Message,
                     Ok (first_answer req.1 (message_id req.2)
                           (take 4 script))) <$> requests)).
  { rewrite gather_send_eq.
    - f_equal. apply list_fmap_ext. intros i req Hreq.
      apply list_elem_of_lookup_2, capability_requests_elem in Hreq
        as (_ & _ & -> & ->). done.
    - by destruct Hwf as (_ & ? & _).
    - apply Forall_forall. intros req Hreq.
      apply capability_requests_elem in Hreq as ([id' Ha] & [k ->] & _).
      split; [|done]. destruct Hwf as (Hnet' & _). by apply Hnet' in Ha.
    - apply (NoDup_fmap_1 snd). rewrite <- list_fmap_compose.
      change (snd ∘ _) with (λ req : nat * Message, message_id req.2).
      unfold requests. rewrite capability_requests_keys by done.
      apply NoDup_fmap_2; [done|apply NoDup_seq]. }
  destruct (gather_send requests script w1) as [rs w2]. simpl in Hgather.
  subst rs. rewrite ret_eq. simpl. f_equal.
  apply (omap_valid_response
           (λ req : nat * Message,
              first_answer req.1 (message_id req.2) (take 4 script))).
Qed.

Lemma route_by_capability_quiet m t script w :
  Forall (λ window, window = []) script →
  quiet w (route_by_capability m t script w).2.
Proof.
  intros Hscript. unfold route_by_capability. rewrite bind_eq.
  unfold get_router at 1.
  destruct (find_networks_by_capability (router w) t) as [|id ids].
  { rewrite bind_eq. by eapply quiet_log. }
  rewrite bind_eq.
  assert (Htasks : trace (capability_tasks (router w) m (id :: ids) w).2
                   = trace w).
  { generalize (id :: ids) as l. intros l. generalize (router w) as r.
    intros r. revert w. induction l as [|x l IH]; intros w; [done|].
    cbn [capability_tasks]. unfold_M.
    destruct (_networks r !! x); [|done]. simpl.
    specialize (IH (set_created (S (created w)) w)).
    by destruct (capability_tasks r m l _) as [[?|?] ?]. }
  destruct (capability_tasks (router w) m (id :: ids) w) as [[reqs|e] w1];
    [|by apply quiet_same].
  rewrite bind_eq. unfold gather_send.
  pose proof (start_all_quiet reqs w1) as Hstart.
  destruct (start_all reqs w1) as [tasks w2].
  pose proof (gather_loop_quiet tasks script w2 Hscript) as Hloop.
  destruct (gather_loop tasks script w2) as [rs w3].
  rewrite ret_eq. simpl in *.
  eapply quiet_trans; [by apply quiet_same|]. by eapply quiet_trans.
Qed.

(** X19. [route_by_capability] does not deliver its requests: it hands
    them to [send_message] of the capable networks' endpoints, and in
    doing so it calls [receive_message] on no endpoint and invokes no
    handler.  While nothing else delivers a response (every window of
    the script is empty), every request runs out of retries and the
    result is the empty list. *)
Theorem route_by_capability_calls_nobody
    (w : World) (m : Message) (t : string) (script : list (list Delivery)) :
  world_wf w →
  Inj (=) (=) (uuid4 w) →
  (∀ n, uuid4 w n ≠ "") →
  Forall (λ window, window = []) script →
  let w' := (route_by_capability m t script w).2 in
  (route_by_capability m t script w).1 = Ok []
  ∧ received (trace w') = received (trace w)
  ∧ handled (trace w') = handled (trace w).
Proof.
  intros Hwf Hinj Hne Hscript. cbv zeta.
  split; [|by apply route_by_capability_quiet].
  rewrite route_by_capability_result by done. f_equal.
  induction (capability_requests _ _ _ _ _ _) as [|req reqs IH]; [done|].
  cbn [omap list_omap]. rewrite first_answer_no_delivery; [exact IH|].
  by apply Forall_take.
Qed.

Lemma route_by_capability_calls_nobody_witness :
  world_wf sample_world
  ∧ Inj (=) (=) (uuid4 sample_world)
  ∧ (∀ n, uuid4 sample_world n ≠ "")
  ∧ find_networks_by_capability (router sample_world) "search" = ["A"; "B"]
  ∧ let w' := (route_by_capability search_request "search" [[]; []]
                 sample_world).2 in
    (route_by_capability search_request "search" [[]; []] sample_world).1
    = Ok []
    ∧ received (trace w') = received (trace sample_world)
    ∧ handled (trace w') = handled (trace sample_world).
Proof.
  split; [apply sample_world_wf|]. split; [apply sample_uuid4_inj|].
  split; [apply sample_uuid4_nonempty|]. split; [reflexivity|].
  apply (route_by_capability_calls_nobody sample_world search_request
           "search" [[]; []] sample_world_wf sample_uuid4_inj
           sample_uuid4_nonempty).
  by repeat constructor.
Defined.

(** ** What the operations keep of every endpoint *)

Section endpoint_invariant.

Variable Q : CommunicationProtocol → Prop.
Hypothesis Q_receive : ∀ m p, Q p → Q (receive_effect m p).
Hypothesis Q_send :
  ∀ m p, Q p →
    Q (set_message_queue
         (_message_queue p ++ [set_sender_id (network_id p) m]) p).
Hypothesis Q_begin : ∀ m p, Q p → Q (begin_effect m p).
Hypothesis Q_futures : ∀ fs p, Q p → Q (set_futures fs p).
Hypothesis Q_pending : ∀ t p, Q p → Q (set_pending_responses t p).

Lemma keeps_refl w : keeps Q w w.
Proof. by intros ?. Qed.

Lemma keeps_trans w1 w2 w3 : keeps Q w1 w2 → keeps Q w2 w3 → keeps Q w1 w3.
Proof. unfold keeps. auto. Qed.

Lemma keeps_same w w' : protocols w' = protocols w → keeps Q w w'.
Proof. unfold keeps. by intros ->. Qed.

Lemma keeps_insert w w' a p p' :
  protocols w !! a = Some p →
  protocols w' = <[a := p']> (protocols w) →
  (Q p → Q p') →
  keeps Q w w'.
Proof.
  unfold keeps. intros Hp -> HQ Hw. apply Forall_insert; [done|].
  apply HQ. by eapply Forall_lookup_1 in Hw.
Qed.

Lemma receive_message_keeps a m w : keeps Q w (receive_message a m w).2.
Proof.
  unfold keeps. intros Hw. rewrite receive_message_protocols.
  rewrite Forall_lookup in *. intros i p.
  destruct (decide (i = a)) as [->|Hne].
  - rewrite list_lookup_alter_eq. intros [q [Hq ->]]%fmap_Some. eauto.
  - rewrite list_lookup_alter_ne by done. eauto.
Qed.

Lemma deliver_all_keeps ds w : keeps Q w (deliver_all ds w).2.
Proof.
  revert w. induction ds as [|d ds IH]; intros w; [apply keeps_refl|].
  rewrite deliver_all_cons_eq.
  eapply keeps_trans; [apply receive_message_keeps|apply IH].
Qed.

Lemma send_message_begin_keeps a m wait w :
  keeps Q w (send_message_begin a m wait w).2.
Proof.
  destruct (protocols w !! a) as [p|] eqn:Hp.
  - destruct wait.
    + rewrite (send_message_begin_eq a m w p Hp).
      eapply keeps_insert; [done..|apply Q_begin].
    + rewrite (send_message_begin_nowait_eq a m w p Hp).
      eapply keeps_insert; [done..|apply Q_send].
  - apply keeps_same. unfold send_message_begin. unfold_M. simpl.
    by rewrite Hp.
Qed.

Lemma wait_for_nil_keeps a f w : keeps Q w (wait_for a f [] w).2.
Proof.
  destruct (protocols w !! a) as [p|] eqn:Hp.
  - rewrite (wait_for_nil_eq a f w p Hp).
    destruct (futures p !! f) as [[]|]; try apply keeps_refl.
    all: eapply keeps_insert; [done..|apply Q_futures].
  - apply keeps_same. unfold wait_for. unfold_M. simpl. by rewrite Hp.
Qed.

Lemma wait_for_keeps a f window w : keeps Q w (wait_for a f window w).2.
Proof.
  rewrite wait_for_eq.
  eapply keeps_trans; [apply deliver_all_keeps|apply wait_for_nil_keeps].
Qed.

Lemma send_message_timeout_keeps a m w :
  keeps Q w (send_message_timeout a m w).2.
Proof.
  destruct (protocols w !! a) as [p|] eqn:Hp.
  - rewrite (send_message_timeout_eq a m w p Hp).
    eapply keeps_insert; [done..|apply Q_pending].
  - apply keeps_same. unfold send_message_timeout. unfold_M. simpl.
    by rewrite Hp.
Qed.

Lemma send_message_keeps a n :
  ∀ m wait script w,
    Z.to_nat (max_retries m - retry_count m) = n →
    keeps Q w (send_message a m wait script w).2.
Proof.
  induction n as [n IH] using lt_wf_ind. intros m wait script w Hn.
  rewrite send_message_eq.
  pose proof (send_message_begin_keeps a m wait w) as H1.
  destruct (send_message_begin a m wait w) as [[[m1 [f|]]|e] w1] eqn:Hbegin;
    [|done..].
  pose proof (wait_for_keeps a f (hd [] script) w1) as H2.
  destruct (wait_for a f (hd [] script) w1) as [[[response|]|e] w2];
    [by eapply keeps_trans| |by eapply keeps_trans].
  pose proof (send_message_timeout_keeps a m1 w2) as H3.
  destruct (send_message_timeout a m1 w2) as [[[]|e] w3];
    [|by eapply keeps_trans; [eapply keeps_trans|]].
  assert (H13 : keeps Q w w3) by (eapply keeps_trans; [eapply keeps_trans|]; done).
  destruct (should_retry m1) eqn:Hretry; [|done].
  eapply keeps_trans; [exact H13|].
  assert (Hm1 : retry_count m1 = retry_count m ∧ max_retries m1 = max_retries m).
  { clear -Hbegin. unfold send_message_begin in Hbegin. unfold_M.
    simpl in Hbegin. destruct (protocols w !! a); [|done].
    destruct wait; by simplify_eq/=. }
  destruct Hm1 as [Hrc Hmr]. apply bool_decide_eq_true in Hretry.
  eapply (IH (Z.to_nat (max_retries (increment_retry m1)
                        - retry_count (increment_retry m1))));
    [simpl; lia|done].
Qed.

Lemma task_start_keeps a m w : keeps Q w (task_start a m w).2.
Proof.
  unfold task_start. pose proof (send_message_begin_keeps a m true w).
  by destruct (send_message_begin a m true w) as [[[? [?|]]|?] ?].
Qed.

Lemma task_resume_keeps t w : keeps Q w (task_resume t w).2.
Proof.
  destruct t as [a m f|r]; [|apply keeps_refl]. cbn [task_resume].
  pose proof (wait_for_nil_keeps a f w) as H1.
  destruct (wait_for a f [] w) as [[[?|]|?] w2]; simpl in *; try done.
  pose proof (send_message_timeout_keeps a m w2) as H2.
  destruct (send_message_timeout a m w2) as [[[]|?] w3]; simpl in *;
    [|by eapply keeps_trans].
  destruct (should_retry m); simpl; [|by eapply keeps_trans].
  eapply keeps_trans; [done|].
  eapply keeps_trans; [done|apply task_start_keeps].
Qed.

Lemma start_all_keeps ts w : keeps Q w (start_all ts w).2.
Proof.
  revert w. induction ts as [|[a m] ts IH]; intros w; [apply keeps_refl|].
  cbn [start_all]. pose proof (task_start_keeps a m w).
  destruct (task_start a m w) as [t w1]. specialize (IH w1).
  destruct (start_all ts w1) as [ts' w2]. by eapply keeps_trans.
Qed.

Lemma resume_all_keeps ts w : keeps Q w (resume_all ts w).2.
Proof.
  revert w. induction ts as [|t ts IH]; intros w; [apply keeps_refl|].
  cbn [resume_all]. pose proof (task_resume_keeps t w).
  destruct (task_resume t w) as [t' w1]. specialize (IH w1).
  destruct (resume_all ts w1) as [ts' w2]. by eapply keeps_trans.
Qed.

Lemma gather_loop_keeps ts script w : keeps Q w (gather_loop ts script w).2.
Proof.
  funelim (gather_loop ts script w); [apply keeps_refl|].
  eapply keeps_trans; [apply deliver_all_keeps|].
  eapply keeps_trans; [apply resume_all_keeps|].
  match goal with IH : keeps _ _ _ |- _ => exact IH end.
Qed.

Lemma gather_send_keeps ts script w : keeps Q w (gather_send ts script w).2.
Proof.
  unfold gather_send. pose proof (start_all_keeps ts w).
  destruct (start_all ts w) as [tasks w1].
  pose proof (gather_loop_keeps tasks script w1).
  destruct (gather_loop tasks script w1) as [rs w2]. by eapply keeps_trans.
Qed.

Lemma route_by_capability_keeps m cap script w :
  keeps Q w (route_by_capability m cap script w).2.
Proof.
  unfold route_by_capability. rewrite bind_eq. unfold get_router at 1.
  destruct (find_networks_by_capability (router w) cap) as [|id ids];
    [by apply keeps_same|].
  rewrite bind_eq.
  pose proof (capability_tasks_protocols (router w) m (id :: ids) w) as Hc.
  destruct (capability_tasks (router w) m (id :: ids) w) as [[tasks|?] w1];
    simpl in Hc; [|by apply keeps_same].
  rewrite bind_eq. pose proof (gather_send_keeps tasks script w1) as Hg.
  destruct (gather_send tasks script w1) as [[?|?] w2]; simpl in *.
  all: eapply keeps_trans; [by apply keeps_same|done].
Qed.

Lemma route_message_keeps m w : keeps Q w (route_message m w).2.
Proof.
  unfold route_message. rewrite bind_eq.
  destruct (_log_message_frame m w) as (Hlog & Hps & _).
  destruct (_log_message m w) as [r w1]. simpl in *. subst r.
  eapply keeps_trans; [by apply keeps_same|].
  destruct (str_truthy (receiver_id m)); cbn [negb].
  - rewrite bind_eq. unfold get_router at 1.
    destruct (_networks (router w1) !! receiver_id m) as [a|].
    + rewrite bind_eq. pose proof (receive_message_keeps a m w1).
      by destruct (receive_message a m w1) as [[[]|?] ?].
    + by apply keeps_same.
  - rewrite bind_eq.
    assert (Hb : keeps Q w1 (_broadcast m w1).2).
    { unfold _broadcast. rewrite bind_eq. unfold get_router at 1.
      rewrite bind_eq, broadcast_tasks_eq.
      destruct (broadcast_copies _ _ _ _ _) as [|d ds];
        [by apply keeps_same|].
      eapply keeps_trans; [|apply deliver_all_keeps]. by apply keeps_same. }
    by destruct (_broadcast m w1) as [[[]|?] ?].
Qed.

Lemma run_calls_keeps cs w : keeps Q w (run_calls cs w).
Proof.
  revert w. induction cs as [|c cs IH]; intros w; [apply keeps_refl|].
  cbn [run_calls foldl]. eapply keeps_trans; [|apply IH].
  destruct c as [id a caps|id|m|m cap script]; simpl.
  - by apply keeps_same.
  - by apply keeps_same.
  - apply route_message_keeps.
  - apply route_by_capability_keeps.
Qed.

End endpoint_invariant.

Lemma stamped_receive m p : stamped p → stamped (receive_effect m p).
Proof.
  unfold stamped, receive_effect.
  destruct (pending_future p m) as [[pid f]|]; [|done].
  by destruct (futures p !! f).
Qed.

Lemma stamped_send m p :
  stamped p →
  stamped (set_message_queue
             (_message_queue p ++ [set_sender_id (network_id p) m]) p).
Proof.
  unfold stamped. simpl. intros Hp. apply Forall_app. split; [done|].
  by repeat constructor.
Qed.

Lemma stamped_begin m p : stamped p → stamped (begin_effect m p).
Proof.
  unfold stamped. simpl. intros Hp. apply Forall_app. split; [done|].
  by repeat constructor.
Qed.



(** The requests of a fan-out, as they lie on the queues: four attempts
    for each of the two capable networks, none of which names "master",
    the sender of the original message. *)
Example route_by_capability_requests_sample :
  sender_id search_request = "master"
  ∧ (λ p, (network_id p, sender_id <$> _message_queue p))
      <$> protocols
            (route_by_capability search_request "search" [] sample_world).2
    = [("A", ["A"; "A"; "A"; "A"]); ("B", ["B"; "B"; "B"; "B"]); ("C", [])].
Proof. split; [reflexivity|]. vm_compute. reflexivity. Qed.

(** ** network_state.py: the state manager *)

Lemma push_history_last_n (self : network_state.StateManager) :
  (0 < network_state._max_history self)%Z →
  length (network_state._state_history self)
  ≤ Z.to_nat (network_state._max_history self) →
  network_state.push_history self
  = last_n (Z.to_nat (network_state._max_history self))
      (network_state._state_history self
       ++ [network_state._current_state self]).
Proof.
  intros Hmax Hlen. unfold network_state.push_history, last_n.
  rewrite length_app. simpl. case_bool_decide as Hgt.
  - f_equal. lia.
  - replace (_ - _) with 0 by lia. done.
Qed.

Lemma state_run_call_history (c : network_state.StateCall)
    (self : network_state.StateManager) :
  network_state._max_history (network_state.run_call c self)
  = network_state._max_history self
  ∧ network_state._state_history (network_state.run_call c self)
    = network_state.push_history self
  ∧ network_state.manager_id (network_state.run_call c self)
    = network_state.manager_id self
  ∧ network_state.network_id
      (network_state._current_state (network_state.run_call c self))
    = network_state.manager_id self
  ∧ network_state.previous_state
      (network_state._current_state (network_state.run_call c self))
    = Some (network_state.state_type (network_state._current_state self)).
Proof. by destruct c. Qed.

Lemma state_run_calls_history (cs : list network_state.StateCall) :
  ∀ (self : network_state.StateManager) (hist : list network_state.NetworkState),
    (0 < network_state._max_history self)%Z →
    network_state._state_history self
    = last_n (Z.to_nat (network_state._max_history self)) hist →
    network_state._state_history (network_state.run_calls cs self)
    = last_n (Z.to_nat (network_state._max_history self))
        (hist ++ network_state.left_states cs self).
Proof.
  induction cs as [|c cs IH]; intros self hist Hmax Hhist.
  - simpl. by rewrite app_nil_r.
  - cbn [network_state.run_calls foldl network_state.left_states].
    fold (network_state.run_calls cs (network_state.run_call c self)).
    destruct (state_run_call_history c self) as (Hm & Hh & _).
    rewrite (IH _ (hist ++ [network_state._current_state self])).
    + by rewrite Hm, <- app_assoc.
    + by rewrite Hm.
    + rewrite Hm, Hh, push_history_last_n, Hhist; [|done|].
      * apply last_n_snoc. lia.
      * rewrite Hhist, length_last_n. lia.
Qed.

(** X20. The history of a state manager is bounded and evicts the oldest
    first: after any sequence of calls of [transition_to] and
    [set_error] on a new manager, the history holds at most 100 states,
    and they are the 100 most recent of the states the manager has left
    (one per call, the initial state first), in the order in which it
    left them. *)
Theorem state_history_bounded_fifo
    (id : string) (now : datetime) (cs : list network_state.StateCall) :
  let init := network_state.StateManager_init id now in
  let history :=
    network_state.state_history (network_state.run_calls cs init) in
  length history ≤ 100
  ∧ history = last_n 100 (network_state.left_states cs init)
  ∧ length (network_state.left_states cs init) = length cs.
Proof.
  cbv zeta. unfold network_state.state_history.
  assert (H : network_state._state_history
                 (network_state.run_calls cs
                    (network_state.StateManager_init id now))
               = last_n 100
                   (network_state.left_states cs
                      (network_state.StateManager_init id now)))
    by exact (state_run_calls_history cs
                (network_state.StateManager_init id now) []
                ltac:(done) eq_refl).
  rewrite H.
  split; [rewrite length_last_n; lia|]. split; [reflexivity|].
  clear H. generalize (network_state.StateManager_init id now).
  induction cs as [|c cs IH]; intros self; [done|].
  cbn [network_state.left_states length]. f_equal. apply IH.
Qed.

Lemma linked_snoc l x y :
  network_state.linked (l ++ [x]) →
  network_state.previous_state y = Some (network_state.state_type x) →
  network_state.linked ((l ++ [x]) ++ [y]).
Proof.
  intros Hl Hy i s s' Hs Hs'.
  destruct (decide (S i < length (l ++ [x]))) as [Hlt|Hge].
  - rewrite lookup_app_l in Hs by lia. rewrite lookup_app_l in Hs' by lia.
    by eapply Hl.
  - assert (Hi : S i = length (l ++ [x])).
    { apply lookup_lt_Some in Hs'. rewrite length_app in Hs'. simpl in Hs'.
      lia. }
    rewrite lookup_app_r in Hs' by lia.
    replace (S i - length (l ++ [x])) with 0 in Hs' by lia.
    injection Hs' as <-.
    rewrite lookup_app_l in Hs by lia.
    rewrite length_app in Hi. simpl in Hi.
    rewrite lookup_app_r in Hs by lia.
    replace (i - length l) with 0 in Hs by lia.
    injection Hs as <-. done.
Qed.

Lemma linked_drop k l :
  network_state.linked l → network_state.linked (drop k l).
Proof.
  intros Hl i s s'. rewrite !lookup_drop.
  replace (k + S i) with (S (k + i)) by lia. apply Hl.
Qed.

Lemma push_history_cases (self : network_state.StateManager) :
  ∃ k, network_state.push_history self
       = drop k (network_state._state_history self
                 ++ [network_state._current_state self])
       ∧ k ≤ length (network_state._state_history self
                     ++ [network_state._current_state self]).
Proof.
  unfold network_state.push_history. rewrite length_app. simpl.
  case_bool_decide.
  - exists 1. split; [done|]. lia.
  - exists 0. split; [done|]. lia.
Qed.

(** X21. The states a manager keeps form a chain.  After any sequence of
    calls on a new manager, in the history followed by the current
    state, every state records the type of the state before it as its
    [previous_state], and every state carries the identifier of the
    manager; the current state is the last one entered. *)
Theorem state_history_linked
    (id : string) (now : datetime) (cs : list network_state.StateCall) :
  let self :=
    network_state.run_calls cs (network_state.StateManager_init id now) in
  let states :=
    network_state._state_history self ++ [network_state._current_state self] in
  network_state.linked states
  ∧ Forall (λ s, network_state.network_id s = id) states
  ∧ network_state.manager_id self = id.
Proof.
  cbv zeta.
  assert (Hinit :
    network_state.linked
      (network_state._state_history (network_state.StateManager_init id now)
       ++ [network_state._current_state
             (network_state.StateManager_init id now)])
    ∧ Forall (λ s, network_state.network_id s = id)
        (network_state._state_history (network_state.StateManager_init id now)
         ++ [network_state._current_state
               (network_state.StateManager_init id now)])
    ∧ network_state.manager_id (network_state.StateManager_init id now) = id).
  { split; [|split; [by repeat constructor|done]].
    intros i s s' Hs Hs'. by destruct i. }
  revert Hinit. generalize (network_state.StateManager_init id now).
  induction cs as [|c cs IH]; intros self Hinv; [done|].
  cbn [network_state.run_calls foldl]. apply IH.
  destruct Hinv as (Hlinked & Hids & Hid).
  destruct (state_run_call_history c self) as (_ & Hh & Hm & Hn & Hprev).
  destruct (push_history_cases self) as (k & Hpush & Hk).
  rewrite Hh, Hpush. split; [|split; [|congruence]].
  - rewrite <- drop_app_le by lia. apply linked_drop.
    by apply linked_snoc.
  - apply Forall_app. split.
    + by apply Forall_drop.
    + repeat constructor. congruence.
Qed.

(** X22. [get_last_n_states(n)] returns the [n] most recent states of the
    history, oldest first: all of the history when it holds no more than
    [n] states, and the empty list when [n] is zero or negative (not the
    whole history, which the slice alone would give for zero). *)
Theorem get_last_n_states_spec
    (self : network_state.StateManager) (n : Z) :
  let history := network_state._state_history self in
  let states := network_state.get_last_n_states self n in
  ((n ≤ 0)%Z → states = [])
  ∧ ((0 < n)%Z →
     states = last_n (Z.to_nat n) history
     ∧ length states = length history `min` Z.to_nat n
     ∧ ((Z.of_nat (length history) ≤ n)%Z → states = history)).
Proof.
  cbv zeta. unfold network_state.get_last_n_states. split.
  - intros Hn. by rewrite bool_decide_eq_false_2 by lia.
  - intros Hn. rewrite bool_decide_eq_true_2 by lia.
    rewrite slice_from_neg by done.
    split; [done|]. split; [apply length_last_n|].
    intros Hlen. apply last_n_all. lia.
Qed.

(** X23. The properties of a state agree with each other: a state that
    is available is operational, and no state is both operational and
    in need of attention.  A new manager is offline: not operational and
    not in need of attention.  [set_error] leads to a state that needs
    attention and is not operational, keeps the error information it is
    given, and records the type of the state it replaces. *)
Theorem state_properties_consistent
    (s : network_state.NetworkState) (self : network_state.StateManager)
    (id msg : string) (info : option PyDict) (now : datetime) :
  (network_state.is_available s = true →
   network_state.is_operational s = true)
  ∧ (network_state.is_operational s = true →
     network_state.requires_attention s = false)
  ∧ (let s0 := network_state.current_state
                 (network_state.StateManager_init id now) in
     network_state.is_operational s0 = false
     ∧ network_state.requires_attention s0 = false)
  ∧ (let (e, self') := network_state.set_error self msg info now in
     network_state.current_state self' = e
     ∧ network_state.requires_attention e = true
     ∧ network_state.is_operational e = false
     ∧ network_state.error_info e = info
     ∧ network_state.previous_state e
       = Some (network_state.state_type
                 (network_state.current_state self))).
Proof.
  split; [|split; [|split]].
  - unfold network_state.is_available, network_state.is_operational.
    by destruct (network_state.state_type s).
  - unfold network_state.requires_attention, network_state.is_operational.
    by destruct (network_state.state_type s).
  - done.
  - done.
Qed.

Lemma isoformat_inj d1 d2 :
  valid_datetime d1 = true → valid_datetime d2 = true →
  isoformat d1 = isoformat d2 → d1 = d2.
Proof.
  intros H1 H2 Heq.
  pose proof (fromisoformat_isoformat d1 H1) as Hd1.
  rewrite Heq, (fromisoformat_isoformat d2 H2) in Hd1. by simplify_eq.
Qed.

(** X24. [NetworkState.to_dict] loses nothing: two states whose
    timestamps are valid and whose dictionaries are equal are the same
    state, field by field. *)
Theorem state_to_dict_inj (s1 s2 : network_state.NetworkState) :
  valid_datetime (network_state.timestamp s1) = true →
  valid_datetime (network_state.timestamp s2) = true →
  network_state.to_dict s1 = network_state.to_dict s2 →
  s1 = s2.
Proof.
  intros Hv1 Hv2 H.
  pose proof (f_equal (λ d : PyDict, d !! "network_id") H) as Hid.
  pose proof (f_equal (λ d : PyDict, d !! "state_type") H) as Hty.
  pose proof (f_equal (λ d : PyDict, d !! "timestamp") H) as Hts.
  pose proof (f_equal (λ d : PyDict, d !! "message") H) as Hmsg.
  pose proof (f_equal (λ d : PyDict, d !! "context") H) as Hctx.
  pose proof (f_equal (λ d : PyDict, d !! "previous_state") H) as Hprev.
  pose proof (f_equal (λ d : PyDict, d !! "error_info") H) as Herr.
  clear H. destruct s1 as [id1 ty1 ts1 msg1 ctx1 prev1 err1].
  destruct s2 as [id2 ty2 ts2 msg2 ctx2 prev2 err2].
  change (Some (PStr id1) = Some (PStr id2)) in Hid.
  change (Some (PStr (network_state.StateType_value ty1))
          = Some (PStr (network_state.StateType_value ty2))) in Hty.
  change (Some (PStr (isoformat ts1)) = Some (PStr (isoformat ts2))) in Hts.
  change (Some (PStr msg1) = Some (PStr msg2)) in Hmsg.
  change (Some (PDict ctx1) = Some (PDict ctx2)) in Hctx.
  change (Some (match prev1 with
                | Some s => PStr (network_state.StateType_value s)
                | None => PNone
                end)
          = Some (match prev2 with
                  | Some s => PStr (network_state.StateType_value s)
                  | None => PNone
                  end)) in Hprev.
  change (Some (match err1 with Some d => PDict d | None => PNone end)
          = Some (match err2 with Some d => PDict d | None => PNone end))
    in Herr.
  simpl in Hv1, Hv2.
  assert (ts1 = ts2) as -> by (apply isoformat_inj; congruence).
  assert (ty1 = ty2) as ->
    by (destruct ty1, ty2; simpl in Hty; congruence).
  assert (prev1 = prev2) as ->.
  { destruct prev1 as [p1|], prev2 as [p2|]; try discriminate; [|done].
    f_equal. destruct p1, p2; simpl in Hprev; congruence. }
  assert (err1 = err2) as ->
    by (destruct err1, err2; simpl in Herr; congruence).
  congruence.
Qed.

Lemma state_to_dict_inj_witness :
  let s := network_state.current_state
             (network_state.StateManager_init "A" (sample_utcnow 0)) in
  valid_datetime (network_state.timestamp s) = true ∧ s = s.
Proof.
  cbv zeta. split; [reflexivity|].
  apply (state_to_dict_inj
           (network_state.current_state
              (network_state.StateManager_init "A" (sample_utcnow 0)))
           (network_state.current_state
              (network_state.StateManager_init "A" (sample_utcnow 0))));
    reflexivity.
Defined.

(** ** network_capability.py: the capability registry *)

Lemma remove_tagged_lookup id l :
  ∀ capabilities key,
    NoDup l →
    foldl (network_capability.remove_tagged id) capabilities l !! key
    = if decide (key ∈ l)
      then filter (λ cap, network_capability.not_tagged id cap = true)
             <$> capabilities !! key
      else capabilities !! key.
Proof.
  induction l as [|k l IH]; intros capabilities key Hnd.
  - cbn [foldl]. rewrite decide_False; [done|]. by intros ?%elem_of_nil.
  - apply NoDup_cons in Hnd as [Hk Hnd]. cbn [foldl]. rewrite IH by done.
    unfold network_capability.remove_tagged.
    destruct (decide (key = k)) as [->|Hne].
    + rewrite (decide_False (P := k ∈ l)) by done.
      rewrite decide_True by by left.
      destruct (capabilities !! k) as [caps|] eqn:Hcaps.
      * by rewrite lookup_insert_eq.
      * by rewrite Hcaps.
    + assert (Hother : ∀ x : gmap string (list network_capability.NetworkCapability),
                match capabilities !! k with
                | Some caps =>
                    <[k := filter
                             (λ cap, network_capability.not_tagged id cap = true)
                             caps]> capabilities
                | None => capabilities
                end !! key = capabilities !! key).
      { intros _. destruct (capabilities !! k); [|done].
        by rewrite lookup_insert_ne. }
      rewrite (Hother ∅).
      destruct (decide (key ∈ l)) as [Hin|Hnin].
      * rewrite decide_True by by right. done.
      * rewrite decide_False; [done|].
        intros [?|?]%elem_of_cons; [done|done].
Qed.

Lemma capability_unregister_lookup
    (self : network_capability.CapabilityRegistry) (id key : string) :
  network_capability._capabilities
    (network_capability.unregister_network self id) !! key
  = if decide (key ∈ network_capability.get_network_capabilities self id)
    then filter (λ cap, network_capability.not_tagged id cap = true)
           <$> network_capability._capabilities self !! key
    else network_capability._capabilities self !! key.
Proof.
  unfold network_capability.unregister_network,
    network_capability.get_network_capabilities.
  destruct (network_capability._network_capabilities self !! id)
    as [held|] eqn:Hheld; simpl.
  - rewrite remove_tagged_lookup by apply NoDup_elements.
    destruct (decide (key ∈ held)) as [Hin|Hnin].
    + rewrite decide_True; [done|]. by apply elem_of_elements.
    + rewrite decide_False; [done|]. by rewrite elem_of_elements.
  - rewrite decide_False; [done|]. apply not_elem_of_empty.
Qed.

(** X25. [register_capability(id, cap)] records the capability twice:
    the type of [cap] is added to the capabilities of the network [id],
    and [cap] is appended to the list kept for its type, after the ones
    registered before (registering a capability again lists it again).
    The type becomes one of the registered types.  The other networks
    and the lists of the other types are as they were. *)
Theorem register_capability_recorded
    (self : network_capability.CapabilityRegistry) (id : string)
    (cap : network_capability.NetworkCapability) :
  let key :=
    network_capability.CapabilityType_value
      (network_capability.capability_type cap) in
  let self' := network_capability.register_capability self id cap in
  network_capability.get_network_capabilities self' id
  = network_capability.get_network_capabilities self id ∪ {[ key ]}
  ∧ network_capability._capabilities self' !! key
    = Some (default [] (network_capability._capabilities self !! key)
            ++ [cap])
  ∧ key ∈ network_capability.get_all_capability_types self'
  ∧ (∀ id', id' ≠ id →
       network_capability.get_network_capabilities self' id'
       = network_capability.get_network_capabilities self id')
  ∧ (∀ key', key' ≠ key →
       network_capability._capabilities self' !! key'
       = network_capability._capabilities self !! key').
Proof.
  cbv zeta.
  unfold network_capability.get_network_capabilities,
    network_capability.get_all_capability_types. simpl.
  split; [by rewrite lookup_insert_eq|].
  split; [by rewrite lookup_insert_eq|]. split; [|split].
  - apply list_elem_of_fmap. eexists (_, _). split; [done|].
    apply elem_of_map_to_list. apply lookup_insert_eq.
  - intros id' Hne. by rewrite lookup_insert_ne.
  - intros key' Hne. by rewrite lookup_insert_ne.
Qed.

(** X26. [unregister_network(id)] forgets the capabilities of the
    network: afterwards it provides none.  From the lists of the types
    the network provided it removes the capabilities whose metadata
    name [id] under the key "network_id", and only those; the lists of
    the other types, the other networks and the set of registered types
    are as they were.  For a network that is not registered the
    registry is left as it is. *)
Theorem capability_unregister_filters_by_tag
    (self : network_capability.CapabilityRegistry) (id : string) :
  let self' := network_capability.unregister_network self id in
  let held := network_capability.get_network_capabilities self id in
  network_capability.get_network_capabilities self' id = ∅
  ∧ (∀ id', id' ≠ id →
       network_capability.get_network_capabilities self' id'
       = network_capability.get_network_capabilities self id')
  ∧ (∀ key,
       network_capability._capabilities self' !! key
       = if decide (key ∈ held)
         then filter (λ cap, network_capability.not_tagged id cap = true)
                <$> network_capability._capabilities self !! key
         else network_capability._capabilities self !! key)
  ∧ dom (network_capability._capabilities self')
    = dom (network_capability._capabilities self)
  ∧ (network_capability._network_capabilities self !! id = None →
     self' = self).
Proof.
  cbv zeta. split; [|split; [|split; [|split]]].
  - unfold network_capability.unregister_network,
      network_capability.get_network_capabilities.
    destruct (network_capability._network_capabilities self !! id)
      as [held|] eqn:Hheld; simpl; [|by rewrite Hheld].
    by rewrite lookup_delete_eq.
  - intros id' Hne.
    unfold network_capability.unregister_network,
      network_capability.get_network_capabilities.
    destruct (network_capability._network_capabilities self !! id);
      simpl; [|done].
    by rewrite lookup_delete_ne.
  - intros key. apply capability_unregister_lookup.
  - apply set_eq. intros key. rewrite !elem_of_dom.
    rewrite capability_unregister_lookup.
    destruct (decide (key ∈ _)); [|done].
    by rewrite fmap_is_Some.
  - intros Hnone. unfold network_capability.unregister_network.
    by rewrite Hnone.
Qed.

(** X27. Registration does not tag a capability with its network, so
    unregistering undoes it only for capabilities that carry the tag
    themselves.  After [register_capability(id, cap)] followed by
    [unregister_network(id)] the network provides nothing; [cap] is
    still listed under its type when its metadata do not name [id]
    under "network_id", and it is gone when they do; the type stays
    among the registered types. *)
Theorem capability_unregister_keeps_untagged
    (self : network_capability.CapabilityRegistry) (id : string)
    (cap : network_capability.NetworkCapability) :
  let key :=
    network_capability.CapabilityType_value
      (network_capability.capability_type cap) in
  let self' :=
    network_capability.unregister_network
      (network_capability.register_capability self id cap) id in
  let listed :=
    default [] (network_capability._capabilities self' !! key) in
  network_capability.get_network_capabilities self' id = ∅
  ∧ (network_capability.not_tagged id cap = true → cap ∈ listed)
  ∧ (network_capability.not_tagged id cap = false → cap ∉ listed)
  ∧ key ∈ network_capability.get_all_capability_types self'.
Proof.
  cbv zeta.
  set (key := network_capability.CapabilityType_value
                (network_capability.capability_type cap)).
  set (self1 := network_capability.register_capability self id cap).
  assert (Hheld : key ∈ network_capability.get_network_capabilities self1 id).
  { unfold network_capability.get_network_capabilities. simpl.
    rewrite lookup_insert_eq. simpl. set_solver. }
  assert (Hlist : network_capability._capabilities
                    (network_capability.unregister_network self1 id) !! key
                  = Some (filter
                            (λ c, network_capability.not_tagged id c = true)
                            (default []
                               (network_capability._capabilities self !! key)
                             ++ [cap]))).
  { rewrite capability_unregister_lookup, decide_True by done. simpl.
    by rewrite lookup_insert_eq. }
  rewrite Hlist. simpl. split; [|split; [|split]].
  - unfold network_capability.unregister_network,
      network_capability.get_network_capabilities. simpl.
    rewrite lookup_insert_eq. simpl. by rewrite lookup_delete_eq.
  - intros Htag. apply list_elem_of_filter. split; [done|].
    apply elem_of_app. right. by apply list_elem_of_singleton.
  - intros Htag [Hc _]%list_elem_of_filter. congruence.
  - unfold network_capability.get_all_capability_types.
    apply list_elem_of_fmap. eexists (_, _). split; [done|].
    apply elem_of_map_to_list. exact Hlist.
Qed.

Lemma capability_unregister_keeps_untagged_witness :
  let cap :=
    network_capability.mkNetworkCapability
      network_capability.SEMANTIC_SEARCH "search" "finds" "1.0.0"
      S754_nan S754_nan S754_nan ∅ ∅ ∅ ∅ in
  let self' :=
    network_capability.unregister_network
      (network_capability.register_capability
         network_capability.CapabilityRegistry_init "A" cap) "A" in
  network_capability.not_tagged "A" cap = true
  ∧ cap ∈ default []
            (network_capability._capabilities self' !! "semantic_search").
Proof.
  cbv zeta. split; [reflexivity|].
  apply (capability_unregister_keeps_untagged
           network_capability.CapabilityRegistry_init "A"
           (network_capability.mkNetworkCapability
              network_capability.SEMANTIC_SEARCH "search" "finds" "1.0.0"
              S754_nan S754_nan S754_nan ∅ ∅ ∅ ∅)).
  reflexivity.
Defined.

(** ** network_interface.py: the sub-networks of a network *)

Lemma register_sub_network_eq
    (s : network_interface.Networks) (self child : nat)
    (this sub : network_interface.BaseNetwork) :
  network_interface.heap s !! self = Some this →
  network_interface.heap s !! child = Some sub →
  ∃ s1 this1 sub1,
    network_interface.register_sub_network self child s = Some s1
    ∧ length (network_interface.heap s1) = length (network_interface.heap s)
    ∧ network_interface.heap s1 !! self = Some this1
    ∧ network_interface._sub_networks this1
      = <[network_interface.network_id (network_interface.metadata sub)
            := child]> (network_interface._sub_networks this)
    ∧ network_interface.heap s1 !! child = Some sub1
    ∧ network_interface.parent_id (network_interface.metadata sub1)
      = Some (network_interface.network_id (network_interface.metadata this))
    ∧ network_interface.network_id (network_interface.metadata sub1)
      = network_interface.network_id (network_interface.metadata sub).
Proof.
  intros Hself Hchild. unfold network_interface.register_sub_network.
  rewrite Hself, Hchild. cbn [mbind option_bind].
  pose proof (lookup_lt_Some _ _ _ Hself) as Hlt.
  pose proof (lookup_lt_Some _ _ _ Hchild) as Hlt'.
  destruct (decide (child = self)) as [->|Hne].
  - rewrite list_lookup_insert_eq by done. cbn [mbind option_bind].
    assert (sub = this) as -> by congruence.
    eexists _, _, _. split; [done|]. cbn [network_interface.heap].
    rewrite !length_insert.
    split; [done|]. split; [by apply list_lookup_insert_eq; rewrite length_insert|].
    split; [done|].
    split; [by apply list_lookup_insert_eq; rewrite length_insert|]. done.
  - rewrite list_lookup_insert_ne by done. rewrite Hchild.
    cbn [mbind option_bind].
    eexists _, _, _. split; [done|]. cbn [network_interface.heap].
    rewrite !length_insert. split; [done|]. split.
    { rewrite list_lookup_insert_ne by done.
      by apply list_lookup_insert_eq. }
    split; [done|].
    split; [by apply list_lookup_insert_eq; rewrite length_insert|]. done.
Qed.

(** X28. The table of sub-networks.  [register_sub_network] puts the
    network in the table under its identifier and makes the registering
    network its parent; [get_sub_network] then finds it and
    [get_sub_networks] lists it.
    [unregister_sub_network] returns it and removes it from the table,
    after which it is no longer found and a second call returns [None]
    and changes nothing; the network that was removed still names its
    former parent in [parent_id]. *)
Theorem sub_network_round_trip
    (s : network_interface.Networks) (self child : nat)
    (this sub : network_interface.BaseNetwork) :
  network_interface.heap s !! self = Some this →
  network_interface.heap s !! child = Some sub →
  let id := network_interface.network_id (network_interface.metadata sub) in
  let parent :=
    Some (network_interface.network_id (network_interface.metadata this)) in
  ∃ s1 s2 sub1 sub2,
    network_interface.register_sub_network self child s = Some s1
    ∧ network_interface.get_sub_network self id s1 = Some (Some child)
    ∧ (∃ subs, network_interface.get_sub_networks self s1 = Some subs
               ∧ child ∈ subs)
    ∧ network_interface.heap s1 !! child = Some sub1
    ∧ network_interface.parent_id (network_interface.metadata sub1) = parent
    ∧ network_interface.unregister_sub_network self id s1
      = Some (Some child, s2)
    ∧ network_interface.get_sub_network self id s2 = Some None
    ∧ network_interface.unregister_sub_network self id s2 = Some (None, s2)
    ∧ network_interface.heap s2 !! child = Some sub2
    ∧ network_interface.parent_id (network_interface.metadata sub2) = parent.
Proof.
  intros Hself Hchild. cbv zeta.
  destruct (register_sub_network_eq s self child this sub Hself Hchild)
    as (s1 & this1 & sub1 & Hreg & Hlen & Hself1 & Htable & Hchild1 & Hparent
        & Hid).
  pose proof (lookup_lt_Some _ _ _ Hself1) as Hlt.
  set (id := network_interface.network_id (network_interface.metadata sub))
    in *.
  set (this2 := network_interface.set_sub_networks
                  (delete id (network_interface._sub_networks this1)) this1).
  set (s2 := network_interface.mkNetworks
               (<[self := this2]> (network_interface.heap s1))
               (network_interface.log s1
                ++ [network_interface.network_log this1
                      "sub_network_unregistered"
                      [("sub_network_id", PStr id);
                       ("reason", PStr "manual_unregister")]])).
  assert (Hself2 : network_interface.heap s2 !! self = Some this2)
    by by apply list_lookup_insert_eq.
  assert (Hlook : network_interface._sub_networks this1 !! id = Some child)
    by (rewrite Htable; apply lookup_insert_eq).
  exists s1, s2, sub1.
  exists (if decide (child = self) then this2 else sub1).
  split; [done|].
  split; [|split; [|split; [done|split; [done|split; [|split; [|split]]]]]].
  - unfold network_interface.get_sub_network. rewrite Hself1. simpl.
    by rewrite Hlook.
  - unfold network_interface.get_sub_networks. rewrite Hself1. simpl.
    eexists. split; [done|]. apply list_elem_of_fmap. exists (id, child).
    split; [done|]. by apply elem_of_map_to_list.
  - unfold network_interface.unregister_sub_network. rewrite Hself1. simpl.
    by rewrite Hlook.
  - unfold network_interface.get_sub_network. rewrite Hself2. simpl.
    by rewrite lookup_delete_eq.
  - unfold network_interface.unregister_sub_network. rewrite Hself2. simpl.
    by rewrite lookup_delete_eq.
  - destruct (decide (child = self)) as [->|Hne].
    + split; [done|]. simpl. congruence.
    + split; [|done]. simpl. by rewrite list_lookup_insert_ne.
Qed.

Lemma sub_network_round_trip_witness :
  let md id :=
    network_interface.mkNetworkMetadata id id network_interface.SPECIALIST
      "0.1.0" (sample_utcnow 0) (sample_utcnow 0) None None "" ∅ ∅ in
  let s :=
    network_interface.mkNetworks
      [network_interface.BaseNetwork_init (md "master");
       network_interface.BaseNetwork_init (md "worker")] [] in
  ∃ s1 s2 sub2,
    network_interface.register_sub_network 0 1 s = Some s1
    ∧ network_interface.unregister_sub_network 0 "worker" s1
      = Some (Some 1, s2)
    ∧ network_interface.heap s2 !! 1 = Some sub2
    ∧ network_interface.parent_id (network_interface.metadata sub2)
      = Some "master".
Proof.
  cbv zeta.
  destruct (sub_network_round_trip
              (network_interface.mkNetworks
                 [network_interface.BaseNetwork_init
                    (network_interface.mkNetworkMetadata "master" "master"
                       network_interface.SPECIALIST "0.1.0" (sample_utcnow 0)
                       (sample_utcnow 0) None None "" ∅ ∅);
                  network_interface.BaseNetwork_init
                    (network_interface.mkNetworkMetadata "worker" "worker"
                       network_interface.SPECIALIST "0.1.0" (sample_utcnow 0)
                       (sample_utcnow 0) None None "" ∅ ∅)] [])
              0 1 _ _ eq_refl eq_refl)
    as (s1 & s2 & sub1 & sub2 & Hreg & _ & _ & _ & _ & Hunreg & _ & _ & Hsub2
        & Hparent).
  exists s1, s2, sub2. by repeat split.
Defined.
